(** * RobustIRC node: start-up, join and main loop (robustirc.go)

    A shallow embedding of [main], [joinMaster] and
    [deleteOldCompactionDatabases] of robustirc.go.  The program is a
    sequence of calls into the operating system, the Raft library and
    the other packages of the repository; it is embedded as a
    state-and-exit monad [Proc] over a [World] that holds the parsed
    flags, the data directory, the persisted peer list and the trace of
    external calls made so far.  What the outside world answers is an
    [Env]: every answer may depend on the history of calls.  Once the
    Raft node exists, the Raft library and the HTTP API share the peer
    store with [main]: what a later read of peers.json finds is the
    environment's too.

    The last part embeds [canBackquote] of api/gentmpl.go, the
    generator of the embedded HTML templates, over strings as lists of
    bytes, with the UTF-8 decoder of the Go library that it calls. *)

From Stdlib Require Import String Ascii List ZArith Bool Lia.
Import ListNotations.
Local Open Scope string_scope.
Local Open Scope Z_scope.
Local Open Scope list_scope.

(** ** Data *)

(** [time.Duration] is an int64 count of nanoseconds. *)
Definition Duration := Z.
Definition Second : Duration := 1000000000.
Definition Minute : Duration := 60 * Second.

(** const expireSessionsInterval = 10 * time.Second *)
Definition expireSessionsInterval : Duration := 10 * Second.

(** [filepath.Join] of a directory and an entry name, for a directory
    path that [filepath.Clean] leaves as it is and a plain entry name;
    on other paths the library cleans the result. *)
Definition Join (dir name : string) : string :=
  String.append dir (String.append "/" name).

(** The flags of robustirc.go, and [timesafeguard.DisableTimesafeguard],
    after [flag.Parse].  [main] assigns to [log_dir], [networkPassword]
    and [peerAddr]. *)
Record Flags := mkFlags {
  raftDir : string;
  listen : string;
  version : bool;
  singleNode : bool;
  join : string;
  dumpCanaryState : string;
  dumpHeapProfile : string;
  canaryCompactionStart : Z;
  network : string;
  peerAddr : string;
  tlsCertPath : string;
  tlsKeyPath : string;
  networkPassword : string;
  log_dir : string;
  DisableTimesafeguard : bool
}.

Definition set_log_dir (v : string) (f : Flags) : Flags :=
  mkFlags (raftDir f) (listen f) (version f) (singleNode f) (join f)
    (dumpCanaryState f) (dumpHeapProfile f) (canaryCompactionStart f)
    (network f) (peerAddr f) (tlsCertPath f) (tlsKeyPath f)
    (networkPassword f) v (DisableTimesafeguard f).

Definition set_networkPassword (v : string) (f : Flags) : Flags :=
  mkFlags (raftDir f) (listen f) (version f) (singleNode f) (join f)
    (dumpCanaryState f) (dumpHeapProfile f) (canaryCompactionStart f)
    (network f) (peerAddr f) (tlsCertPath f) (tlsKeyPath f)
    v (log_dir f) (DisableTimesafeguard f).

Definition set_peerAddr (v : string) (f : Flags) : Flags :=
  mkFlags (raftDir f) (listen f) (version f) (singleNode f) (join f)
    (dumpCanaryState f) (dumpHeapProfile f) (canaryCompactionStart f)
    (network f) v (tlsCertPath f) (tlsKeyPath f)
    (networkPassword f) (log_dir f) (DisableTimesafeguard f).

(** What [flag.Parse] makes of a command line: it rejects it, or finds
    that it asks for help, or parses it into the flags. *)
Inductive CommandLine :=
| Rejected
| Help
| Parsed (f : Flags).

(** [raft.RaftState] *)
Inductive RaftState := Follower | Candidate | Leader | Shutdown.

Definition RaftState_eqb (a b : RaftState) : bool :=
  match a, b with
  | Follower, Follower | Candidate, Candidate
  | Leader, Leader | Shutdown, Shutdown => true
  | _, _ => false
  end.

(** The type of a command record. *)
Inductive MessageType :=
  CreateSession | DeleteSession | IRCFromClient | IRCToClient | Config | Ping.

(** A message as the expiry loop proposes it: the server assigns id and
    timestamp when it is applied. *)
Record Message := mkMessage {
  Session : Z;
  Type_ : MessageType;
  Data : string
}.

(** What the IRC server knows of a session for expiry. *)
Record SessionInfo := mkSessionInfo {
  sessionId : Z;
  LastActivity : Z;
  TTL : Duration
}.

(** [raft.Config], the fields [main] sets. *)
Record RaftConfig := mkRaftConfig {
  EnableSingleNode : bool;
  StartAsLeader : bool;
  SnapshotInterval : Duration;
  MaxAppendEntries : Z;
  LeaderLeaseTimeout : Duration;
  HeartbeatTimeout : Duration;
  ElectionTimeout : Duration
}.

(** The part of an [http.Response] that [joinMaster] reads;
    [Location] is [res.Header.Get("Location")], empty when absent. *)
Record Response := mkResponse {
  StatusCode : Z;
  Location : string;
  Body : string
}.

(** ** External calls

    One constructor per call that leaves the program text of
    robustirc.go, with the arguments the program passes. *)
Inductive Call :=
| flag_Usage
| glog_CopyStandardLogTo (name : string)
| log_Print (msg : string)
| flag_Set (name value : string)
| os_Stat (path : string)
| os_RemoveAll (path : string)
| os_Mkdir (path : string) (perm : Z)
| outputstream_DeleteOldDatabases (dir : string)
| os_Open (path : string)
| Readdirnames (path : string)
| os_Remove (path : string)
| os_Getenv (key : string)
| ircserver_NewIRCServer (dir networkname : string) (serverCreation : Z)
| rafthttp_NewHTTPTransport (addr password : string)
| raft_NewJSONPeers (dir : string)
| peerStore_Peers
| peerStore_SetPeers (p : list string)
| time_Sleep (d : Duration)
| timesafeguard_SynchronizedWithNetwork
    (addr : string) (peers : list string) (password : string)
| timesafeguard_SynchronizedWithMasterAndNetwork
    (addr master password : string)
| raft_NewFileSnapshotStoreWithLogger (base : string) (retain : Z)
| metrics_prometheus_NewPrometheusSink
| metrics_NewGlobal
| raft_store_NewLevelDBStore (path : string) (bootstrapping : bool)
| raft_NewLogCache (capacity : Z)
| raft_NewRaft (config : RaftConfig)
| canary (file : string)
| debug_FreeOSMemory
| os_Create (path : string)
| pprof_WriteHeapProfile
| go_secondsInState
| api_NewHTTP (networkname password dir addr : string)
| http2_ConfigureServer
| tlsutil_NewKeypairReloader (cert key : string)
| net_Listen (addr : string)
| go_srv_Serve (addr : string)
| json_Marshal (addr : string)
| http_NewRequest (method url : string)
| client_Do (url : string)
| url_Parse (loc : string)
| node_SetPeers (p : list string)
| node_State
| time_After (d : Duration)
| time_Tick (d : Duration)
| ircServer_ExpireSessions
| api_ApplyMessageWait (msg : Message) (timeout : Duration).

(** The answers of the outside world.  [fails h c] says whether call
    [c], made after the calls [h], returns a non-nil error.
    [raft_peers h p] is the content of peers.json after the calls [h]
    once the Raft node and the HTTP API, which write it through the
    shared peer store, are there; [p] is what [main] left in it. *)
Record Env := mkEnv {
  Version : string;
  fails : list Call -> Call -> bool;
  getenv : string -> string;
  time_Now : list Call -> Z;
  isOldDatabase : string -> bool;
  response : list Call -> string -> Response;
  url_Host : string -> string;
  raftState : list Call -> RaftState;
  sessions : list Call -> list SessionInfo;
  timesafeguard_ElectionTimeout : Duration;
  raft_peers : list Call -> list string -> list string
}.

(** The state the program reads and writes.  [datadir] is the directory
    named by -raftdir: [None] when it does not exist, otherwise the
    names of its entries, as [os.Stat] and [Readdirnames] see them.
    [peers_json] is the peer list in peers.json, a file of that
    directory, as the calls of [main] have left it (empty when the file
    is not there).  [trace] is the list of external calls made so far,
    oldest first. *)
Record World := mkWorld {
  flags : Flags;
  datadir : option (list string);
  peers_json : list string;
  trace : list Call
}.

Definition record (c : Call) (w : World) : World :=
  mkWorld (flags w) (datadir w) (peers_json w) (trace w ++ [c]).

Definition with_flags (f : Flags) (w : World) : World :=
  mkWorld f (datadir w) (peers_json w) (trace w).

Definition with_datadir (d : option (list string)) (w : World) : World :=
  mkWorld (flags w) d (peers_json w) (trace w).

Definition with_peers_json (p : list string) (w : World) : World :=
  mkWorld (flags w) (datadir w) p (trace w).

Arguments record : simpl never.

(** ** The process monad *)

(** A computation continues with a value, ends the process with an exit
    code ([os.Exit], or [main] returning), or runs out of fuel (only
    [joinMaster] recurses without a structural bound). *)
Inductive Result (A : Type) : Type :=
| Ok (a : A)
| Exit (code : Z)
| OutOfFuel.
Arguments Ok {A} a.
Arguments Exit {A} code.
Arguments OutOfFuel {A}.

Definition Proc (A : Type) : Type := World -> Result A * World.

Definition ret {A} (a : A) : Proc A := fun w => (Ok a, w).

Definition bind {A B} (m : Proc A) (k : A -> Proc B) : Proc B :=
  fun w =>
    match m w with
    | (Ok a, w') => k a w'
    | (Exit c, w') => (Exit c, w')
    | (OutOfFuel, w') => (OutOfFuel, w')
    end.

Declare Scope proc_scope.
Delimit Scope proc_scope with proc.
Notation "x <- m ;; k" := (bind m (fun x => k))
  (at level 61, m at next level, right associativity) : proc_scope.
Notation "m ;; k" := (bind m (fun _ => k))
  (at level 61, right associativity) : proc_scope.
Local Open Scope proc_scope.

Definition os_Exit {A} (code : Z) : Proc A := fun w => (Exit code, w).

Definition getFlags : Proc Flags := fun w => (Ok (flags w), w).
Definition setFlags (g : Flags -> Flags) : Proc unit :=
  fun w => (Ok tt, with_flags (g (flags w)) w).
Definition getDatadir : Proc (option (list string)) :=
  fun w => (Ok (datadir w), w).
Definition setDatadir (d : option (list string)) : Proc unit :=
  fun w => (Ok tt, with_datadir d w).
Definition setPeersJson (p : list string) : Proc unit :=
  fun w => (Ok tt, with_peers_json p w).

Definition when (b : bool) (m : Proc unit) : Proc unit :=
  if b then m else ret tt.

Definition is_empty (s : string) : bool := String.eqb s "".

Section Program.

Variable env : Env.

(** A call that cannot fail, or whose error the program drops. *)
Definition emit (c : Call) : Proc unit := fun w => (Ok tt, record c w).

(** A call that returns an error value: [true] when it is non-nil. *)
Definition call (c : Call) : Proc bool :=
  fun w => (Ok (fails env (trace w) c), record c w).

(** [log.Fatal], [log.Fatalf]: print, then [os.Exit(1)]. *)
Definition log_Fatal {A} (msg : string) : Proc A :=
  emit (log_Print msg) ;; os_Exit 1.

(** The idiom [if err := c; err != nil { log.Fatal(err) }]. *)
Definition must (c : Call) (msg : string) : Proc unit :=
  err <- call c ;;
  if err then log_Fatal msg else ret tt.

(** ** deleteOldCompactionDatabases *)

Definition remove_entry (name : string) (d : option (list string))
  : option (list string) :=
  match d with
  | None => None
  | Some l => Some (filter (fun n => negb (String.eqb n name)) l)
  end.

(** The loop [for _, name := range names]. *)
Fixpoint removeCompactionDatabases (tmpdir : string) (names : list string)
  : Proc bool :=
  match names with
  | [] => ret false
  | name :: rest =>
      if String.prefix "permanent-compaction.sqlite3" name then
        err <- call (os_Remove (Join tmpdir name)) ;;
        if err then ret true
        else
          d <- getDatadir ;;
          setDatadir (remove_entry name d) ;;
          removeCompactionDatabases tmpdir rest
      else removeCompactionDatabases tmpdir rest
  end.

(** Returns whether the error is non-nil.  [os.Open] fails on a
    directory that does not exist. *)
Definition deleteOldCompactionDatabases (tmpdir : string) : Proc bool :=
  err <- call (os_Open tmpdir) ;;
  d <- getDatadir ;;
  match d with
  | None => ret true
  | Some entries =>
      if err then ret true
      else
        err <- call (Readdirnames tmpdir) ;;
        if err then ret true
        else removeCompactionDatabases tmpdir entries
  end.

(** ** main, block by block *)

(** Lines 312-321, once [flag.Parse] of line 310 has returned (see
    [flag_Parse] below): the flags of the world are the parsed ones.
    The log directory, the version line.  Setting [glog.MaxSize] and
    deferring [glog.Flush] are no calls of their own here. *)
Definition parseFlags : Proc unit :=
  f <- getFlags ;;
  when (is_empty (log_dir f))
       (emit (flag_Set "log_dir" (raftDir f)) ;;
        setFlags (set_log_dir (raftDir f))) ;;
  emit (glog_CopyStandardLogTo "INFO") ;;
  emit (log_Print (String.append "RobustIRC " (Version env))).

(** Whether the sentinel is an entry of the data directory: [os.Stat]
    returns an error when it is not, and may return one when it is. *)
Definition sentinel_present (w : World) : bool :=
  match datadir w with
  | None => false
  | Some l => existsb (String.eqb "deletestate") l
  end.

(** Lines 326-334: the deletestate sentinel.  The directory is wiped
    when [os.Stat] returned no error; [os.RemoveAll] takes peers.json
    with everything else in the directory. *)
Definition deleteState : Proc unit :=
  f <- getFlags ;;
  err <- call (os_Stat (Join (raftDir f) "deletestate")) ;;
  present <- (fun w => (Ok (sentinel_present w), w)) ;;
  when (present && negb err)
    (must (os_RemoveAll (raftDir f)) "RemoveAll" ;;
     setDatadir None ;;
     setPeersJson [] ;;
     must (os_Mkdir (raftDir f) 448) "Mkdir" ;;
     setDatadir (Some []) ;;
     emit (log_Print "Deleted raftdir because deletestate existed")).

(** Lines 336-342: databases of older versions.  Which entries
    [outputstream.DeleteOldDatabases] removes is the environment's
    [isOldDatabase]. *)
Definition deleteOldDatabases : Proc unit :=
  f <- getFlags ;;
  must (outputstream_DeleteOldDatabases (raftDir f))
       "Could not delete old outputstream databases" ;;
  d <- getDatadir ;;
  setDatadir match d with
             | None => None
             | Some l => Some (filter (fun n => negb (isOldDatabase env n)) l)
             end ;;
  err <- deleteOldCompactionDatabases (raftDir f) ;;
  when err
    (emit (log_Print "Could not delete old compaction databases (ignoring)")).

(** Lines 344-360: required flags and their fallbacks. *)
Definition checkFlags : Proc unit :=
  emit (log_Print "Initializing RobustIRC") ;;
  f <- getFlags ;;
  when (is_empty (networkPassword f))
       (emit (os_Getenv "ROBUSTIRC_NETWORK_PASSWORD") ;;
        setFlags (set_networkPassword
                    (getenv env "ROBUSTIRC_NETWORK_PASSWORD"))) ;;
  f <- getFlags ;;
  (if is_empty (networkPassword f)
   then log_Fatal "-network_password not set. You MUST protect your network."
   else ret tt) ;;
  (if is_empty (network f)
   then log_Fatal "-network_name not set, but required."
   else ret tt) ;;
  when (is_empty (peerAddr f))
       (emit (log_Print "-peer_addr not set, initializing to -listen") ;;
        setFlags (set_peerAddr (listen f))).

(** Lines 362-371: the IRC server, the transport, the peer store. *)
Definition newServer : Proc unit :=
  f <- getFlags ;;
  now <- (fun w => (Ok (time_Now env (trace w)), w)) ;;
  emit (ircserver_NewIRCServer (raftDir f) (network f) now) ;;
  emit (rafthttp_NewHTTPTransport (peerAddr f) (networkPassword f)) ;;
  emit (raft_NewJSONPeers (raftDir f)).

(** The Raft node has been created (line 456): from then on the Raft
    library, and the HTTP API of lines 482-492, write peers.json
    through the peer store they were given. *)
Definition raftRunning (t : list Call) : bool :=
  existsb (fun c => match c with raft_NewRaft _ => true | _ => false end) t.

(** What a read of peers.json finds. *)
Definition stored (w : World) : list string :=
  if raftRunning (trace w) then raft_peers env (trace w) (peers_json w)
  else peers_json w.

(** [peerStore.Peers()]: the list in peers.json, or an error. *)
Definition Peers : Proc (option (list string)) :=
  fun w =>
    (Ok (if fails env (trace w) peerStore_Peers then None
         else Some (stored w)),
     record peerStore_Peers w).

(** A file written into the directory is one of its entries. *)
Definition add_entry (name : string) (d : option (list string))
  : option (list string) :=
  match d with
  | None => Some [name]
  | Some l => Some (if existsb (String.eqb name) l then l else l ++ [name])
  end.

(** [peerStore.SetPeers(p)]: writes peers.json in the data directory;
    the caller drops the error, and a failed write leaves the file as
    it was. *)
Definition SetPeers (p : list string) : Proc unit :=
  fun w =>
    (Ok tt,
     if fails env (trace w) (peerStore_SetPeers p)
     then record (peerStore_SetPeers p) w
     else with_datadir (add_entry "peers.json" (datadir w))
            (with_peers_json p (record (peerStore_SetPeers p) w))).

Definition len {A} (l : list A) : Z := Z.of_nat (length l).

(** Lines 373-392: a node that neither joins nor bootstraps. *)
Definition checkPeers : Proc unit :=
  f <- getFlags ;;
  when (is_empty (join f) && negb (singleNode f))
    (r <- Peers ;;
     match r with
     | None => log_Fatal "Could not read peers"
     | Some peers =>
         if len peers =? 0 then
           when (negb (DisableTimesafeguard f))
             (log_Fatal "No peers known and -join not specified.")
         else
           when ((len peers =? 1)
                 && String.eqb (nth 0 peers "") (peerAddr f))
             (emit (time_Sleep (10 * Second)) ;;
              log_Fatal "Only known peer is myself") ;;
           must (timesafeguard_SynchronizedWithNetwork
                   (peerAddr f) peers (networkPassword f))
                "timesafeguard"
     end).

(** Lines 396-427: [raft.DefaultConfig()] with the fields [main] sets. *)
Definition raftConfig (f : Flags) : RaftConfig :=
  {| EnableSingleNode := singleNode f;
     StartAsLeader := singleNode f;
     SnapshotInterval := 300 * Second;
     MaxAppendEntries := 1024;
     LeaderLeaseTimeout := timesafeguard_ElectionTimeout env;
     HeartbeatTimeout := timesafeguard_ElectionTimeout env;
     ElectionTimeout := timesafeguard_ElectionTimeout env |}.

(** Lines 394-459: snapshot store, metrics, log stores, the Raft node. *)
Definition setupRaft : Proc unit :=
  f <- getFlags ;;
  let config := raftConfig f in
  must (raft_NewFileSnapshotStoreWithLogger (raftDir f) 5)
       "NewFileSnapshotStore" ;;
  must metrics_prometheus_NewPrometheusSink "NewPrometheusSink" ;;
  emit metrics_NewGlobal ;;
  let bootstrapping := singleNode f || negb (is_empty (join f)) in
  must (raft_store_NewLevelDBStore (Join (raftDir f) "raftlog") bootstrapping)
       "NewLevelDBStore" ;;
  must (raft_store_NewLevelDBStore (Join (raftDir f) "irclog") bootstrapping)
       "NewLevelDBStore" ;;
  must (raft_NewLogCache (MaxAppendEntries config)) "NewLogCache" ;;
  must (raft_NewRaft config) "NewRaft".

(** Lines 461-473: the canary dump ends [main] with a plain return. *)
Definition dumpCanary : Proc unit :=
  f <- getFlags ;;
  if negb (is_empty (dumpCanaryState f)) then
    emit (canary (dumpCanaryState f)) ;;
    when (negb (is_empty (dumpHeapProfile f)))
      (emit debug_FreeOSMemory ;;
       must (os_Create (dumpHeapProfile f)) "Create" ;;
       emit pprof_WriteHeapProfile) ;;
    os_Exit 0
  else ret tt.

(** Lines 475-518: the state counter, the HTTP API, the listener. *)
Definition serve : Proc unit :=
  f <- getFlags ;;
  emit go_secondsInState ;;
  emit (api_NewHTTP (network f) (networkPassword f) (raftDir f) (peerAddr f)) ;;
  must http2_ConfigureServer "ConfigureServer" ;;
  must (tlsutil_NewKeypairReloader (tlsCertPath f) (tlsKeyPath f))
       "NewKeypairReloader" ;;
  must (net_Listen (listen f)) "Listen" ;;
  emit (go_srv_Serve (listen f)) ;;
  emit (log_Print "RobustIRC listening").

(** ** joinMaster *)

(** [raft.PeerContained] and [raft.AddUniquePeer] of the Raft library. *)
Fixpoint PeerContained (peers : list string) (peer : string) : bool :=
  match peers with
  | [] => false
  | p :: rest => if String.eqb p peer then true else PeerContained rest peer
  end.

Definition AddUniquePeer (peers : list string) (peer : string)
  : list string :=
  if PeerContained peers peer then peers else peers ++ [peer].

(** [client.Do(req)]: an error, or the response. *)
Definition Do (url : string) : Proc (option Response) :=
  fun w =>
    (Ok (if fails env (trace w) (client_Do url) then None
         else Some (response env (trace w) url)),
     record (client_Do url) w).

Definition join_url (addr : string) : string :=
  String.append "https://" (String.append addr "/join").

(** The recursion follows redirects and has no bound of its own; [fuel]
    bounds the number of requests. *)
Fixpoint joinMaster (fuel : nat) (addr : string) : Proc (list string) :=
  match fuel with
  | O => fun w => (OutOfFuel, w)
  | S fuel' =>
      f <- getFlags ;;
      must (json_Marshal (peerAddr f)) "Could not marshal join request" ;;
      must (http_NewRequest "POST" (join_url addr)) "NewRequest" ;;
      r <- Do (join_url addr) ;;
      match r with
      | None => log_Fatal "Could not send join request"
      | Some res =>
          if StatusCode res >? 399 then
            log_Fatal (String.append "Join request failed:" (Body res))
          else if StatusCode res >? 299 then
            let loc := Location res in
            if is_empty loc then
              log_Fatal "Redirect has no Location header"
            else
              must (url_Parse loc) "Could not parse redirection" ;;
              joinMaster fuel' (url_Host env loc)
          else
            emit (log_Print "Adding master as peer") ;;
            r <- Peers ;;
            match r with
            | None => log_Fatal "Could not read peers"
            | Some p =>
                let p := AddUniquePeer p addr in
                SetPeers p ;;
                ret p
            end
      end
  end.

(** Lines 520-531: join the network when -join is given. *)
Definition joinNetwork (fuel : nat) : Proc unit :=
  f <- getFlags ;;
  p <- (if negb (is_empty (join f)) then
          must (timesafeguard_SynchronizedWithMasterAndNetwork
                  (peerAddr f) (join f) (networkPassword f))
               "timesafeguard" ;;
          joinMaster fuel (join f)
        else ret []) ;;
  when (len p >? 0) (emit (node_SetPeers p)).

(** ** The main loop *)

(** Modelled from the spec: [ircserver.ExpireSessions] is not part of
    robustirc.go.  It enumerates the sessions whose last activity is
    older than their TTL and builds a DeleteSession message for each. *)
Definition expired (now : Z) (s : SessionInfo) : bool :=
  TTL s <? now - LastActivity s.

Definition ExpireSessions (now : Z) (ss : list SessionInfo) : list Message :=
  map (fun s => mkMessage (sessionId s) DeleteSession "")
      (filter (expired now) ss).

Definition expireSessions : Proc (list Message) :=
  fun w =>
    (Ok (ExpireSessions (time_Now env (trace w)) (sessions env (trace w))),
     record ircServer_ExpireSessions w).

(** [node.State()] *)
Definition State : Proc RaftState :=
  fun w => (Ok (raftState env (trace w)), record node_State w).

(** The loop [for _, msg := range ircServer.ExpireSessions()]. *)
Fixpoint applyMessages (msgs : list Message) : Proc unit :=
  match msgs with
  | [] => ret tt
  | msg :: rest =>
      err <- call (api_ApplyMessageWait msg (10 * Second)) ;;
      when err (emit (log_Print "Apply()")) ;;
      applyMessages rest
  end.

(** The channel on which [select] receives. *)
Inductive Chan := secondTicker | expireSessionsTimer.

(** One iteration of [for { select { ... } }]. *)
Definition selectCase (c : Chan) : Proc unit :=
  match c with
  | secondTicker =>
      st <- State ;;
      if RaftState_eqb st Shutdown then
        log_Fatal "Node removed from the network (in raft state shutdown), terminating."
      else ret tt
  | expireSessionsTimer =>
      emit (time_After expireSessionsInterval) ;;
      st <- State ;;
      if negb (RaftState_eqb st Leader) then ret tt
      else
        msgs <- expireSessions ;;
        applyMessages msgs
  end.

(** The loop runs for ever; [sched] is the finite prefix of receives
    that is looked at. *)
Fixpoint loop (sched : list Chan) : Proc unit :=
  match sched with
  | [] => ret tt
  | c :: rest => selectCase c ;; loop rest
  end.

(** Lines 533-558. *)
Definition mainLoop (sched : list Chan) : Proc unit :=
  emit (time_After expireSessionsInterval) ;;
  emit (time_Tick (1 * Second)) ;;
  loop sched.

(** ** main *)

(** Lines 322-324: -version prints the version line only. *)
Definition versionFlag : Proc unit :=
  f <- getFlags ;;
  if version f then os_Exit 0 else ret tt.

(** Blocks run one after the other. *)
Fixpoint seq (blocks : list (Proc unit)) : Proc unit :=
  match blocks with
  | [] => ret tt
  | m :: rest => m ;; seq rest
  end.

(** Everything after the deletestate block. *)
Definition initialization (fuel : nat) (sched : list Chan)
  : list (Proc unit) :=
  [deleteOldDatabases; checkFlags; newServer; checkPeers; setupRaft;
   dumpCanary; serve; joinNetwork fuel; mainLoop sched].

(** [main] from line 312 on, in a world that holds the parsed flags. *)
Definition main (fuel : nat) (sched : list Chan) : Proc unit :=
  seq ([parseFlags; versionFlag; deleteState] ++ initialization fuel sched).

(** Line 310: [flag.Parse()] on the command line.  The flag set exits
    on an error: with code 2 when it rejects the command line, with
    code 0 when the command line asks for help with -h or -help; both
    after [flag.Usage], the function of lines 275-309. *)
Definition flag_Parse (cl : CommandLine) : Proc unit :=
  match cl with
  | Rejected => emit flag_Usage ;; os_Exit 2
  | Help => emit flag_Usage ;; os_Exit 0
  | Parsed f => setFlags (fun _ => f)
  end.

(** [main] from its first line, in a process started on a command
    line. *)
Definition process (fuel : nat) (sched : list Chan) (cl : CommandLine)
  : Proc unit :=
  flag_Parse cl ;; main fuel sched.

End Program.

(** The world in which a process starts: nothing called yet. *)
Definition start (f : Flags) (d : option (list string)) (p : list string)
  : World :=
  mkWorld f d p [].


(** * Collaborators that are not in robustirc.go *)

(** ** The snapshot store of the Raft library *)

(** The file snapshot store of the Raft library, as far as [main]
    depends on it: the snapshots live in the directory snapshots under
    the base directory, and when a snapshot has been written all but
    the [retain] newest are reaped. *)
Definition snapshotDir (base : string) : string := Join base "snapshots".

Definition persistSnapshot (retain : Z) (snapshots : list string)
    (name : string) : list string :=
  firstn (Z.to_nat retain) (name :: snapshots).


(** * The vocabulary of the statements *)

(** The world after the calls [ext], nothing else changed. *)
Definition extend (ext : list Call) (w : World) : World :=
  mkWorld (flags w) (datadir w) (peers_json w) (trace w ++ ext).

Arguments extend : simpl never.

(** The proposals in a trace: each [ApplyMessageWait] with its wait. *)
Definition proposals (t : list Call) : list (Message * Duration) :=
  flat_map (fun c => match c with
                     | api_ApplyMessageWait m d => [(m, d)]
                     | _ => []
                     end) t.

(** A proposal, or the log line of one that failed. *)
Definition isProposal (c : Call) : Prop :=
  match c with
  | api_ApplyMessageWait _ _ => True
  | log_Print msg => msg = "Apply()"
  | _ => False
  end.

(** The DeleteSession proposal for a session, as the loop makes it. *)
Definition proposal (s : SessionInfo) : Message * Duration :=
  (mkMessage (sessionId s) DeleteSession "", 10 * Second).

(** The world after the join request to [addr] has been sent. *)
Definition sent (addr : string) (w : World) : World :=
  extend [json_Marshal (peerAddr (flags w));
          http_NewRequest "POST" (join_url addr);
          client_Do (join_url addr)] w.

(** The join request to [addr], made in world [w], gets the response
    [res]: no step of the request returns an error. *)
Definition answered (env : Env) (addr : string) (w : World) (res : Response)
  : Prop :=
  let c1 := json_Marshal (peerAddr (flags w)) in
  let c2 := http_NewRequest "POST" (join_url addr) in
  let c3 := client_Do (join_url addr) in
  fails env (trace w) c1 = false /\
  fails env (trace w ++ [c1]) c2 = false /\
  fails env (trace w ++ [c1; c2]) c3 = false /\
  response env (trace w ++ [c1; c2]) (join_url addr) = res.

(** The blocks of [main] before the check of the flags of lines
    344-360, and from the peer check on. *)
Definition untilCheckFlags (env : Env) : list (Proc unit) :=
  [parseFlags env; versionFlag; deleteState env; deleteOldDatabases env].

Definition fromCheckPeers (env : Env) (fuel : nat) (sched : list Chan)
  : list (Proc unit) :=
  [checkPeers env; setupRaft env; dumpCanary env; serve env;
   joinNetwork env fuel; mainLoop env sched].

(** The blocks of [main] before the peer check of lines 373-392, and
    after it. *)
Definition untilCheckPeers (env : Env) : list (Proc unit) :=
  [parseFlags env; versionFlag; deleteState env; deleteOldDatabases env;
   checkFlags env; newServer env].

Definition afterCheckPeers (env : Env) (fuel : nat) (sched : list Chan)
  : list (Proc unit) :=
  [setupRaft env; dumpCanary env; serve env; joinNetwork env fuel;
   mainLoop env sched].

(** ** Pre- and postconditions *)

Section Triples.

(** Where the process may exit, with which code, and where it may run
    out of fuel. *)
Variable X : Z -> World -> Prop.
Variable F : World -> Prop.

Definition post {A} (R : A -> World -> Prop) (r : Result A) (w : World)
  : Prop :=
  match r with
  | Ok a => R a w
  | Exit c => X c w
  | OutOfFuel => F w
  end.

(** [triple P m R]: started in a world where [P] holds, [m] continues
    with a value and a world related by [R], or ends within [X], [F]. *)
Definition triple {A} (P : World -> Prop) (m : Proc A)
    (R : A -> World -> Prop) : Prop :=
  forall w, P w -> post R (fst (m w)) (snd (m w)).

(** [I] is kept as long as the process goes on. *)
Definition preserves {A} (I : World -> Prop) (m : Proc A) : Prop :=
  triple I m (fun _ w => I w).

End Triples.

(** [I] holds wherever the process stands: while it goes on and where
    it ends. *)
Definition invariant {A} (I : World -> Prop) (m : Proc A) : Prop :=
  preserves (fun _ => I) I I m.

(** The calls so far go on from [t0]. *)
Definition grows (t0 : list Call) (w : World) : Prop :=
  exists ext, trace w = t0 ++ ext.

(** ** The flags [main] does not assign *)

Definition same_flags (f g : Flags) : Prop :=
  raftDir f = raftDir g /\ listen f = listen g /\ version f = version g /\
  singleNode f = singleNode g /\ join f = join g /\
  dumpCanaryState f = dumpCanaryState g /\
  dumpHeapProfile f = dumpHeapProfile g /\
  canaryCompactionStart f = canaryCompactionStart g /\
  network f = network g /\ tlsCertPath f = tlsCertPath g /\
  tlsKeyPath f = tlsKeyPath g /\
  DisableTimesafeguard f = DisableTimesafeguard g.

Definition static (f0 : Flags) (w : World) : Prop := same_flags f0 (flags w).

(** ** What a run may call

    For a run of [main] from the world [w0]: the password the node ends
    up with, and the conditions under which some calls can be made at
    all. *)
Section Footprint.

Variable env : Env.
Variable w0 : World.

(** The cluster password after lines 346-348. *)
Definition password : string :=
  if is_empty (networkPassword (flags w0))
  then getenv env "ROBUSTIRC_NETWORK_PASSWORD"
  else networkPassword (flags w0).

Definition allowed (c : Call) : Prop :=
  match c with
  | os_RemoveAll p | os_Mkdir p _ =>
      sentinel_present w0 = true /\ p = raftDir (flags w0)
  | raft_NewFileSnapshotStoreWithLogger base retain =>
      base = raftDir (flags w0) /\ retain = 5
  | rafthttp_NewHTTPTransport _ pw
  | api_NewHTTP _ pw _ _
  | timesafeguard_SynchronizedWithNetwork _ _ pw
  | timesafeguard_SynchronizedWithMasterAndNetwork _ _ pw =>
      pw = password /\ password <> ""
  | raft_NewRaft _ | net_Listen _ | go_srv_Serve _ => password <> ""
  | _ => True
  end.

(** Up to the deletestate block, after it, and after [checkFlags]. *)
Definition at_start (w : World) : Prop :=
  static (flags w0) w /\
  networkPassword (flags w) = networkPassword (flags w0) /\
  datadir w = datadir w0 /\
  Forall allowed (trace w).

Definition at_wiped (w : World) : Prop :=
  static (flags w0) w /\
  networkPassword (flags w) = networkPassword (flags w0) /\
  Forall allowed (trace w).

Definition at_init (w : World) : Prop :=
  static (flags w0) w /\
  networkPassword (flags w) = password /\ password <> "" /\
  Forall allowed (trace w).

(** Where a run may exit, and with which code. *)
Definition exits (c : Z) (w : World) : Prop :=
  Forall allowed (trace w) /\
  (password = "" -> version (flags w0) = false -> c = 1).

End Footprint.


(** The password a call passes on, if it takes one. *)
Definition password_of (c : Call) : option string :=
  match c with
  | rafthttp_NewHTTPTransport _ pw
  | api_NewHTTP _ pw _ _
  | timesafeguard_SynchronizedWithNetwork _ _ pw
  | timesafeguard_SynchronizedWithMasterAndNetwork _ _ pw => Some pw
  | _ => None
  end.

(** The calls that bring up the Raft node and the HTTPS listener. *)
Definition serving (c : Call) : bool :=
  match c with
  | raft_NewRaft _ | api_NewHTTP _ _ _ _ | net_Listen _ | go_srv_Serve _ =>
      true
  | _ => false
  end.

(** ** The time safeguard *)

Definition isTimesafeguard (c : Call) : bool :=
  match c with
  | timesafeguard_SynchronizedWithNetwork _ _ _
  | timesafeguard_SynchronizedWithMasterAndNetwork _ _ _ => true
  | _ => false
  end.

(** The calls of [t] that follow its first time-safeguard check that
    returned an error, if there is one; [h] are the calls before [t]. *)
Fixpoint afterTimeSkew (env : Env) (h t : list Call) : option (list Call) :=
  match t with
  | [] => None
  | c :: rest =>
      if isTimesafeguard c && fails env h c then Some rest
      else afterTimeSkew env (h ++ [c]) rest
  end.

Section TimeSkew.

Variable env : Env.

(** As long as the process goes on no check has returned an error. *)
Definition synchronized (w : World) : Prop :=
  afterTimeSkew env [] (trace w) = None.

(** It exits either without such an error, or with code 1 and nothing
    but a log line after the check. *)
Definition aborted (c : Z) (w : World) : Prop :=
  match afterTimeSkew env [] (trace w) with
  | None => True
  | Some rest => c = 1 /\ exists msg, rest = [log_Print msg]
  end.

End TimeSkew.

(** ** The order of calls *)

(** The calls of a join request, and the creation of the Raft node. *)
Definition isJoinCall (c : Call) : bool :=
  match c with
  | json_Marshal _ | http_NewRequest _ _ | client_Do _ | url_Parse _
  | peerStore_SetPeers _ | node_SetPeers _ => true
  | _ => false
  end.

Definition isNewRaft (c : Call) : bool :=
  match c with
  | raft_NewRaft _ => true
  | _ => false
  end.

Definition isSynchronizedWithNetwork (c : Call) : bool :=
  match c with
  | timesafeguard_SynchronizedWithNetwork _ _ _ => true
  | _ => false
  end.

(** No call of [t] is in [A]. *)
Definition none (A : Call -> bool) (t : list Call) : Prop :=
  Forall (fun c => A c = false) t.

(** No call in [A] comes before a call in [B]. *)
Definition never_before (A B : Call -> bool) (t : list Call) : Prop :=
  forall pre c rest, t = pre ++ c :: rest -> B c = true -> none A pre.

Definition before (A : Call -> bool) (w : World) : Prop :=
  none A (trace w).

Definition ordered (A B : Call -> bool) (w : World) : Prop :=
  never_before A B (trace w).

(** * Test vectors *)

Definition flags0 : Flags :=
  mkFlags "/var/lib/robustirc" ":443" false false "" "" "" 0
          "robustirc.net" "n1:60667" "cert.pem" "key.pem" "secret" "" false.

(** An environment in which no call fails; it answers requests with
    [resp], and [node.State()] with [st]; nobody else writes
    peers.json. *)
Definition env_of (resp : string -> Response) (st : RaftState) : Env :=
  mkEnv "unknown" (fun _ _ => false) (fun _ => "") (fun _ => 0)
        (fun _ => false) (fun _ => resp)
        (fun loc => if String.eqb loc "https://b:443/join" then "b:443" else "")
        (fun _ => st) (fun _ => []) (2 * Second) (fun _ p => p).

Definition env0 : Env := env_of (fun _ => mkResponse 200 "" "") Follower.

(** Node a redirects to node b, which accepts. *)
Definition env_redirect : Env :=
  env_of (fun url => if String.eqb url "https://a:443/join"
                     then mkResponse 307 "https://b:443/join" ""
                     else mkResponse 200 "" "")
         Follower.

Definition world0 : World := start flags0 (Some ["raftlog"; "irclog"]) [].


(** The node is the leader, and of its three sessions two have been
    idle for longer than their TTL. *)
Definition env_leader : Env :=
  mkEnv "unknown" (fun _ _ => false) (fun _ => "") (fun _ => 100)
        (fun _ => false) (fun _ _ => mkResponse 200 "" "")
        (fun _ => "") (fun _ => Leader)
        (fun _ => [mkSessionInfo 7 10 50; mkSessionInfo 8 80 50;
                   mkSessionInfo 9 0 50])
        (2 * Second) (fun _ p => p).

(** [node.State()] answers Shutdown. *)
Definition env_shutdown : Env :=
  env_of (fun _ => mkResponse 200 "" "") Shutdown.

(** Every time-safeguard check returns an error, nothing else does. *)
Definition env_skew : Env :=
  mkEnv "unknown" (fun _ c => isTimesafeguard c) (fun _ => "") (fun _ => 0)
        (fun _ => false) (fun _ _ => mkResponse 200 "" "") (fun _ => "")
        (fun _ => Follower) (fun _ => []) (2 * Second) (fun _ p => p).

Definition flags_single : Flags :=
  mkFlags "/var/lib/robustirc" ":443" false true "" "" "" 0
          "robustirc.net" "n1:60667" "cert.pem" "key.pem" "secret" "" false.

Definition flags_nopw : Flags :=
  mkFlags "/var/lib/robustirc" ":443" false true "" "" "" 0
          "robustirc.net" "n1:60667" "cert.pem" "key.pem" "" "" false.

(** The cluster password is in the environment only. *)
Definition env_password : Env :=
  mkEnv "unknown" (fun _ _ => false)
        (fun key => if String.eqb key "ROBUSTIRC_NETWORK_PASSWORD"
                    then "from-env" else "")
        (fun _ => 0) (fun _ => false) (fun _ _ => mkResponse 200 "" "")
        (fun _ => "") (fun _ => Follower) (fun _ => []) (2 * Second)
        (fun _ p => p).

Definition world_single : World := start flags_single (Some ["raftlog"]) [].
Definition world_nopw : World := start flags_nopw (Some ["raftlog"]) [].
Definition world_sentinel : World :=
  start flags_single
        (Some ["deletestate"; "raftlog"; "irclog"; "peers.json"])
        ["n1:60667"; "n2:60667"].

(** peers.json names the master twice. *)
Definition world_twice : World :=
  start flags0 (Some ["raftlog"; "peers.json"]) ["m:443"; "m:443"].
Definition world_self : World :=
  start flags0 (Some ["raftlog"; "peers.json"]) ["n1:60667"].
Definition world_peers : World :=
  start flags0 (Some ["raftlog"; "peers.json"])
        ["n1:60667"; "n2:60667"; "n3:60667"].


(** * Clean-up of the data directory *)

(** The entries that [deleteOldCompactionDatabases] looks for. *)
Definition isCompactionDatabase (name : string) : bool :=
  String.prefix "permanent-compaction.sqlite3" name.

(** The directory after the entries [gone] have been removed. *)
Definition without (gone : list string) (d : option (list string))
  : option (list string) :=
  option_map (filter (fun n => negb (existsb (String.eqb n) gone))) d.

Definition removal (tmpdir name : string) : Call :=
  os_Remove (Join tmpdir name).

Definition world_compaction : World :=
  start flags0
        (Some ["raftlog"; "permanent-compaction.sqlite3";
               "irclog"; "permanent-compaction.sqlite3-wal"])
        [].

(** * The peer list of a join *)

(** A write of peers.json. *)
Definition isSetPeers (c : Call) : bool :=
  match c with
  | peerStore_SetPeers _ => true
  | _ => false
  end.

(** What [joinMaster] has done when it stands in [w'] with result [r],
    seen from the world [w0] it was entered in.  The request that was
    accepted went to [host]; the list that was read is what the peer
    store held when [Peers] was called. *)
Definition unwritten (w0 w' : World) : Prop :=
  exists ext, w' = extend ext w0 /\ none isSetPeers ext.

Definition joined (env : Env) (w0 : World)
    (r : Result (list string)) (w' : World) : Prop :=
  match r with
  | Ok p =>
      exists host pre,
        let asked := trace w0 ++ pre in
        let w1 := extend (pre ++ [client_Do (join_url host);
                                  log_Print "Adding master as peer"]) w0 in
        let w2 := extend [peerStore_Peers] w1 in
        none isSetPeers pre /\
        fails env asked (client_Do (join_url host)) = false /\
        StatusCode (response env asked (join_url host)) <= 299 /\
        fails env (trace w1) peerStore_Peers = false /\
        p = AddUniquePeer (stored env w1) host /\
        w' = (if fails env (trace w2) (peerStore_SetPeers p)
              then extend [peerStore_SetPeers p] w2
              else with_datadir (add_entry "peers.json" (datadir w0))
                     (with_peers_json p (extend [peerStore_SetPeers p] w2)))
  | Exit c => c = 1 /\ unwritten w0 w'
  | OutOfFuel => unwritten w0 w'
  end.

(** The last log line of a node that was removed from the network. *)
Definition removed : string :=
  "Node removed from the network (in raft state shutdown), terminating.".

(** * The modes of a run

    What a call tells about the flags of the run that made it. *)

(** The calls that come after the check of the required flags. *)
Definition afterFlags (c : Call) : bool :=
  match c with
  | flag_Usage
  | glog_CopyStandardLogTo _ | log_Print _ | flag_Set _ _ | os_Stat _
  | os_RemoveAll _ | os_Mkdir _ _ | outputstream_DeleteOldDatabases _
  | os_Open _ | Readdirnames _ | os_Remove _ | os_Getenv _ => false
  | _ => true
  end.

(** The calls of the canary dump. *)
Definition isCanary (c : Call) : bool :=
  match c with
  | canary _ | debug_FreeOSMemory | os_Create _ | pprof_WriteHeapProfile =>
      true
  | _ => false
  end.

(** The calls of a node that serves: everything after the canary block. *)
Definition afterCanary (c : Call) : bool :=
  match c with
  | go_secondsInState | api_NewHTTP _ _ _ _ | http2_ConfigureServer
  | tlsutil_NewKeypairReloader _ _ | net_Listen _ | go_srv_Serve _
  | timesafeguard_SynchronizedWithMasterAndNetwork _ _ _
  | json_Marshal _ | http_NewRequest _ _ | client_Do _ | url_Parse _
  | peerStore_SetPeers _ | node_SetPeers _ | node_State
  | time_After _ | time_Tick _ | ircServer_ExpireSessions
  | api_ApplyMessageWait _ _ => true
  | _ => false
  end.

(** The calls of lines 520-531. *)
Definition isJoining (c : Call) : bool :=
  match c with
  | timesafeguard_SynchronizedWithMasterAndNetwork _ _ _ => true
  | _ => isJoinCall c
  end.

(** The node's own address, if the call takes it. *)
Definition address_of (c : Call) : option string :=
  match c with
  | rafthttp_NewHTTPTransport a _
  | api_NewHTTP _ _ _ a
  | timesafeguard_SynchronizedWithNetwork a _ _
  | timesafeguard_SynchronizedWithMasterAndNetwork a _ _
  | json_Marshal a => Some a
  | _ => None
  end.

Section Modes.

Variable env : Env.
Variable w0 : World.

(** The peer address after lines 357-360. *)
Definition address : string :=
  if is_empty (peerAddr (flags w0)) then listen (flags w0)
  else peerAddr (flags w0).

(** Where the arguments of a call come from. *)
Definition arguments (c : Call) : Prop :=
  let f0 := flags w0 in
  match c with
  | flag_Set name value =>
      name = "log_dir" /\ value = raftDir f0 /\ log_dir f0 = ""
  | os_Stat p => p = Join (raftDir f0) "deletestate"
  | outputstream_DeleteOldDatabases d | os_Open d | Readdirnames d
  | raft_NewJSONPeers d => d = raftDir f0
  | os_Remove p =>
      exists name, p = Join (raftDir f0) name /\
                   isCompactionDatabase name = true
  | os_Getenv k => k = "ROBUSTIRC_NETWORK_PASSWORD" /\ networkPassword f0 = ""
  | ircserver_NewIRCServer dir nw _ => dir = raftDir f0 /\ nw = network f0
  | rafthttp_NewHTTPTransport a _ => a = address
  | timesafeguard_SynchronizedWithNetwork a peers _ =>
      a = address /\ peers = peers_json w0 /\
      join f0 = "" /\ singleNode f0 = false
  | timesafeguard_SynchronizedWithMasterAndNetwork a m _ =>
      a = address /\ m = join f0
  | raft_store_NewLevelDBStore p b =>
      (p = Join (raftDir f0) "raftlog" \/ p = Join (raftDir f0) "irclog") /\
      b = (singleNode f0 || negb (is_empty (join f0)))
  | raft_NewRaft config => config = raftConfig env f0
  | canary file => file = dumpCanaryState f0
  | os_Create p => p = dumpHeapProfile f0 /\ p <> ""
  | api_NewHTTP nw _ dir a =>
      nw = network f0 /\ dir = raftDir f0 /\ a = address
  | tlsutil_NewKeypairReloader cert key =>
      cert = tlsCertPath f0 /\ key = tlsKeyPath f0
  | net_Listen a | go_srv_Serve a => a = listen f0
  | json_Marshal a => a = address
  | http_NewRequest method _ => method = "POST"
  | api_ApplyMessageWait _ d => d = 10 * Second
  | _ => True
  end.

Definition permitted (c : Call) : Prop :=
  let f0 := flags w0 in
  (afterFlags c = true -> version f0 = false /\ network f0 <> "") /\
  (isCanary c = true -> dumpCanaryState f0 <> "") /\
  (afterCanary c = true -> dumpCanaryState f0 = "") /\
  (isJoining c = true -> join f0 <> "") /\
  arguments c.

(** Up to the peer check peers.json is as it was at the start, or
    empty after the data directory was wiped, and there is no Raft node
    that could write it. *)
Definition kept (w : World) : Prop :=
  (peers_json w = peers_json w0 \/
   peers_json w = [] /\ In (os_RemoveAll (raftDir (flags w0))) (trace w)) /\
  none isNewRaft (trace w).

(** The stages of a run: at its start, up to the version line, up to
    the check of the flags, up to the peer check, up to the canary
    block, and after it. *)
Definition st_begin (w : World) : Prop :=
  flags w = flags w0 /\ kept w /\
  Forall permitted (trace w).

Definition st_start (w : World) : Prop :=
  static (flags w0) w /\ kept w /\
  Forall permitted (trace w) /\
  peerAddr (flags w) = peerAddr (flags w0) /\
  networkPassword (flags w) = networkPassword (flags w0).

Definition st_run (w : World) : Prop :=
  st_start w /\ version (flags w0) = false.

Definition st_init (w : World) : Prop :=
  static (flags w0) w /\
  Forall permitted (trace w) /\
  peerAddr (flags w) = address /\
  version (flags w0) = false /\ network (flags w0) <> "".

Definition st_check (w : World) : Prop :=
  st_init w /\ kept w.

Definition st_serving (w : World) : Prop :=
  static (flags w0) w /\
  Forall permitted (trace w) /\
  peerAddr (flags w) = address /\
  version (flags w0) = false /\ network (flags w0) <> "" /\
  dumpCanaryState (flags w0) = "".

(** Where a run may exit, and with which code. *)
Definition ends (c : Z) (w : World) : Prop :=
  Forall permitted (trace w) /\
  (c = 1 \/
   c = 0 /\ (version (flags w0) = true \/
             In (canary (dumpCanaryState (flags w0))) (trace w))).

End Modes.

(** * What has to come first *)

(** Some call of [t] in [A] has returned no error. *)
Definition passed (env : Env) (A : Call -> bool) (t : list Call) : Prop :=
  exists pre c rest,
    t = pre ++ c :: rest /\ A c = true /\ fails env pre c = false.

(** The server has been started on the listener. *)
Definition served (t : list Call) : Prop :=
  exists a, In (go_srv_Serve a) t.

(** Every call of [t] in [B] comes after calls for which [Q] holds. *)
Definition only_after (Q : list Call -> Prop) (B : Call -> bool)
    (t : list Call) : Prop :=
  forall pre c rest, t = pre ++ c :: rest -> B c = true -> Q pre.

Definition following (Q : list Call -> Prop) (B : Call -> bool) (w : World)
  : Prop :=
  only_after Q B (trace w).

Definition tracking (Q : list Call -> Prop) (B : Call -> bool) (w : World)
  : Prop :=
  only_after Q B (trace w) /\ Q (trace w).

Definition isMasterCheck (c : Call) : bool :=
  match c with
  | timesafeguard_SynchronizedWithMasterAndNetwork _ _ _ => true
  | _ => false
  end.

Definition isTick (c : Call) : bool :=
  match c with
  | time_Tick _ => true
  | _ => false
  end.

(** The node has no stored peers: peers.json was empty at the start, or
    the data directory has been wiped. *)
Definition peerless (w0 : World) (t : list Call) : Prop :=
  peers_json w0 = [] \/ In (os_RemoveAll (raftDir (flags w0))) t.

(** The node may take part in the network: it is the single node, or
    it has no peers and the time safeguard is disabled, or a
    time-safeguard check has passed. *)
Definition guarded (env : Env) (w0 : World) (t : list Call) : Prop :=
  singleNode (flags w0) = true \/
  (join (flags w0) = "" /\ DisableTimesafeguard (flags w0) = true /\
   peerless w0 t) \/
  passed env isTimesafeguard t.

(** Between the peer check and the join. *)
Definition checked (env : Env) (w0 : World) (w : World) : Prop :=
  before isTick w /\ (join (flags w0) = "" -> guarded env w0 (trace w)).

(** * More test vectors *)

Definition flags_version : Flags :=
  mkFlags "/var/lib/robustirc" ":443" true false "" "" "" 0
          "" "" "cert.pem" "key.pem" "" "" false.

Definition flags_canary : Flags :=
  mkFlags "/var/lib/robustirc" ":443" false false "" "canary.json" "" 0
          "robustirc.net" "" "cert.pem" "key.pem" "secret" "" true.

Definition flags_noname : Flags :=
  mkFlags "/var/lib/robustirc" ":443" false true "" "" "" 0
          "" "n1:60667" "cert.pem" "key.pem" "secret" "" false.

Definition flags_join : Flags :=
  mkFlags "/var/lib/robustirc" ":443" false false "m:443" "" "" 0
          "robustirc.net" "" "cert.pem" "key.pem" "secret" "" false.

Definition world_version : World :=
  start flags_version (Some ["deletestate"; "raftlog"]) [].
Definition world_canary : World := start flags_canary (Some ["raftlog"]) [].
Definition world_noname : World := start flags_noname (Some ["raftlog"]) [].
Definition world_join : World := start flags_join (Some []) [].

(** * gentmpl.go: canBackquote

    gentmpl.go writes the HTML templates of the status pages into a Go
    source file; a template becomes a raw string literal when
    [canBackquote] allows it. *)

(** A Go string is a sequence of bytes; [val] is the value of a byte. *)
Definition val (b : ascii) : Z := Z.of_N (N_of_ascii b).

Arguments val : simpl never.

(** [s[i]], for an index the caller has checked. *)
Definition byteAt (s : list ascii) (i : nat) : Z := val (nth i s Ascii.zero).

(** An int32 after a shift: the low 32 bits, read as signed. *)
Definition int32 (z : Z) : Z := (z + 2147483648) mod 4294967296 - 2147483648.

(** ** Package unicode/utf8 of the Go library, as far as [canBackquote]
    calls it: the decoder of utf8.go with its tables. *)
Module utf8.

Definition RuneError : Z := 65533.
Definition maskx : Z := 63.
Definition mask2 : Z := 31.
Definition mask3 : Z := 15.
Definition mask4 : Z := 7.
Definition locb : Z := 128.
Definition hicb : Z := 191.

(** The entries of the table [first]: invalid, ASCII, and for a lead
    byte the size in the low bits and the accept range in the high. *)
Definition xx : Z := 241.
Definition as_ : Z := 240.
Definition s1 : Z := 2.
Definition s2 : Z := 19.
Definition s3 : Z := 3.
Definition s4 : Z := 35.
Definition s5 : Z := 52.
Definition s6 : Z := 4.
Definition s7 : Z := 68.

(** The table [first], by the ranges of its index. *)
Definition first (b : Z) : Z :=
  if b <? 128 then as_
  else if b <? 194 then xx
  else if b <? 224 then s1
  else if b =? 224 then s2
  else if b <? 237 then s3
  else if b =? 237 then s4
  else if b <? 240 then s3
  else if b =? 240 then s5
  else if b <? 244 then s6
  else if b =? 244 then s7
  else xx.

(** The table [acceptRanges]: the bounds of the second byte. *)
Definition acceptRanges (i : Z) : Z * Z :=
  match i with
  | 0 => (locb, hicb)
  | 1 => (160, hicb)
  | 2 => (locb, 159)
  | 3 => (144, hicb)
  | 4 => (locb, 143)
  | _ => (0, 0)
  end.

(** [utf8.DecodeRuneInString]: the rune and its width in bytes. *)
Definition DecodeRuneInString (s : list ascii) : Z * Z :=
  let n := Z.of_nat (length s) in
  if n <? 1 then (RuneError, 0)
  else
    let s0 := byteAt s 0 in
    let x := first s0 in
    if x >=? as_ then
      let mask := Z.shiftr (int32 (Z.shiftl x 31)) 31 in
      (Z.lor (Z.land s0 (Z.lnot mask)) (Z.land RuneError mask), 1)
    else
      let sz := Z.land x 7 in
      let accept := acceptRanges (Z.shiftr x 4) in
      if n <? sz then (RuneError, 1)
      else
        let s1 := byteAt s 1 in
        if (s1 <? fst accept) || (snd accept <? s1) then (RuneError, 1)
        else if sz <=? 2 then
          (Z.lor (Z.shiftl (Z.land s0 mask2) 6) (Z.land s1 maskx), 2)
        else
          let s2 := byteAt s 2 in
          if (s2 <? locb) || (hicb <? s2) then (RuneError, 1)
          else if sz <=? 3 then
            (Z.lor (Z.lor (Z.shiftl (Z.land s0 mask3) 12)
                          (Z.shiftl (Z.land s1 maskx) 6))
                   (Z.land s2 maskx), 3)
          else
            let s3 := byteAt s 3 in
            if (s3 <? locb) || (hicb <? s3) then (RuneError, 1)
            else
              (Z.lor (Z.lor (Z.lor (Z.shiftl (Z.land s0 mask4) 18)
                                   (Z.shiftl (Z.land s1 maskx) 12))
                            (Z.shiftl (Z.land s2 maskx) 6))
                     (Z.land s3 maskx), 4).

End utf8.

(** ** canBackquote *)

(** The loop [for len(s) > 0]; every round drops at least one byte, so
    [length s] rounds are enough. *)
Fixpoint canBackquote_loop (fuel : nat) (s : list ascii) : option bool :=
  match s with
  | [] => Some true
  | _ :: _ =>
      match fuel with
      | O => None
      | S fuel' =>
          let (r, wid) := utf8.DecodeRuneInString s in
          let s' := skipn (Z.to_nat wid) s in
          if wid >? 1 then
            if r =? 65279 then Some false
            else canBackquote_loop fuel' s'
          else if r =? utf8.RuneError then Some false
          else if ((r <? 32) && negb (r =? 9) && negb (r =? 10))
                  || (r =? 96) || (r =? 127)
          then Some false
          else canBackquote_loop fuel' s'
      end
  end.

Definition canBackquote (s : list ascii) : bool :=
  match canBackquote_loop (length s) s with
  | Some b => b
  | None => false
  end.

Definition bytes (s : string) : list ascii := list_ascii_of_string s.

(** ** Well-formed UTF-8

    The byte ranges of well-formed sequences (Unicode, table 3-7) and
    the runes they stand for. *)

Definition cont (v : Z) : Prop := 128 <= v <= 191.

Definition three_ok (v0 v1 : Z) : Prop :=
  (v0 = 224 /\ 160 <= v1 <= 191) \/
  (225 <= v0 <= 236 /\ cont v1) \/
  (v0 = 237 /\ 128 <= v1 <= 159) \/
  (238 <= v0 <= 239 /\ cont v1).

Definition four_ok (v0 v1 : Z) : Prop :=
  (v0 = 240 /\ 144 <= v1 <= 191) \/
  (241 <= v0 <= 243 /\ cont v1) \/
  (v0 = 244 /\ 128 <= v1 <= 143).

Definition rune2 (v0 v1 : Z) : Z :=
  Z.lor (Z.shiftl (Z.land v0 utf8.mask2) 6) (Z.land v1 utf8.maskx).
Definition rune3 (v0 v1 v2 : Z) : Z :=
  Z.lor (Z.lor (Z.shiftl (Z.land v0 utf8.mask3) 12) (Z.shiftl (Z.land v1 utf8.maskx) 6))
        (Z.land v2 utf8.maskx).
Definition rune4 (v0 v1 v2 v3 : Z) : Z :=
  Z.lor (Z.lor (Z.lor (Z.shiftl (Z.land v0 utf8.mask4) 18)
                      (Z.shiftl (Z.land v1 utf8.maskx) 12))
               (Z.shiftl (Z.land v2 utf8.maskx) 6))
        (Z.land v3 utf8.maskx).

(** [DecodeRuneInString] after the table look-ups. *)
Definition decode_tail (sz lo hi : Z) (s : list ascii) : Z * Z :=
  let n := Z.of_nat (length s) in
  let s0 := byteAt s 0 in
  if n <? sz then (utf8.RuneError, 1)
  else
    let s1 := byteAt s 1 in
    if (s1 <? lo) || (hi <? s1) then (utf8.RuneError, 1)
    else if sz <=? 2 then (rune2 s0 s1, 2)
    else
      let s2 := byteAt s 2 in
      if (s2 <? utf8.locb) || (utf8.hicb <? s2) then (utf8.RuneError, 1)
      else if sz <=? 3 then (rune3 s0 s1 s2, 3)
      else
        let s3 := byteAt s 3 in
        if (s3 <? utf8.locb) || (utf8.hicb <? s3) then (utf8.RuneError, 1)
        else (rune4 s0 s1 s2 s3, 4).

(** What [DecodeRuneInString] returns on a string that is not empty. *)
Inductive decode_shape : list ascii -> Z * Z -> Prop :=
| shape_ascii b0 rest :
    val b0 < 128 -> decode_shape (b0 :: rest) (val b0, 1)
| shape_error s : decode_shape s (utf8.RuneError, 1)
| shape_two b0 b1 rest :
    194 <= val b0 <= 223 -> cont (val b1) ->
    decode_shape (b0 :: b1 :: rest) (rune2 (val b0) (val b1), 2)
| shape_three b0 b1 b2 rest :
    three_ok (val b0) (val b1) -> cont (val b2) ->
    decode_shape (b0 :: b1 :: b2 :: rest)
                 (rune3 (val b0) (val b1) (val b2), 3)
| shape_four b0 b1 b2 b3 rest :
    four_ok (val b0) (val b1) -> cont (val b2) -> cont (val b3) ->
    decode_shape (b0 :: b1 :: b2 :: b3 :: rest)
                 (rune4 (val b0) (val b1) (val b2) (val b3), 4).

(** A byte that may stand in a raw string literal by itself. *)
Definition plain (v : Z) : Prop :=
  v < 128 /\ v <> 96 /\ v <> 127 /\ (32 <= v \/ v = 9 \/ v = 10).

(** Well-formed UTF-8 (the byte ranges of the Unicode standard) with
    neither a byte order mark nor a byte that is not [plain]. *)
Inductive backquotable : list ascii -> Prop :=
| bq_nil : backquotable []
| bq_plain b0 s :
    plain (val b0) -> backquotable s -> backquotable (b0 :: s)
| bq_two b0 b1 s :
    194 <= val b0 <= 223 -> cont (val b1) ->
    backquotable s -> backquotable (b0 :: b1 :: s)
| bq_three b0 b1 b2 s :
    three_ok (val b0) (val b1) -> cont (val b2) ->
    ~ (val b0 = 239 /\ val b1 = 187 /\ val b2 = 191) ->
    backquotable s -> backquotable (b0 :: b1 :: b2 :: s)
| bq_four b0 b1 b2 b3 s :
    four_ok (val b0) (val b1) -> cont (val b2) -> cont (val b3) ->
    backquotable s -> backquotable (b0 :: b1 :: b2 :: b3 :: s).

(** The bytes of the byte order mark U+FEFF. *)
Definition BOM : list ascii :=
  [ascii_of_nat 239; ascii_of_nat 187; ascii_of_nat 191].


(** * Reasoning about processes *)

Lemma bind_assoc {A B C} (m : Proc A) (k : A -> Proc B) (h : B -> Proc C) w :
  bind (bind m k) h w = bind m (fun a => bind (k a) h) w.
Proof.
  unfold bind. destruct (m w) as [[a|c|] w1]; reflexivity.
Qed.

Lemma bind_ext {A B} (m : Proc A) (k k' : A -> Proc B) w :
  (forall a w1, k a w1 = k' a w1) -> bind m k w = bind m k' w.
Proof.
  intros H. unfold bind. destruct (m w) as [[a|c|] w1]; auto.
Qed.

Lemma seq_app a b w : seq (a ++ b) w = bind (seq a) (fun _ => seq b) w.
Proof.
  revert w. induction a as [|m a IH]; intros w.
  - reflexivity.
  - cbn [app seq]. rewrite bind_assoc. apply bind_ext. intros _ w1. apply IH.
Qed.

Lemma bind_Ok {A B} (m : Proc A) (k : A -> Proc B) w a w1 :
  m w = (Ok a, w1) -> bind m k w = k a w1.
Proof. intros H. unfold bind. rewrite H. reflexivity. Qed.

Lemma bind_Exit {A B} (m : Proc A) (k : A -> Proc B) w c w1 :
  m w = (Exit c, w1) -> bind m k w = (Exit c, w1).
Proof. intros H. unfold bind. rewrite H. reflexivity. Qed.

(** Unfold the primitives of the monad in the goal. *)
Ltac run :=
  unfold must, log_Fatal, call, emit, os_Exit, when, ret, bind,
    getFlags, setFlags, getDatadir, setDatadir, setPeersJson,
    Peers, SetPeers, Do, State, expireSessions; cbv beta iota.

Lemma is_empty_true s : is_empty s = true <-> s = "".
Proof. unfold is_empty. apply String.eqb_eq. Qed.

Lemma is_empty_false s : is_empty s = false <-> s <> "".
Proof. unfold is_empty. apply String.eqb_neq. Qed.

Lemma trace_record c w : trace (record c w) = trace w ++ [c].
Proof. reflexivity. Qed.

Lemma flags_record c w : flags (record c w) = flags w.
Proof. reflexivity. Qed.

Lemma datadir_record c w : datadir (record c w) = datadir w.
Proof. reflexivity. Qed.

Lemma peers_json_record c w : peers_json (record c w) = peers_json w.
Proof. reflexivity. Qed.

Lemma trace_extend ext w : trace (extend ext w) = trace w ++ ext.
Proof. reflexivity. Qed.

Lemma flags_extend ext w : flags (extend ext w) = flags w.
Proof. reflexivity. Qed.

Lemma datadir_extend ext w : datadir (extend ext w) = datadir w.
Proof. reflexivity. Qed.

Lemma peers_json_extend ext w : peers_json (extend ext w) = peers_json w.
Proof. reflexivity. Qed.

Create Rewrite HintDb world.
#[local] Hint Rewrite trace_record flags_record datadir_record
  peers_json_record trace_extend flags_extend datadir_extend
  peers_json_extend : world.

Lemma trace_with_flags f w : trace (with_flags f w) = trace w.
Proof. reflexivity. Qed.
Lemma trace_with_datadir d w : trace (with_datadir d w) = trace w.
Proof. reflexivity. Qed.
Lemma trace_with_peers_json p w : trace (with_peers_json p w) = trace w.
Proof. reflexivity. Qed.
Lemma flags_with_flags f w : flags (with_flags f w) = f.
Proof. reflexivity. Qed.
Lemma flags_with_datadir d w : flags (with_datadir d w) = flags w.
Proof. reflexivity. Qed.
Lemma flags_with_peers_json p w : flags (with_peers_json p w) = flags w.
Proof. reflexivity. Qed.
Lemma datadir_with_flags f w : datadir (with_flags f w) = datadir w.
Proof. reflexivity. Qed.
Lemma datadir_with_datadir d w : datadir (with_datadir d w) = d.
Proof. reflexivity. Qed.
Lemma datadir_with_peers_json p w :
  datadir (with_peers_json p w) = datadir w.
Proof. reflexivity. Qed.

#[local] Hint Rewrite trace_with_flags trace_with_datadir
  trace_with_peers_json flags_with_flags flags_with_datadir
  flags_with_peers_json datadir_with_flags datadir_with_datadir
  datadir_with_peers_json : world.

Lemma extend_nil w : extend [] w = w.
Proof. destruct w. unfold extend. simpl. rewrite app_nil_r. reflexivity. Qed.

Lemma extend_record c ext w : extend ext (record c w) = extend (c :: ext) w.
Proof. unfold extend, record. simpl. rewrite <- app_assoc. reflexivity. Qed.

Lemma extend_extend e1 e2 w : extend e2 (extend e1 w) = extend (e1 ++ e2) w.
Proof. unfold extend. simpl. rewrite <- app_assoc. reflexivity. Qed.

Lemma record_extend c w : record c w = extend [c] w.
Proof. reflexivity. Qed.

(** Write a world as the calls made since an earlier one. *)
Ltac worlds :=
  repeat rewrite record_extend; repeat rewrite extend_extend; cbn [app].

(** Two worlds that differ in how they are written. *)
Ltac same_world :=
  unfold extend, record, with_datadir, with_flags, with_peers_json;
  cbn [flags datadir peers_json trace];
  rewrite <- ?app_assoc; cbn [app]; reflexivity.

(** ** The main loop *)

Lemma applyMessages_proposes env msgs : forall w,
  exists ext,
    applyMessages env msgs w = (Ok tt, extend ext w) /\
    proposals ext = map (fun m => (m, 10 * Second)) msgs /\
    Forall isProposal ext.
Proof.
  induction msgs as [|m rest IH]; intros w.
  - exists []. rewrite extend_nil. repeat split. constructor.
  - cbn [applyMessages]. run.
    destruct (fails env (trace w) _);
      match goal with
      | |- context [applyMessages env rest ?w'] =>
          destruct (IH w') as [ext [E [P A]]]; rewrite E
      end; rewrite !extend_record; eexists; (split; [reflexivity|]);
      (split; [cbn [proposals flat_map app map]; f_equal; exact P|]);
      repeat (apply Forall_cons; [exact I || reflexivity|]); exact A.
Qed.

Lemma loop_app env a b w :
  loop env (a ++ b) w = bind (loop env a) (fun _ => loop env b) w.
Proof.
  revert w. induction a as [|c a IH]; intros w.
  - reflexivity.
  - cbn [app loop]. rewrite bind_assoc. apply bind_ext. intros _ w1. apply IH.
Qed.

(** What the loop does at a receive from the expiry timer. *)
Lemma selectCase_expires env w :
  let h := trace w ++ [time_After (10 * Second)] in
  exists ext,
    selectCase env expireSessionsTimer w
      = (Ok tt, extend (time_After (10 * Second) :: node_State :: ext) w) /\
    match raftState env h with
    | Leader =>
        exists calls,
          ext = ircServer_ExpireSessions :: calls /\
          proposals calls =
            map (fun m => (m, 10 * Second))
                (ExpireSessions (time_Now env (h ++ [node_State]))
                                (sessions env (h ++ [node_State]))) /\
          Forall isProposal calls
    | _ => ext = []
    end.
Proof.
  intros h. subst h. cbn [selectCase]. run.
  change expireSessionsInterval with (10 * Second).
  rewrite !trace_record.
  destruct (raftState env (trace w ++ [time_After (10 * Second)])) eqn:St;
    cbn [RaftState_eqb negb]; cbv beta;
    try (exists []; split; [(worlds; reflexivity) | reflexivity]).
  rewrite !trace_record.
  match goal with
  | |- context [applyMessages env ?ms ?w2] =>
      destruct (applyMessages_proposes env ms w2) as [ext [E [P A]]]
  end.
  exists (ircServer_ExpireSessions :: ext).
  rewrite E. split; [(worlds; reflexivity)|].
  exists ext. repeat split; assumption.
Qed.

(** The loop only adds to the calls made. *)
Lemma loop_grows env sched : forall w,
  grows (trace w) (snd (loop env sched w)).
Proof.
  induction sched as [|c rest IH]; intros w; cbn [loop].
  - exists []. symmetry. apply app_nil_r.
  - unfold bind.
    assert (G : grows (trace w) (snd (selectCase env c w))).
    { destruct c.
      - cbn [selectCase]. run. unfold grows.
        destruct (RaftState_eqb _ _); cbn [snd]; autorewrite with world;
          rewrite <- ?app_assoc; eexists; reflexivity.
      - destruct (selectCase_expires env w) as (ext & E & _).
        rewrite E. cbn [snd]. eexists. apply trace_extend. }
    destruct (selectCase env c w) as [[[]|code|] w1]; cbn [snd] in *;
      try exact G.
    destruct G as [e1 E1]. destruct (IH w1) as [e2 E2].
    exists (e1 ++ e2). rewrite E2, E1, app_assoc. reflexivity.
Qed.

(** C2: the expiry timer is armed with 10 s when the main loop starts,
    and armed again with 10 s at every receive from it.  At such a
    receive, whatever the loop has handled before, the node asks for
    its Raft state; when it is not Leader it proposes nothing and
    goes on with the next receive; when it is Leader it proposes,
    each through [ApplyMessageWait] with a 10 s wait and nothing else
    but the log line of a failed proposal in between, one
    DeleteSession message for every session whose last activity is
    older than its TTL, in order, and then goes on with the next
    receive. *)
Theorem expire_tick_proposes
    (env : Env) (pre rest : list Chan) (w w1 : World) :
  mainLoop env pre w = (Ok tt, w1) ->
  expireSessionsInterval = 10 * 1000000000 /\
  (exists t,
     trace w1 = trace w ++ time_After (10 * Second)
                        :: time_Tick (1 * Second) :: t) /\
  let h := trace w1 ++ [time_After (10 * Second)] in
  let now := time_Now env (h ++ [node_State]) in
  exists ext,
    mainLoop env (pre ++ expireSessionsTimer :: rest) w
      = loop env rest
             (extend (time_After (10 * Second) :: node_State :: ext) w1) /\
    match raftState env h with
    | Leader =>
        exists calls,
          ext = ircServer_ExpireSessions :: calls /\
          proposals calls =
            map proposal
                (filter (fun s => TTL s <? now - LastActivity s)
                        (sessions env (h ++ [node_State]))) /\
          Forall isProposal calls
    | _ => ext = []
    end.
Proof.
  intros Hpre. split; [reflexivity|]. split.
  - unfold mainLoop in Hpre. revert Hpre. run. intros Hpre.
    match type of Hpre with
    | loop env pre ?w0 = _ =>
        destruct (loop_grows env pre w0) as [t Ht]
    end.
    rewrite Hpre in Ht. cbn [snd] in Ht. autorewrite with world in Ht.
    rewrite <- !app_assoc in Ht. cbn [app] in Ht.
    exists t. exact Ht.
  - intros h now. subst h now.
    destruct (selectCase_expires env w1) as (ext & E & M).
    exists ext. split.
    + unfold mainLoop in *. revert Hpre. run. intros Hpre.
      rewrite loop_app. unfold bind at 1. rewrite Hpre.
      cbn [loop]. unfold bind at 1. rewrite E. reflexivity.
    + cbv zeta in M.
      destruct (raftState env (trace w1 ++ [time_After (10 * Second)]));
        try exact M.
      destruct M as (calls & Ec & P & A).
      exists calls. repeat split; try assumption.
      rewrite P. unfold ExpireSessions. rewrite map_map. reflexivity.
Qed.

(** C6: when the one-second tick of the main loop finds the node in
    Raft state Shutdown, the process logs the removal and exits with
    code 1; whatever receives would have followed are never handled. *)
Theorem shutdown_is_fatal (env : Env) (pre rest : list Chan) (w w1 : World) :
  mainLoop env pre w = (Ok tt, w1) ->
  raftState env (trace w1) = Shutdown ->
  mainLoop env (pre ++ secondTicker :: rest) w
    = (Exit 1,
       extend [node_State;
               log_Print "Node removed from the network (in raft state shutdown), terminating."]
              w1)
  /\ 1 <> 0.
Proof.
  intros Hpre Hst. split; [|discriminate].
  unfold mainLoop in *. revert Hpre. run. intros Hpre.
  rewrite loop_app. unfold bind at 1. rewrite Hpre.
  cbn [loop selectCase]. run. rewrite Hst. cbn [RaftState_eqb].
  (worlds; reflexivity).
Qed.

(** ** joinMaster *)

Lemma PeerContained_In peers peer :
  PeerContained peers peer = true <-> In peer peers.
Proof.
  induction peers as [|p rest IH]; cbn [PeerContained In].
  - split; [discriminate | tauto].
  - destruct (String.eqb_spec p peer) as [E|N].
    + split; auto.
    + rewrite IH. split; [auto | intros [E|H]; [contradiction | exact H]].
Qed.

Lemma AddUniquePeer_In peers peer : In peer (AddUniquePeer peers peer).
Proof.
  unfold AddUniquePeer. destruct (PeerContained peers peer) eqn:C.
  - apply PeerContained_In. exact C.
  - apply in_or_app. right. left. reflexivity.
Qed.

Lemma AddUniquePeer_NoDup peers peer :
  NoDup peers -> NoDup (AddUniquePeer peers peer).
Proof.
  intros ND. unfold AddUniquePeer. destruct (PeerContained peers peer) eqn:C.
  - exact ND.
  - apply NoDup_app; [exact ND | constructor; [intros [] | constructor] |].
    intros a Ha [E|[]]. subst a.
    apply PeerContained_In in Ha. congruence.
Qed.

Lemma AddUniquePeer_once peers peer :
  (count_occ string_dec peers peer <= 1)%nat ->
  count_occ string_dec (AddUniquePeer peers peer) peer = 1%nat.
Proof.
  intros Hle. unfold AddUniquePeer.
  destruct (PeerContained peers peer) eqn:C.
  - apply PeerContained_In in C.
    apply (count_occ_In string_dec) in C. lia.
  - assert (N : ~ In peer peers).
    { intros HI. apply PeerContained_In in HI. congruence. }
    apply (count_occ_not_In string_dec) in N.
    rewrite count_occ_app, N. cbn [count_occ].
    destruct (string_dec peer peer); [reflexivity | contradiction].
Qed.

(** Bring the traces in the goal to the form [trace w ++ calls]. *)
Ltac traces :=
  autorewrite with world; rewrite <- ?app_assoc; cbn [app].

(** The body of [joinMaster] once the response is there. *)
Lemma joinMaster_answered env n addr w res :
  answered env addr w res ->
  joinMaster env (S n) addr w =
  (if StatusCode res >? 399 then
     log_Fatal (String.append "Join request failed:" (Body res))
   else if StatusCode res >? 299 then
     if is_empty (Location res) then
       log_Fatal "Redirect has no Location header"
     else
       must env (url_Parse (Location res)) "Could not parse redirection" ;;
       joinMaster env n (url_Host env (Location res))
   else
     emit (log_Print "Adding master as peer") ;;
     r <- Peers env ;;
     match r with
     | None => log_Fatal "Could not read peers"
     | Some p =>
         SetPeers env (AddUniquePeer p addr) ;;
         ret (AddUniquePeer p addr)
     end) (sent addr w).
Proof.
  intros (H1 & H2 & H3 & H4). unfold sent.
  cbn [joinMaster]. unfold bind at 1. unfold getFlags at 1. cbv beta iota.
  unfold bind at 1. unfold must at 1. unfold bind at 1, call at 1.
  cbv beta iota. rewrite H1. unfold ret at 1. cbv beta iota.
  unfold bind at 1. unfold must at 1. unfold bind at 1, call at 1.
  cbv beta iota. traces. rewrite H2. unfold ret at 1. cbv beta iota.
  unfold bind at 1. unfold Do at 1. cbv beta iota. traces.
  rewrite H3, H4. worlds. reflexivity.
Qed.

(** One request either settles the join, and then the fuel beyond it
    does not matter, or is a redirect that every fuel follows. *)
Lemma joinMaster_one env addr w :
  (forall n, joinMaster env (S n) addr w = joinMaster env 1 addr w) \/
  (exists host w1, forall n,
      joinMaster env (S n) addr w = joinMaster env n host w1).
Proof.
  cbn [joinMaster]. run.
  repeat match goal with
         | |- context [if ?b then _ else _] => destruct b
         end;
    try (left; intros n; reflexivity).
  right. do 2 eexists. intros n. reflexivity.
Qed.

(** More fuel does not change a result that was reached. *)
Lemma joinMaster_fuel env n : forall addr w r w',
  joinMaster env n addr w = (r, w') -> r <> OutOfFuel ->
  joinMaster env (S n) addr w = (r, w').
Proof.
  induction n as [|n IH]; intros addr w r w' H Hr.
  - cbn in H. congruence.
  - destruct (joinMaster_one env addr w) as [E|(host & w1 & E)].
    + rewrite E. rewrite E in H. exact H.
    + rewrite E. rewrite E in H. apply IH; assumption.
Qed.

Lemma AddUniquePeer_count peers peer :
  count_occ string_dec (AddUniquePeer peers peer) peer
  = Nat.max 1 (count_occ string_dec peers peer).
Proof.
  unfold AddUniquePeer. destruct (PeerContained peers peer) eqn:C.
  - apply PeerContained_In in C.
    apply (count_occ_In string_dec) in C. lia.
  - assert (N : ~ In peer peers).
    { intros HI. apply PeerContained_In in HI. congruence. }
    apply (count_occ_not_In string_dec) in N.
    rewrite count_occ_app, N. cbn [count_occ].
    destruct (string_dec peer peer); [reflexivity | contradiction].
Qed.

(** C9, as amended: once a join request is answered, a status above
    399 is fatal; a status from 300 to 399 without a Location header
    is fatal, and with one (that parses) [joinMaster] goes on with the
    host of that location; any other status is a success: when the
    peer store can be read, the list that is returned and handed to
    [SetPeers] is the list that was read with the contacted address
    added by [AddUniquePeer]: it holds that address, as often as the
    list that was read did and at least once, and it is what
    peers.json holds afterwards when the write returned no error. *)
Theorem joinMaster_redirects_and_adds_once
    (env : Env) (n : nat) (addr : string) (w : World) (res : Response) :
  answered env addr w res ->
  let w1 := sent addr w in
  let loc := Location res in
  (399 < StatusCode res ->
   exists w', joinMaster env (S n) addr w = (Exit 1, w')) /\
  (299 < StatusCode res <= 399 -> loc = "" ->
   exists w', joinMaster env (S n) addr w = (Exit 1, w')) /\
  (299 < StatusCode res <= 399 -> loc <> "" ->
   fails env (trace w1) (url_Parse loc) = false ->
   joinMaster env (S n) addr w
     = joinMaster env n (url_Host env loc) (record (url_Parse loc) w1)) /\
  (StatusCode res <= 299 ->
   let w2 := extend [log_Print "Adding master as peer"; peerStore_Peers] w1 in
   let read := stored env (extend [log_Print "Adding master as peer"] w1) in
   let p := AddUniquePeer read addr in
   fails env (trace w1 ++ [log_Print "Adding master as peer"]) peerStore_Peers
     = false ->
   exists w',
     joinMaster env (S n) addr w = (Ok p, w') /\
     trace w' = trace w2 ++ [peerStore_SetPeers p] /\
     In addr p /\
     count_occ string_dec p addr
       = Nat.max 1 (count_occ string_dec read addr) /\
     (fails env (trace w2) (peerStore_SetPeers p) = false ->
      peers_json w' = p)).
Proof.
  intros Hans w1 loc.
  rewrite (joinMaster_answered env n addr w res Hans). fold w1.
  repeat split.
  - intros H. apply Z.gtb_lt in H. rewrite H. run. eauto.
  - intros [H1 H2] Hloc.
    assert (G : (StatusCode res >? 399) = false)
      by (rewrite Z.gtb_ltb; apply Z.ltb_ge; lia).
    apply Z.gtb_lt in H1. rewrite G, H1.
    fold loc. rewrite Hloc. cbn [is_empty String.eqb]. run. eauto.
  - intros [H1 H2] Hloc Hparse.
    assert (G : (StatusCode res >? 399) = false)
      by (rewrite Z.gtb_ltb; apply Z.ltb_ge; lia).
    apply Z.gtb_lt in H1. rewrite G, H1.
    fold loc. apply is_empty_false in Hloc. rewrite Hloc.
    run. rewrite Hparse. reflexivity.
  - intros H w2 read p HP.
    assert (G1 : (StatusCode res >? 399) = false)
      by (rewrite Z.gtb_ltb; apply Z.ltb_ge; lia).
    assert (G2 : (StatusCode res >? 299) = false)
      by (rewrite Z.gtb_ltb; apply Z.ltb_ge; lia).
    rewrite G1, G2. run. rewrite trace_record, HP. cbv beta iota.
    change (record (log_Print "Adding master as peer") w1)
      with (extend [log_Print "Adding master as peer"] w1).
    fold read. fold p.
    replace (record peerStore_Peers
               (extend [log_Print "Adding master as peer"] w1)) with w2
      by (unfold w2; (worlds; reflexivity)).
    cbv beta.
    destruct (fails env (trace w2) (peerStore_SetPeers p)) eqn:HS;
      (eexists; split; [reflexivity|]);
      (split; [autorewrite with world; reflexivity|]);
      (split; [apply AddUniquePeer_In|]);
      (split; [apply AddUniquePeer_count|]);
      intros E; [discriminate | reflexivity].
Qed.

(** ** The flags [main] does not assign *)

(** ** Rules for pre- and postconditions *)

Section TripleRules.

Variable X : Z -> World -> Prop.
Variable F : World -> Prop.

Lemma triple_bind {A B} P (R : A -> World -> Prop) (R' : B -> World -> Prop)
    (m : Proc A) (k : A -> Proc B) :
  triple X F P m R -> (forall a, triple X F (R a) (k a) R') ->
  triple X F P (bind m k) R'.
Proof.
  intros Hm Hk w HP. specialize (Hm w HP). unfold bind.
  destruct (m w) as [[a|c|] w1]; cbn [fst snd post] in *.
  - apply Hk. exact Hm.
  - exact Hm.
  - exact Hm.
Qed.

Lemma preserves_bind {A B} I (m : Proc A) (k : A -> Proc B) :
  preserves X F I m -> (forall a, preserves X F I (k a)) ->
  preserves X F I (bind m k).
Proof. intros Hm Hk. exact (triple_bind I _ _ m k Hm Hk). Qed.

Lemma preserves_seq I blocks :
  Forall (preserves X F I) blocks -> preserves X F I (seq blocks).
Proof.
  induction 1 as [|m rest Hm _ IH]; cbn [seq].
  - intros w HI. exact HI.
  - apply preserves_bind; [exact Hm | intros _; exact IH].
Qed.

End TripleRules.

Lemma invariant_preserves {A} (X : Z -> World -> Prop) (F I : World -> Prop)
    (m : Proc A) :
  invariant I m -> (forall c w, I w -> X c w) -> (forall w, I w -> F w) ->
  preserves X F I m.
Proof.
  intros H HX HF w HI. specialize (H w HI).
  destruct (fst (m w)); cbn [post] in *; auto.
Qed.

Lemma Forall_snoc {A} (P : A -> Prop) l x :
  Forall P l -> P x -> Forall P (l ++ [x]).
Proof.
  intros Hl Hx. apply Forall_app.
  split; [exact Hl | repeat constructor; exact Hx].
Qed.

(** Split every conditional and match on an option in the goal. *)
Ltac branches :=
  repeat match goal with
         | |- context [if ?b then _ else _] => destruct b
         | |- context [match ?o with Some _ => _ | None => _ end] => destruct o
         end.

Ltac static_block :=
  unfold invariant; intros w H; run; branches; cbn [fst snd post]; exact H.

(** Prove an invariant of a block along its structure: [leaf] settles
    the parts without recursion, the context the recursive ones. *)
Ltac by_structure leaf :=
  unfold invariant in *;
  repeat first
    [ solve [leaf]
    | solve [auto]
    | apply preserves_bind; [|intros ?]
    | match goal with
      | |- preserves _ _ _ (if ?b then _ else _) => destruct b
      | |- preserves _ _ _ (match ?o with Some _ => _ | None => _ end) =>
          destruct o
      end
    | progress cbv zeta
    | progress unfold when ].

Lemma removeCompactionDatabases_static env f0 tmpdir names :
  invariant (static f0) (removeCompactionDatabases env tmpdir names).
Proof.
  induction names as [|name rest IH]; cbn [removeCompactionDatabases];
    by_structure static_block.
Qed.

Lemma deleteOldDatabases_static env f0 :
  invariant (static f0) (deleteOldDatabases env).
Proof.
  pose proof (removeCompactionDatabases_static env f0) as R.
  unfold deleteOldDatabases, deleteOldCompactionDatabases.
  by_structure static_block.
Qed.

Lemma joinMaster_static env f0 fuel : forall addr,
  invariant (static f0) (joinMaster env fuel addr).
Proof.
  induction fuel as [|fuel IH]; intros addr; cbn [joinMaster];
    by_structure static_block.
Qed.

Lemma applyMessages_static env f0 msgs :
  invariant (static f0) (applyMessages env msgs).
Proof.
  induction msgs as [|m rest IH]; cbn [applyMessages];
    by_structure static_block.
Qed.

Lemma loop_static env f0 sched :
  invariant (static f0) (loop env sched).
Proof.
  pose proof (applyMessages_static env f0) as R.
  induction sched as [|c rest IH]; cbn [loop]; [static_block|].
  apply preserves_bind; [|intros ?; exact IH].
  destruct c; cbn [selectCase]; by_structure static_block.
Qed.

Lemma blocks_static env f0 fuel sched :
  Forall (invariant (static f0))
         ([parseFlags env; versionFlag; deleteState env]
            ++ initialization env fuel sched).
Proof.
  pose proof (deleteOldDatabases_static env f0) as R1.
  pose proof (joinMaster_static env f0 fuel) as R2.
  pose proof (loop_static env f0 sched) as R3.
  unfold initialization; cbn [app].
  repeat (apply Forall_cons;
          [unfold parseFlags, versionFlag, deleteState, checkFlags, newServer,
             checkPeers, setupRaft, dumpCanary, serve, joinNetwork, mainLoop;
           by_structure static_block|]).
  apply Forall_nil.
Qed.

(** ** Calls are only added *)

Ltac grows_block :=
  unfold invariant, preserves, triple, grows;
  intros w [ext H]; run; branches; cbn [fst snd post];
  autorewrite with world; rewrite H, <- ?app_assoc;
  eexists; reflexivity.

Lemma removeCompactionDatabases_grows env t0 tmpdir names :
  invariant (grows t0) (removeCompactionDatabases env tmpdir names).
Proof.
  induction names as [|name rest IH]; cbn [removeCompactionDatabases];
    by_structure grows_block.
Qed.

Lemma joinMaster_grows env t0 fuel : forall addr,
  invariant (grows t0) (joinMaster env fuel addr).
Proof.
  induction fuel as [|fuel IH]; intros addr; cbn [joinMaster];
    by_structure grows_block.
Qed.

Lemma applyMessages_grows env t0 msgs :
  invariant (grows t0) (applyMessages env msgs).
Proof.
  induction msgs as [|m rest IH]; cbn [applyMessages];
    by_structure grows_block.
Qed.

Lemma blocks_grow env t0 fuel sched :
  Forall (invariant (grows t0))
         ([parseFlags env; versionFlag; deleteState env]
            ++ initialization env fuel sched).
Proof.
  pose proof (removeCompactionDatabases_grows env t0) as R1.
  pose proof (joinMaster_grows env t0 fuel) as R2.
  pose proof (applyMessages_grows env t0) as R3.
  assert (R4 : invariant (grows t0) (loop env sched)).
  { induction sched as [|c rest IH]; cbn [loop]; [grows_block|].
    unfold invariant. apply preserves_bind; [|intros ?; exact IH].
    destruct c; cbn [selectCase]; by_structure grows_block. }
  unfold initialization; cbn [app].
  repeat (apply Forall_cons;
          [unfold parseFlags, versionFlag, deleteState, deleteOldDatabases,
             deleteOldCompactionDatabases, checkFlags, newServer,
             checkPeers, setupRaft, dumpCanary, serve, joinNetwork, mainLoop;
           by_structure grows_block|]).
  apply Forall_nil.
Qed.

(** What has been called stays called. *)
Lemma fromCheckPeers_keeps env fuel sched w c :
  In c (trace w) ->
  In c (trace (snd (seq (fromCheckPeers env fuel sched) w))).
Proof.
  intros Hin.
  assert (I : invariant (grows (trace w)) (seq (fromCheckPeers env fuel sched))).
  { apply preserves_seq.
    pose proof (blocks_grow env (trace w) fuel sched) as B.
    apply Forall_app in B. destruct B as [_ B].
    unfold initialization in B.
    repeat match goal with
           | H : Forall _ (_ :: _) |- _ => inversion H; subst; clear H
           end.
    unfold fromCheckPeers.
    repeat (apply Forall_cons; [assumption|]). apply Forall_nil. }
  assert (G : grows (trace w) w) by (exists []; symmetry; apply app_nil_r).
  specialize (I w G).
  assert (G' : grows (trace w) (snd (seq (fromCheckPeers env fuel sched) w))).
  { destruct (fst (seq (fromCheckPeers env fuel sched) w)); exact I. }
  destruct G' as [ext E]. rewrite E. apply in_or_app. left. exact Hin.
Qed.

Lemma same_flags_refl f : same_flags f f.
Proof. repeat split. Qed.

Lemma main_checkPeers env fuel sched w0 w :
  seq (untilCheckPeers env) w0 = (Ok tt, w) ->
  main env fuel sched w0
    = bind (checkPeers env) (fun _ => seq (afterCheckPeers env fuel sched)) w.
Proof.
  intros H. unfold main.
  change ([parseFlags env; versionFlag; deleteState env]
            ++ initialization env fuel sched)
    with (untilCheckPeers env
            ++ checkPeers env :: afterCheckPeers env fuel sched).
  rewrite seq_app. unfold bind at 1. rewrite H. reflexivity.
Qed.

Lemma untilCheckPeers_static env w0 w r :
  seq (untilCheckPeers env) w0 = (r, w) -> same_flags (flags w0) (flags w).
Proof.
  intros H.
  assert (I : invariant (static (flags w0)) (seq (untilCheckPeers env))).
  { apply preserves_seq.
    pose proof (blocks_static env (flags w0) 0 []) as B.
    apply Forall_app in B. destruct B as [B1 B2].
    unfold initialization in B2.
    repeat match goal with
           | H : Forall _ (_ :: _) |- _ => inversion H; subst; clear H
           end.
    unfold untilCheckPeers.
    repeat (apply Forall_cons; [assumption|]). apply Forall_nil. }
  specialize (I w0 (same_flags_refl _)). rewrite H in I.
  destruct r; exact I.
Qed.

Lemma len_zero {A} (l : list A) : (len l =? 0) = true <-> l = [].
Proof.
  unfold len. rewrite Z.eqb_eq. destruct l; cbn [length]; split;
    try reflexivity; try discriminate; lia.
Qed.

Lemma only_entry l a :
  ((len l =? 1) && String.eqb (nth 0 l "") a) = true <-> l = [a].
Proof.
  unfold len. rewrite andb_true_iff, Z.eqb_eq, String.eqb_eq.
  destruct l as [|x [|y l]]; cbn [length nth]; split.
  - intros [H _]. lia.
  - discriminate.
  - intros [_ H]. congruence.
  - intros H. split; [reflexivity | congruence].
  - intros [H _]. lia.
  - discriminate.
Qed.

Ltac footprint_goal :=
  cbn [fst snd post trace flags datadir peers_json
       with_flags with_datadir with_peers_json];
  autorewrite with world;
  repeat match goal with
         | |- _ /\ _ => split
         | |- Forall _ (_ ++ [_]) => apply Forall_snoc
         | |- allowed _ _ _ => cbn [allowed]
         end;
  try assumption; try exact I; try congruence.

Ltac branches_eqn :=
  repeat match goal with
         | |- context [if ?b then _ else _] => destruct b eqn:?
         | |- context [match ?o with Some _ => _ | None => _ end] =>
             destruct o eqn:?
         end.

Ltac footprint_block :=
  unfold invariant, preserves, at_start, at_wiped, at_init, exits, static,
    same_flags;
  intros w H; run; branches_eqn;
  repeat match goal with H : _ /\ _ |- _ => destruct H end;
  footprint_goal;
  try (intros; first [reflexivity | congruence | contradiction]).

Section FootprintOfMain.

Variable env : Env.
Variable w0 : World.

Local Abbreviation X := (exits env w0).
Local Abbreviation F := (at_init env w0).

Lemma parseFlags_footprint :
  preserves X F (at_start env w0) (parseFlags env).
Proof. unfold parseFlags. footprint_block. Qed.

Lemma versionFlag_footprint :
  preserves X F (at_start env w0) versionFlag.
Proof. unfold versionFlag. footprint_block. Qed.

Lemma deleteState_footprint :
  triple X F (at_start env w0) (deleteState env) (fun _ => at_wiped env w0).
Proof.
  unfold deleteState, triple. footprint_block.
  all: match goal with
       | E : _ && _ = true |- _ =>
           apply andb_true_iff in E; destruct E as [E _]
       end;
    unfold sentinel_present in *; autorewrite with world in *;
    match goal with
    | D : datadir _ = datadir w0 |- _ => rewrite <- D
    end; assumption.
Qed.

Lemma removeCompactionDatabases_footprint tmpdir names :
  preserves X F (at_wiped env w0)
            (removeCompactionDatabases env tmpdir names).
Proof.
  induction names as [|name rest IH]; cbn [removeCompactionDatabases];
    by_structure footprint_block.
Qed.

Lemma deleteOldDatabases_footprint :
  preserves X F (at_wiped env w0) (deleteOldDatabases env).
Proof.
  pose proof removeCompactionDatabases_footprint as R.
  unfold deleteOldDatabases, deleteOldCompactionDatabases.
  by_structure footprint_block.
Qed.

Lemma checkFlags_footprint :
  triple X F (at_wiped env w0) (checkFlags env) (fun _ => at_init env w0).
Proof.
  unfold checkFlags, triple. footprint_block.
  all: autorewrite with world in *;
    unfold set_networkPassword, set_peerAddr in *;
    cbn [networkPassword network peerAddr listen] in *;
    unfold password;
    match goal with
    | E : networkPassword (flags _) = _ |- _ => rewrite <- E
    end;
    match goal with
    | E : is_empty (networkPassword (flags _)) = _ |- _ => rewrite E
    end;
    first [reflexivity | apply is_empty_false; assumption].
Qed.

Lemma joinMaster_footprint fuel : forall addr,
  preserves X F (at_init env w0) (joinMaster env fuel addr).
Proof.
  induction fuel as [|fuel IH]; intros addr; cbn [joinMaster];
    by_structure footprint_block.
Qed.

Lemma applyMessages_footprint msgs :
  preserves X F (at_init env w0) (applyMessages env msgs).
Proof.
  induction msgs as [|m rest IH]; cbn [applyMessages];
    by_structure footprint_block.
Qed.

Lemma loop_footprint sched :
  preserves X F (at_init env w0) (loop env sched).
Proof.
  pose proof applyMessages_footprint as R.
  induction sched as [|c rest IH]; cbn [loop]; [footprint_block|].
  apply preserves_bind; [|intros ?; exact IH].
  destruct c; cbn [selectCase]; by_structure footprint_block.
Qed.

Lemma joinNetwork_footprint fuel :
  preserves X F (at_init env w0) (joinNetwork env fuel).
Proof.
  pose proof (joinMaster_footprint fuel) as R1.
  intros w HI. unfold joinNetwork.
  rewrite (bind_Ok getFlags _ w (flags w) w eq_refl).
  assert (E : networkPassword (flags w) = password env w0) by apply HI.
  assert (N : password env w0 <> "") by apply HI.
  revert E. generalize (flags w) as f. intros f E. revert w HI.
  change (preserves (exits env w0) (at_init env w0) (at_init env w0)
    (p <- (if negb (is_empty (join f)) then
             must env (timesafeguard_SynchronizedWithMasterAndNetwork
                         (peerAddr f) (join f) (networkPassword f))
                  "timesafeguard" ;;
             joinMaster env fuel (join f)
           else ret []) ;;
     when (len p >? 0) (emit (node_SetPeers p)))).
  by_structure footprint_block.
Qed.

Lemma initialized_footprint fuel sched :
  Forall (preserves X F (at_init env w0))
         [newServer env; checkPeers env; setupRaft env; dumpCanary env;
          serve env; joinNetwork env fuel; mainLoop env sched].
Proof.
  pose proof (joinNetwork_footprint fuel) as R1.
  pose proof (loop_footprint sched) as R2.
  repeat (apply Forall_cons;
          [unfold newServer, checkPeers, setupRaft, dumpCanary, serve,
             mainLoop;
           by_structure footprint_block|]).
  apply Forall_nil.
Qed.

Lemma untilCheckFlags_footprint :
  triple X F (at_start env w0) (seq (untilCheckFlags env))
         (fun _ => at_wiped env w0).
Proof.
  unfold untilCheckFlags. cbn [seq].
  apply triple_bind with (R := fun _ => at_start env w0);
    [apply parseFlags_footprint | intros _].
  apply triple_bind with (R := fun _ => at_start env w0);
    [apply versionFlag_footprint | intros _].
  apply triple_bind with (R := fun _ => at_wiped env w0);
    [apply deleteState_footprint | intros _].
  apply triple_bind with (R := fun _ => at_wiped env w0);
    [apply deleteOldDatabases_footprint | intros _].
  intros w H. exact H.
Qed.

Lemma main_footprint fuel sched :
  triple X F (at_start env w0) (main env fuel sched)
         (fun _ => at_init env w0).
Proof.
  unfold main, initialization. cbn [app seq].
  apply triple_bind with (R := fun _ => at_start env w0);
    [apply parseFlags_footprint | intros _].
  apply triple_bind with (R := fun _ => at_start env w0);
    [apply versionFlag_footprint | intros _].
  apply triple_bind with (R := fun _ => at_wiped env w0);
    [apply deleteState_footprint | intros _].
  apply triple_bind with (R := fun _ => at_wiped env w0);
    [apply deleteOldDatabases_footprint | intros _].
  apply triple_bind with (R := fun _ => at_init env w0);
    [apply checkFlags_footprint | intros _].
  apply (preserves_seq X F (at_init env w0)
           [newServer env; checkPeers env; setupRaft env; dumpCanary env;
            serve env; joinNetwork env fuel; mainLoop env sched]).
  apply initialized_footprint.
Qed.

End FootprintOfMain.

(** Every call of a run that starts with an empty trace is allowed, and
    a run without a password is an exit with code 1, unless -version
    was given. *)
Lemma main_calls env fuel sched w0 :
  trace w0 = [] ->
  Forall (allowed env w0) (trace (snd (main env fuel sched w0))) /\
  (password env w0 = "" -> version (flags w0) = false ->
   fst (main env fuel sched w0) = Exit 1).
Proof.
  intros Ht.
  assert (S : at_start env w0 w0).
  { unfold at_start. rewrite Ht.
    repeat split; constructor. }
  pose proof (main_footprint env w0 fuel sched w0 S) as H.
  destruct (main env fuel sched w0) as [[[]|c|] w]; cbn [fst snd post] in *.
  - destruct H as (_ & _ & Hp & Ht'). split; [exact Ht' | contradiction].
  - destruct H as (Ht' & Hc). split; [exact Ht'|].
    intros Hp Hv. rewrite (Hc Hp Hv). reflexivity.
  - destruct H as (_ & _ & Hp & Ht'). split; [exact Ht' | contradiction].
Qed.

(** ** The deletestate sentinel *)

Lemma parseFlags_continues env w0 :
  parseFlags env w0 = (Ok tt, snd (parseFlags env w0)).
Proof. unfold parseFlags. run. destruct (is_empty _); reflexivity. Qed.

Lemma parseFlags_world env w0 :
  let w := snd (parseFlags env w0) in
  same_flags (flags w0) (flags w) /\ datadir w = datadir w0 /\
  trace w = trace w0 ++
            (if is_empty (log_dir (flags w0))
             then [flag_Set "log_dir" (raftDir (flags w0))] else [])
            ++ [glog_CopyStandardLogTo "INFO";
                log_Print (String.append "RobustIRC " (Version env))].
Proof.
  unfold parseFlags. run.
  destruct (is_empty _); cbn [snd]; traces; repeat split.
Qed.

Lemma parseFlags_peers env w0 :
  peers_json (snd (parseFlags env w0)) = peers_json w0.
Proof. unfold parseFlags. run. destruct (is_empty _); reflexivity. Qed.

(** C4: in a run without -version, nothing but the flag and log set-up
    precedes the deletestate block.  When the sentinel is not in the
    data directory, or [os.Stat] of it returns an error, everything
    after the block starts with the directory and peers.json as they
    were; when it is not there, no run ever calls [os.RemoveAll].
    When it is there and [os.Stat] returns no error, the directory is
    removed and made anew with mode 0700, and everything after the
    block starts with it empty, peers.json gone with the rest; when
    [os.RemoveAll] or [os.Mkdir] returns an error the process exits
    with code 1 and nothing after the block runs. *)
Theorem deletestate_wipes_before_init
    (env : Env) (fuel : nat) (sched : list Chan) (w0 : World) :
  trace w0 = [] -> version (flags w0) = false ->
  let w := snd (parseFlags env w0) in
  let dir := raftDir (flags w0) in
  let stat := os_Stat (Join dir "deletestate") in
  let init := seq (initialization env fuel sched) in
  let run := main env fuel sched w0 in
  datadir w = datadir w0 /\ peers_json w = peers_json w0 /\
  trace w = (if is_empty (log_dir (flags w0))
             then [flag_Set "log_dir" dir] else [])
            ++ [glog_CopyStandardLogTo "INFO";
                log_Print (String.append "RobustIRC " (Version env))] /\
  (sentinel_present w0 = false \/ fails env (trace w) stat = true ->
   run = init (extend [stat] w) /\
   datadir (extend [stat] w) = datadir w0 /\
   peers_json (extend [stat] w) = peers_json w0) /\
  (sentinel_present w0 = false ->
   forall p, ~ In (os_RemoveAll p) (trace (snd run))) /\
  (sentinel_present w0 = true -> fails env (trace w) stat = false ->
   run =
     if fails env (trace w ++ [stat]) (os_RemoveAll dir) then
       (Exit 1, extend [stat; os_RemoveAll dir; log_Print "RemoveAll"] w)
     else if fails env (trace w ++ [stat; os_RemoveAll dir])
                   (os_Mkdir dir 448) then
       (Exit 1,
        with_peers_json []
          (with_datadir None
             (extend [stat; os_RemoveAll dir; os_Mkdir dir 448;
                      log_Print "Mkdir"] w)))
     else
       init (with_peers_json []
               (with_datadir (Some [])
                  (extend [stat; os_RemoveAll dir; os_Mkdir dir 448;
                           log_Print "Deleted raftdir because deletestate existed"]
                          w)))).
Proof.
  intros Ht Hv w dir stat init run.
  destruct (parseFlags_world env w0) as (Sf & Hd & Htr). fold w in Sf, Hd, Htr.
  pose proof (parseFlags_peers env w0) as Hp. fold w in Hp.
  rewrite Ht in Htr. cbn [app] in Htr.
  assert (Hdir : raftDir (flags w) = dir) by (symmetry; apply Sf).
  assert (Hver : version (flags w) = false).
  { destruct Sf as (_ & _ & V & _). congruence. }
  assert (Hs : sentinel_present w = sentinel_present w0).
  { unfold sentinel_present. rewrite Hd. reflexivity. }
  assert (Hrun : run = bind (deleteState env) (fun _ => init) w).
  { unfold run, main. cbn [app seq].
    rewrite (bind_Ok _ _ _ _ _ (parseFlags_continues env w0)). fold w.
    unfold versionFlag. unfold bind at 1 2. unfold getFlags at 1.
    cbv beta iota. rewrite Hver. reflexivity. }
  assert (Hskip : sentinel_present w0 = false \/ fails env (trace w) stat = true ->
                  run = init (extend [stat] w)).
  { intros Habs. rewrite Hrun. unfold deleteState. run. rewrite Hdir.
    fold stat. unfold sentinel_present in *. rewrite datadir_record, Hs.
    destruct Habs as [Habs|Habs]; rewrite Habs;
      rewrite ?andb_false_r; cbn [andb negb]; cbv beta iota;
      (worlds; reflexivity). }
  split; [exact Hd|]. split; [exact Hp|]. split; [exact Htr|].
  split; [|split].
  - intros Habs. split; [exact (Hskip Habs)|]. split; assumption.
  - intros Habs p Hin.
    pose proof (proj1 (main_calls env fuel sched w0 Ht)) as A.
    rewrite Forall_forall in A. specialize (A _ Hin).
    cbn [allowed] in A. destruct A as [A _]. congruence.
  - intros Hpres Hstat. rewrite Hrun. unfold deleteState. run. rewrite Hdir.
    fold stat. unfold sentinel_present in *.
    rewrite datadir_record, Hs, Hpres, Hstat. cbn [andb negb].
    cbv beta iota. traces.
    destruct (fails env (trace w ++ [stat]) (os_RemoveAll dir));
      [(worlds; reflexivity)|].
    cbv beta iota. traces.
    destruct (fails env (trace w ++ [stat; os_RemoveAll dir])
                    (os_Mkdir dir 448)).
    + f_equal. same_world.
    + cbv beta iota. f_equal. same_world.
Qed.

(** ** The cluster password *)

(** With an empty flag and a password in the environment, the check
    of the flags goes on, and the transport is created with that
    password. *)
Lemma checkFlags_takes_environment env w :
  networkPassword (flags w) = "" ->
  getenv env "ROBUSTIRC_NETWORK_PASSWORD" <> "" ->
  network (flags w) <> "" ->
  exists w2 addr,
    bind (checkFlags env) (fun _ => newServer env) w = (Ok tt, w2) /\
    In (rafthttp_NewHTTPTransport addr (getenv env "ROBUSTIRC_NETWORK_PASSWORD"))
       (trace w2).
Proof.
  intros Hflag Hpw Hnet.
  apply is_empty_false in Hpw, Hnet.
  unfold checkFlags, newServer. run.
  rewrite !flags_record, Hflag. cbn [is_empty String.eqb]. cbv beta iota.
  unfold set_networkPassword, set_peerAddr.
  autorewrite with world. cbn [networkPassword network peerAddr listen raftDir].
  rewrite Hpw, Hnet. cbv beta iota.
  destruct (is_empty (peerAddr (flags w))); cbv beta iota;
    autorewrite with world; cbn [networkPassword network peerAddr listen raftDir];
    do 2 eexists; (split; [reflexivity|]);
    autorewrite with world;
    repeat (apply in_or_app;
            first [solve [right; left; reflexivity] | left]).
Qed.

(** C5: in a run with an empty -network_password, every call that takes
    the cluster password gets the value of ROBUSTIRC_NETWORK_PASSWORD.
    When that value is not empty, a run that has a network name and
    has come through the clean-up of the data directory goes on and
    creates the transport of the Raft node with it.  When it is empty
    too, a run without -version exits with code 1 and has neither
    created the Raft node nor started to listen or serve. *)
Theorem network_password_fallback
    (env : Env) (fuel : nat) (sched : list Chan) (w0 : World) :
  trace w0 = [] ->
  networkPassword (flags w0) = "" ->
  let pw := getenv env "ROBUSTIRC_NETWORK_PASSWORD" in
  let run := main env fuel sched w0 in
  (forall c p, In c (trace (snd run)) -> password_of c = Some p -> p = pw) /\
  (pw <> "" -> network (flags w0) <> "" ->
   forall w, seq (untilCheckFlags env) w0 = (Ok tt, w) ->
   exists addr, In (rafthttp_NewHTTPTransport addr pw) (trace (snd run))) /\
  (pw = "" -> version (flags w0) = false ->
   fst run = Exit 1 /\
   forall c, In c (trace (snd run)) -> serving c = false).
Proof.
  intros Ht Hflag pw run.
  destruct (main_calls env fuel sched w0 Ht) as [A B].
  fold run in A, B. rewrite Forall_forall in A.
  assert (P : password env w0 = pw).
  { unfold password. rewrite Hflag. reflexivity. }
  split; [|split].
  - intros c p Hin Hc. specialize (A c Hin).
    destruct c; cbn [password_of] in Hc; try discriminate;
      injection Hc as <-; cbn [allowed] in A; destruct A as [A _]; congruence.
  - intros Hpw Hnet w Hreach.
    assert (S : at_start env w0 w0).
    { unfold at_start. rewrite Ht. repeat split; constructor. }
    pose proof (untilCheckFlags_footprint env w0 w0 S) as W.
    rewrite Hreach in W. cbn [fst snd post] in W.
    destruct W as (Sf & Wpw & _).
    assert (Wnet : network (flags w) <> "").
    { destruct Sf as (_ & _ & _ & _ & _ & _ & _ & _ & N & _).
      rewrite <- N. exact Hnet. }
    rewrite Hflag in Wpw.
    destruct (checkFlags_takes_environment env w Wpw Hpw Wnet)
      as (w2 & addr & E & Hin).
    exists addr.
    assert (R : run = seq (fromCheckPeers env fuel sched) w2).
    { unfold run, main, initialization.
      change ([parseFlags env; versionFlag; deleteState env] ++
              [deleteOldDatabases env; checkFlags env; newServer env;
               checkPeers env; setupRaft env; dumpCanary env; serve env;
               joinNetwork env fuel; mainLoop env sched])
        with (untilCheckFlags env ++
              checkFlags env :: newServer env :: fromCheckPeers env fuel sched).
      rewrite seq_app. unfold bind at 1. rewrite Hreach.
      cbn [seq]. rewrite <- bind_assoc. unfold bind at 1. rewrite E.
      reflexivity. }
    rewrite R. apply fromCheckPeers_keeps. exact Hin.
  - intros Hpw Hv. split; [apply B; congruence|].
    intros c Hin. specialize (A c Hin).
    destruct c; try reflexivity; cbn [allowed] in A;
      exfalso; try destruct A as [_ A]; apply A; congruence.
Qed.

(** ** The snapshot store *)

Lemma persistSnapshot_length retain snapshots name :
  0 <= retain -> len (persistSnapshot retain snapshots name) <= retain.
Proof.
  intros H. unfold len, persistSnapshot.
  pose proof (firstn_le_length (Z.to_nat retain) (name :: snapshots)). lia.
Qed.

(** C8: whenever a run creates the snapshot store, it creates it over
    the data directory with 5 snapshots to retain, so that it keeps
    its snapshots in the directory snapshots under the data directory,
    and after any snapshot is written at most 5 are left. *)
Theorem snapshot_store_retains_five
    (env : Env) (fuel : nat) (sched : list Chan) (w0 : World)
    (base : string) (retain : Z) :
  trace w0 = [] ->
  In (raft_NewFileSnapshotStoreWithLogger base retain)
     (trace (snd (main env fuel sched w0))) ->
  snapshotDir base = Join (raftDir (flags w0)) "snapshots" /\
  retain = 5 /\
  forall snapshots name,
    (length (persistSnapshot retain snapshots name) <= 5)%nat.
Proof.
  intros Ht Hin.
  pose proof (proj1 (main_calls env fuel sched w0 Ht)) as A.
  rewrite Forall_forall in A. specialize (A _ Hin).
  cbn [allowed] in A. destruct A as [-> ->].
  repeat split. intros snapshots name.
  pose proof (persistSnapshot_length 5 snapshots name ltac:(lia)) as L.
  unfold len in L. lia.
Qed.

(** ** The time safeguard *)

Lemma afterTimeSkew_snoc env t : forall h c,
  afterTimeSkew env h (t ++ [c]) =
  match afterTimeSkew env h t with
  | Some rest => Some (rest ++ [c])
  | None => if isTimesafeguard c && fails env (h ++ t) c then Some [] else None
  end.
Proof.
  induction t as [|c0 t IH]; intros h c; cbn [app afterTimeSkew].
  - rewrite app_nil_r. reflexivity.
  - destruct (isTimesafeguard c0 && fails env h c0); [reflexivity|].
    rewrite IH, <- app_assoc. reflexivity.
Qed.

Lemma afterTimeSkew_None env t : forall h pre c post,
  afterTimeSkew env h t = None -> t = pre ++ c :: post ->
  isTimesafeguard c = true -> fails env (h ++ pre) c = false.
Proof.
  induction t as [|c0 t IH]; intros h pre c post HN Ht Hc.
  - destruct pre; discriminate.
  - cbn [afterTimeSkew] in HN.
    destruct (isTimesafeguard c0 && fails env h c0) eqn:E; [discriminate|].
    destruct pre as [|p pre]; cbn [app] in Ht; injection Ht as <- Et.
    + rewrite app_nil_r. rewrite Hc in E. exact E.
    + replace (h ++ c0 :: pre) with ((h ++ [c0]) ++ pre)
        by (rewrite <- app_assoc; reflexivity).
      eapply IH; eauto.
Qed.

Lemma afterTimeSkew_Some env t : forall h rest pre c post,
  afterTimeSkew env h t = Some rest -> t = pre ++ c :: post ->
  isTimesafeguard c = true -> fails env (h ++ pre) c = true ->
  post = rest \/ exists mid, rest = mid ++ c :: post.
Proof.
  induction t as [|c0 t IH]; intros h rest pre c post HS Ht Hc Hf.
  - destruct pre; discriminate.
  - cbn [afterTimeSkew] in HS.
    destruct pre as [|p pre]; cbn [app] in Ht; injection Ht as <- Et.
    + rewrite app_nil_r in Hf. rewrite Hc, Hf in HS. cbn in HS.
      injection HS as <-. left. symmetry. exact Et.
    + destruct (isTimesafeguard c0 && fails env h c0).
      * injection HS as <-. right. exists pre. exact Et.
      * eapply IH; eauto. rewrite <- app_assoc. exact Hf.
Qed.

Ltac timeskew_block :=
  unfold invariant, preserves, synchronized, aborted;
  intros w H; run; branches_eqn; cbn [fst snd post];
  autorewrite with world in *;
  rewrite ?afterTimeSkew_snoc, ?H; cbn [isTimesafeguard andb app];
  repeat match goal with
         | E : fails _ _ _ = _ |- _ => rewrite E
         end;
  cbn [app];
  first [reflexivity | exact I | split; [reflexivity | eexists; reflexivity]].

Section TimeSkewOfMain.

Variable env : Env.

Local Abbreviation X := (aborted env).
Local Abbreviation F := (synchronized env).
Local Abbreviation Sync := (synchronized env).

Lemma removeCompactionDatabases_timeskew tmpdir names :
  preserves X F Sync (removeCompactionDatabases env tmpdir names).
Proof.
  induction names as [|name rest IH]; cbn [removeCompactionDatabases];
    by_structure timeskew_block.
Qed.

Lemma deleteOldDatabases_timeskew : preserves X F Sync (deleteOldDatabases env).
Proof.
  pose proof removeCompactionDatabases_timeskew as R.
  unfold deleteOldDatabases, deleteOldCompactionDatabases.
  by_structure timeskew_block.
Qed.

Lemma joinMaster_timeskew fuel : forall addr,
  preserves X F Sync (joinMaster env fuel addr).
Proof.
  induction fuel as [|fuel IH]; intros addr; cbn [joinMaster];
    by_structure timeskew_block.
Qed.

Lemma applyMessages_timeskew msgs :
  preserves X F Sync (applyMessages env msgs).
Proof.
  induction msgs as [|m rest IH]; cbn [applyMessages];
    by_structure timeskew_block.
Qed.

Lemma loop_timeskew sched : preserves X F Sync (loop env sched).
Proof.
  pose proof applyMessages_timeskew as R.
  induction sched as [|c rest IH]; cbn [loop]; [timeskew_block|].
  apply preserves_bind; [|intros ?; exact IH].
  destruct c; cbn [selectCase]; by_structure timeskew_block.
Qed.

Lemma main_timeskew fuel sched : preserves X F Sync (main env fuel sched).
Proof.
  pose proof deleteOldDatabases_timeskew as R1.
  pose proof (joinMaster_timeskew fuel) as R2.
  pose proof (loop_timeskew sched) as R3.
  unfold main, initialization. cbn [app]. apply preserves_seq.
  repeat (apply Forall_cons;
          [unfold parseFlags, versionFlag, deleteState, checkFlags, newServer,
             checkPeers, setupRaft, dumpCanary, serve, joinNetwork, mainLoop;
           by_structure timeskew_block|]).
  apply Forall_nil.
Qed.

End TimeSkewOfMain.

(** ** The order of calls *)

Lemma none_never_before A B t : none A t -> never_before A B t.
Proof.
  intros H pre c rest -> _. unfold none in *.
  apply Forall_app in H. apply H.
Qed.

Lemma never_before_snoc A B t c :
  never_before A B t -> B c = false -> never_before A B (t ++ [c]).
Proof.
  intros H Hc pre c' rest E Hc'.
  induction rest as [|x rest _] using rev_ind.
  - apply app_inj_tail in E. destruct E as [_ ->]. congruence.
  - rewrite app_comm_cons, app_assoc in E. apply app_inj_tail in E.
    destruct E as [E _]. exact (H pre c' rest E Hc').
Qed.

Lemma triple_pre {A} X F (P P' : World -> Prop) (m : Proc A) R :
  (forall w, P w -> P' w) -> triple X F P' m R -> triple X F P m R.
Proof. intros HP H w Hw. apply H, HP, Hw. Qed.

Lemma triple_seq_app X F P Q R l1 l2 :
  triple X F P (seq l1) (fun _ => Q) -> triple X F Q (seq l2) R ->
  triple X F P (seq (l1 ++ l2)) R.
Proof.
  intros H1 H2 w Hw. rewrite seq_app.
  exact (triple_bind X F P (fun _ => Q) R (seq l1) (fun _ => seq l2)
           H1 (fun _ => H2) w Hw).
Qed.

(** No call in [A] so far. *)
Ltac before_block :=
  unfold invariant, preserves, triple, before, ordered;
  intros w H; run; branches; cbn [fst snd post];
  autorewrite with world;
  try apply none_never_before;
  unfold none in *;
  repeat (apply Forall_snoc; [|reflexivity]);
  exact H.

(** No call in [B] any more. *)
Ltac ordered_block :=
  unfold invariant, preserves, triple, ordered;
  intros w H; run; branches; cbn [fst snd post];
  autorewrite with world;
  repeat (apply never_before_snoc; [|reflexivity]);
  exact H.

(** No join request is made before a time-safeguard check. *)
Section JoinAfterTimesafeguard.

Variable env : Env.

Local Abbreviation A := isJoinCall.
Local Abbreviation B := isTimesafeguard.
Local Abbreviation X := (fun _ : Z => ordered A B).
Local Abbreviation F := (ordered A B).

Lemma removeCompactionDatabases_before_join tmpdir names :
  preserves X F (before A) (removeCompactionDatabases env tmpdir names).
Proof.
  induction names as [|name rest IH]; cbn [removeCompactionDatabases];
    by_structure before_block.
Qed.

Lemma deleteOldDatabases_before_join :
  preserves X F (before A) (deleteOldDatabases env).
Proof.
  pose proof removeCompactionDatabases_before_join as R.
  unfold deleteOldDatabases, deleteOldCompactionDatabases.
  by_structure before_block.
Qed.

Lemma joinMaster_after_check fuel : forall addr,
  preserves X F (ordered A B) (joinMaster env fuel addr).
Proof.
  induction fuel as [|fuel IH]; intros addr; cbn [joinMaster];
    by_structure ordered_block.
Qed.

Lemma applyMessages_after_check msgs :
  preserves X F (ordered A B) (applyMessages env msgs).
Proof.
  induction msgs as [|m rest IH]; cbn [applyMessages];
    by_structure ordered_block.
Qed.

Lemma loop_after_check sched :
  preserves X F (ordered A B) (loop env sched).
Proof.
  pose proof applyMessages_after_check as R.
  induction sched as [|c rest IH]; cbn [loop]; [ordered_block|].
  apply preserves_bind; [|intros ?; exact IH].
  destruct c; cbn [selectCase]; by_structure ordered_block.
Qed.

Lemma joinNetwork_orders fuel :
  triple X F (before A) (joinNetwork env fuel) (fun _ => ordered A B).
Proof.
  pose proof (joinMaster_after_check fuel) as R.
  unfold joinNetwork.
  apply triple_bind with (R := fun _ => before A); [before_block|intros f].
  apply triple_bind with (R := fun _ => ordered A B).
  - destruct (negb (is_empty (join f))).
    + apply triple_bind with (R := fun _ => before A); [before_block|].
      intros _. apply triple_pre with (P' := ordered A B); [|apply R].
      intros w. apply none_never_before.
    + intros w H. apply none_never_before. exact H.
  - intros p. ordered_block.
Qed.

Lemma main_join_order fuel sched :
  triple X F (before A) (main env fuel sched) (fun _ => ordered A B).
Proof.
  pose proof deleteOldDatabases_before_join as R1.
  pose proof (loop_after_check sched) as R2.
  unfold main, initialization.
  change ([parseFlags env; versionFlag; deleteState env] ++
          [deleteOldDatabases env; checkFlags env; newServer env;
           checkPeers env; setupRaft env; dumpCanary env; serve env;
           joinNetwork env fuel; mainLoop env sched])
    with ([parseFlags env; versionFlag; deleteState env;
           deleteOldDatabases env; checkFlags env; newServer env;
           checkPeers env; setupRaft env; dumpCanary env; serve env] ++
          [joinNetwork env fuel; mainLoop env sched]).
  apply triple_seq_app with (Q := before A).
  - apply preserves_seq.
    repeat (apply Forall_cons;
            [unfold parseFlags, versionFlag, deleteState, checkFlags,
               newServer, checkPeers, setupRaft, dumpCanary, serve;
             by_structure before_block|]).
    apply Forall_nil.
  - cbn [seq].
    apply triple_bind with (R := fun _ => ordered A B);
      [apply joinNetwork_orders | intros _].
    apply preserves_bind; [|intros _; ordered_block].
    unfold mainLoop. by_structure ordered_block.
Qed.

End JoinAfterTimesafeguard.

(** The Raft node is not created before the check against the network. *)
Section RaftAfterNetworkCheck.

Variable env : Env.

Local Abbreviation A := isNewRaft.
Local Abbreviation B := isSynchronizedWithNetwork.
Local Abbreviation X := (fun _ : Z => ordered A B).
Local Abbreviation F := (ordered A B).

Lemma removeCompactionDatabases_before_raft tmpdir names :
  preserves X F (before A) (removeCompactionDatabases env tmpdir names).
Proof.
  induction names as [|name rest IH]; cbn [removeCompactionDatabases];
    by_structure before_block.
Qed.

Lemma deleteOldDatabases_before_raft :
  preserves X F (before A) (deleteOldDatabases env).
Proof.
  pose proof removeCompactionDatabases_before_raft as R.
  unfold deleteOldDatabases, deleteOldCompactionDatabases.
  by_structure before_block.
Qed.

Lemma joinMaster_after_raft fuel : forall addr,
  preserves X F (ordered A B) (joinMaster env fuel addr).
Proof.
  induction fuel as [|fuel IH]; intros addr; cbn [joinMaster];
    by_structure ordered_block.
Qed.

Lemma applyMessages_after_raft msgs :
  preserves X F (ordered A B) (applyMessages env msgs).
Proof.
  induction msgs as [|m rest IH]; cbn [applyMessages];
    by_structure ordered_block.
Qed.

Lemma loop_after_raft sched :
  preserves X F (ordered A B) (loop env sched).
Proof.
  pose proof applyMessages_after_raft as R.
  induction sched as [|c rest IH]; cbn [loop]; [ordered_block|].
  apply preserves_bind; [|intros ?; exact IH].
  destruct c; cbn [selectCase]; by_structure ordered_block.
Qed.

Lemma main_raft_order fuel sched :
  triple X F (before A) (main env fuel sched) (fun _ => ordered A B).
Proof.
  pose proof deleteOldDatabases_before_raft as R1.
  pose proof (joinMaster_after_raft fuel) as R2.
  pose proof (loop_after_raft sched) as R3.
  unfold main, initialization.
  change ([parseFlags env; versionFlag; deleteState env] ++
          [deleteOldDatabases env; checkFlags env; newServer env;
           checkPeers env; setupRaft env; dumpCanary env; serve env;
           joinNetwork env fuel; mainLoop env sched])
    with ([parseFlags env; versionFlag; deleteState env;
           deleteOldDatabases env; checkFlags env; newServer env;
           checkPeers env] ++
          [setupRaft env; dumpCanary env; serve env;
           joinNetwork env fuel; mainLoop env sched]).
  apply triple_seq_app with (Q := before A).
  - apply preserves_seq.
    repeat (apply Forall_cons;
            [unfold parseFlags, versionFlag, deleteState, checkFlags,
               newServer, checkPeers;
             by_structure before_block|]).
    apply Forall_nil.
  - apply triple_pre with (P' := ordered A B);
      [intros w; apply none_never_before|].
    apply preserves_seq.
    repeat (apply Forall_cons;
            [unfold setupRaft, dumpCanary, serve, joinNetwork, mainLoop;
             by_structure ordered_block|]).
    apply Forall_nil.
Qed.

End RaftAfterNetworkCheck.

Lemma main_ordered env fuel sched w0 A B :
  trace w0 = [] ->
  triple (fun _ : Z => ordered A B) (ordered A B) (before A)
         (main env fuel sched) (fun _ => ordered A B) ->
  never_before A B (trace (snd (main env fuel sched w0))).
Proof.
  intros Ht H.
  assert (S : before A w0) by (unfold before; rewrite Ht; constructor).
  specialize (H w0 S).
  destruct (fst (main env fuel sched w0)); exact H.
Qed.

(** No Raft node before the peer check: peers.json is [main]'s own. *)
Lemma raftRunning_none t : none isNewRaft t -> raftRunning t = false.
Proof.
  unfold none, raftRunning. induction 1 as [|c t Hc _ IH]; [reflexivity|].
  cbn [existsb]. rewrite IH.
  destruct c; cbn [isNewRaft] in Hc; try reflexivity; discriminate Hc.
Qed.

Lemma untilCheckPeers_raft_order env :
  preserves (fun _ : Z => ordered isNewRaft isSynchronizedWithNetwork)
            (ordered isNewRaft isSynchronizedWithNetwork)
            (before isNewRaft) (seq (untilCheckPeers env)).
Proof.
  pose proof (deleteOldDatabases_before_raft env) as R1.
  apply preserves_seq. unfold untilCheckPeers.
  repeat (apply Forall_cons;
          [unfold parseFlags, versionFlag, deleteState, checkFlags,
             newServer;
           by_structure before_block|]).
  apply Forall_nil.
Qed.

Lemma untilCheckPeers_before_raft env w0 w :
  trace w0 = [] -> seq (untilCheckPeers env) w0 = (Ok tt, w) ->
  raftRunning (trace w) = false.
Proof.
  intros Ht Hreach. apply raftRunning_none.
  assert (S : before isNewRaft w0) by (unfold before; rewrite Ht; constructor).
  pose proof (untilCheckPeers_raft_order env w0 S) as P.
  rewrite Hreach in P. exact P.
Qed.

(** C10: a node started with neither -join nor -singlenode, once it
    has come to the peer check and read the stored peer list, which is
    what the deletestate block has left of peers.json: with an
    empty list it exits with code 1 unless the time safeguard is
    disabled, and then goes on without the check; with a list that
    holds only its own address it sleeps 10 s and exits with code 1;
    with any other list it runs the time-safeguard check against these
    peers, exits with code 1 when the check returns an error, and goes
    on otherwise. *)
Theorem peer_check_outcomes
    (env : Env) (fuel : nat) (sched : list Chan) (w0 w : World) :
  trace w0 = [] ->
  join (flags w0) = "" -> singleNode (flags w0) = false ->
  seq (untilCheckPeers env) w0 = (Ok tt, w) ->
  fails env (trace w) peerStore_Peers = false ->
  let f := flags w in
  let peers := peers_json w in
  let check :=
    timesafeguard_SynchronizedWithNetwork (peerAddr f) peers
                                          (networkPassword f) in
  let rest := seq (afterCheckPeers env fuel sched) in
  (peers = [] ->
   main env fuel sched w0 =
     if DisableTimesafeguard (flags w0)
     then rest (extend [peerStore_Peers] w)
     else (Exit 1,
           extend [peerStore_Peers;
                   log_Print "No peers known and -join not specified."] w)) /\
  (peers = [peerAddr f] ->
   main env fuel sched w0 =
     (Exit 1,
      extend [peerStore_Peers; time_Sleep (10 * Second);
              log_Print "Only known peer is myself"] w)) /\
  (peers <> [] -> peers <> [peerAddr f] ->
   main env fuel sched w0 =
     if fails env (trace w ++ [peerStore_Peers]) check
     then (Exit 1,
           extend [peerStore_Peers; check; log_Print "timesafeguard"] w)
     else rest (extend [peerStore_Peers; check] w)).
Proof.
  intros Ht Hjoin Hsingle Hreach Hread f peers check rest.
  assert (Hst : stored env w = peers_json w).
  { unfold stored.
    rewrite (untilCheckPeers_before_raft env w0 w Ht Hreach).
    reflexivity. }
  pose proof (untilCheckPeers_static env w0 w _ Hreach) as S.
  destruct S as (_ & _ & _ & Ssingle & Sjoin & _ & _ & _ & _ & _ & _ & Sdis).
  rewrite (main_checkPeers env fuel sched w0 w Hreach).
  unfold checkPeers. run. fold f.
  assert (E1 : join f = "") by (unfold f; congruence).
  assert (E2 : singleNode f = false) by (unfold f; congruence).
  rewrite E1, E2. cbn [is_empty String.eqb negb andb]. cbv beta iota.
  rewrite Hread. cbv beta iota. rewrite Hst. fold peers. rewrite Sdis. fold f.
  repeat split.
  - intros Hp. apply len_zero in Hp. rewrite Hp.
    destruct (DisableTimesafeguard f); cbn [negb]; cbv beta iota; (worlds; reflexivity).
  - intros Hp.
    assert (L0 : (len peers =? 0) = false)
      by (apply not_true_is_false; rewrite len_zero, Hp; discriminate).
    apply only_entry in Hp. rewrite L0, Hp. cbv beta iota. (worlds; reflexivity).
  - intros Hne Hself.
    assert (L0 : (len peers =? 0) = false).
    { apply not_true_is_false. rewrite len_zero. exact Hne. }
    assert (L1 : ((len peers =? 1) && String.eqb (nth 0 peers "") (peerAddr f))
                 = false).
    { apply not_true_is_false. rewrite only_entry. exact Hself. }
    rewrite L0, L1. cbv beta iota. traces. fold check.
    destruct (fails env (trace w ++ [peerStore_Peers]) check); (worlds; reflexivity).
Qed.

(** C7: when in a run a time-safeguard check, against the network or
    against the join master, returns an error, the process exits with
    code 1 and the only call after the check is the log line: no main
    loop, no peer list for the Raft node.  No call of a join request
    was made before the check, and before a check against the network
    the Raft node was not created. *)
Theorem timeskew_aborts
    (env : Env) (fuel : nat) (sched : list Chan) (w0 : World)
    (pre : list Call) (c : Call) (rest : list Call) :
  trace w0 = [] ->
  trace (snd (main env fuel sched w0)) = pre ++ c :: rest ->
  isTimesafeguard c = true ->
  fails env pre c = true ->
  fst (main env fuel sched w0) = Exit 1 /\
  (exists msg, rest = [log_Print msg]) /\
  none isJoinCall pre /\
  (isSynchronizedWithNetwork c = true -> none isNewRaft pre).
Proof.
  intros Ht Htr Hc Hf.
  assert (J : none isJoinCall pre).
  { exact (main_ordered env fuel sched w0 _ _ Ht
             (main_join_order env fuel sched) pre c rest Htr Hc). }
  assert (R : isSynchronizedWithNetwork c = true -> none isNewRaft pre).
  { intros Hn.
    exact (main_ordered env fuel sched w0 _ _ Ht
             (main_raft_order env fuel sched) pre c rest Htr Hn). }
  assert (S : synchronized env w0)
    by (unfold synchronized; rewrite Ht; reflexivity).
  pose proof (main_timeskew env fuel sched w0 S) as H.
  destruct (main env fuel sched w0) as [r w]. cbn [fst snd] in *.
  assert (N : afterTimeSkew env [] (trace w) <> None).
  { intros N.
    pose proof (afterTimeSkew_None env _ [] pre c rest N Htr Hc) as G.
    cbn [app] in G. congruence. }
  destruct r as [[]|code|]; cbn [post] in H;
    unfold synchronized, aborted in H; try contradiction.
  destruct (afterTimeSkew env [] (trace w)) as [after|] eqn:E;
    [|contradiction].
  destruct H as [-> [msg ->]]. split; [reflexivity|].
  split; [|split; assumption].
  destruct (afterTimeSkew_Some env _ [] _ pre c rest E Htr Hc Hf)
    as [->|[mid Hmid]]; [eauto|].
  destruct mid as [|m [|m' mid]]; cbn [app] in Hmid.
  - injection Hmid as <- _. discriminate.
  - injection Hmid as _ Hmid. discriminate.
  - injection Hmid as _ Hmid. discriminate.
Qed.

(** * Runs on the test vectors *)

Example expire_tick_on_leader :
  proposals (trace (snd (mainLoop env_leader
                           [secondTicker; expireSessionsTimer] world0)))
  = [(mkMessage 7 DeleteSession "", 10000000000);
     (mkMessage 9 DeleteSession "", 10000000000)].
Proof. reflexivity. Qed.

Lemma expire_tick_proposes_witness :
  exists ext,
    mainLoop env_leader ([secondTicker] ++ [expireSessionsTimer]) world0
    = loop env_leader []
        (extend (time_After (10 * Second) :: node_State :: ext)
                (snd (mainLoop env_leader [secondTicker] world0))) /\
    exists calls,
      ext = ircServer_ExpireSessions :: calls /\
      proposals calls
      = [(mkMessage 7 DeleteSession "", 10 * Second);
         (mkMessage 9 DeleteSession "", 10 * Second)].
Proof.
  destruct (expire_tick_proposes env_leader [secondTicker] [] world0
              (snd (mainLoop env_leader [secondTicker] world0)) eq_refl)
    as (_ & _ & ext & E & calls & Ec & P & _).
  exists ext. split; [exact E|]. exists calls. split; [exact Ec | exact P].
Defined.

Lemma shutdown_is_fatal_witness :
  fst (mainLoop env_shutdown [secondTicker; expireSessionsTimer] world0)
  = Exit 1.
Proof.
  exact (f_equal fst
           (proj1 (shutdown_is_fatal env_shutdown [] [expireSessionsTimer]
                     world0 (snd (mainLoop env_shutdown [] world0))
                     eq_refl eq_refl))).
Defined.

Lemma joinMaster_redirects_and_adds_once_witness :
  joinMaster env_redirect 2 "a:443" world0
    = joinMaster env_redirect 1 "b:443"
        (record (url_Parse "https://b:443/join") (sent "a:443" world0)) /\
  exists w', joinMaster env0 1 "m:443" world0 = (Ok ["m:443"], w') /\
             peers_json w' = ["m:443"].
Proof.
  split.
  - refine (proj1 (proj2 (proj2
      (joinMaster_redirects_and_adds_once env_redirect 1 "a:443" world0
         (mkResponse 307 "https://b:443/join" "") _))) _ _ _).
    + repeat split.
    + cbn. lia.
    + discriminate.
    + reflexivity.
  - destruct (proj2 (proj2 (proj2
      (joinMaster_redirects_and_adds_once env0 0 "m:443" world0
         (mkResponse 200 "" "")
         (conj eq_refl (conj eq_refl (conj eq_refl eq_refl))))))
      ltac:(cbn; lia) eq_refl)
      as (w' & E & _ & _ & _ & P).
    exists w'. split; [exact E | exact (P eq_refl)].
Defined.

(** A join that succeeds on a peers.json that names the master twice
    leaves it there twice. *)
Lemma joinMaster_keeps_duplicates :
  fst (joinMaster env0 1 "m:443" world_twice) = Ok ["m:443"; "m:443"] /\
  peers_json (snd (joinMaster env0 1 "m:443" world_twice))
    = ["m:443"; "m:443"] /\
  count_occ string_dec
            (peers_json (snd (joinMaster env0 1 "m:443" world_twice)))
            "m:443" <> 1%nat.
Proof. vm_compute. repeat split. discriminate. Qed.

Lemma peer_check_outcomes_witness :
  fst (main env0 1 [] world_self) = Exit 1 /\
  fst (main env_skew 1 [] world_peers) = Exit 1.
Proof.
  split.
  - refine (f_equal fst
      (proj1 (proj2
         (peer_check_outcomes env0 1 [] world_self
            (snd (seq (untilCheckPeers env0) world_self))
            eq_refl eq_refl eq_refl _ eq_refl))
         _)); vm_compute; reflexivity.
  - assert (F : forall h a p pw, fails env_skew h
                  (timesafeguard_SynchronizedWithNetwork a p pw) = true)
      by reflexivity.
    destruct (peer_check_outcomes env_skew 1 [] world_peers
                (snd (seq (untilCheckPeers env_skew) world_peers))
                eq_refl eq_refl eq_refl ltac:(vm_compute; reflexivity) eq_refl)
      as (_ & _ & H).
    rewrite H; [|vm_compute; discriminate | vm_compute; discriminate].
    rewrite F. reflexivity.
Defined.

Lemma deletestate_wipes_before_init_witness :
  exists w,
    main env0 1 [] world_sentinel = seq (initialization env0 1 []) w /\
    datadir w = Some [] /\ peers_json w = [].
Proof.
  assert (F : forall h c, fails env0 h c = false) by reflexivity.
  destruct (deletestate_wipes_before_init env0 1 [] world_sentinel
              eq_refl eq_refl) as (_ & _ & _ & _ & _ & H).
  specialize (H eq_refl (F _ _)). rewrite !F in H.
  eexists. split; [exact H | split; reflexivity].
Defined.

Lemma network_password_fallback_witness :
  fst (main env0 1 [] world_nopw) = Exit 1 /\
  exists addr,
    In (rafthttp_NewHTTPTransport addr "from-env")
       (trace (snd (main env_password 1 [] world_nopw))).
Proof.
  split.
  - exact (proj1 (proj2 (proj2
      (network_password_fallback env0 1 [] world_nopw eq_refl eq_refl))
      eq_refl eq_refl)).
  - refine (proj1 (proj2
      (network_password_fallback env_password 1 [] world_nopw
         eq_refl eq_refl))
      _ _ (snd (seq (untilCheckFlags env_password) world_nopw)) _).
    + discriminate.
    + discriminate.
    + vm_compute. reflexivity.
Defined.

Lemma snapshot_store_retains_five_witness :
  In (raft_NewFileSnapshotStoreWithLogger "/var/lib/robustirc" 5)
     (trace (snd (main env0 1 [secondTicker] world_single))) /\
  (length (persistSnapshot 5 ["s6"; "s5"; "s4"; "s3"; "s2"; "s1"] "s7") <= 5)%nat.
Proof.
  assert (H : In (raft_NewFileSnapshotStoreWithLogger "/var/lib/robustirc" 5)
                 (trace (snd (main env0 1 [secondTicker] world_single))))
    by (vm_compute; tauto).
  split; [exact H|].
  exact (proj2 (proj2
    (snapshot_store_retains_five env0 1 [secondTicker] world_single
       "/var/lib/robustirc" 5 eq_refl H))
    ["s6"; "s5"; "s4"; "s3"; "s2"; "s1"] "s7").
Defined.

Lemma timeskew_aborts_witness :
  fst (main env_skew 1 [] world_peers) = Exit 1.
Proof.
  refine (proj1
    (timeskew_aborts env_skew 1 [] world_peers
       (firstn 12 (trace (snd (main env_skew 1 [] world_peers))))
       (timesafeguard_SynchronizedWithNetwork "n1:60667"
          ["n1:60667"; "n2:60667"; "n3:60667"] "secret")
       [log_Print "timesafeguard"]
       eq_refl _ eq_refl _)).
  - vm_compute. reflexivity.
  - vm_compute. reflexivity.
Defined.

(** * Clean-up of the data directory *)

Lemma peers_json_with_datadir d w :
  peers_json (with_datadir d w) = peers_json w.
Proof. reflexivity. Qed.

#[local] Hint Rewrite peers_json_with_datadir : world.

Lemma without_nil d : without [] d = d.
Proof.
  destruct d as [l|]; [|reflexivity]. cbn.
  f_equal. induction l as [|x l IH]; cbn; congruence.
Qed.

Lemma without_snoc gone name d :
  remove_entry name (without gone d) = without (gone ++ [name]) d.
Proof.
  destruct d as [l|]; [|reflexivity]. cbn. f_equal.
  induction l as [|x l IH]; cbn [filter]; [reflexivity|].
  rewrite existsb_app. cbn [existsb]. rewrite orb_false_r.
  destruct (existsb (String.eqb x) gone); cbn [negb orb filter].
  - exact IH.
  - destruct (String.eqb x name); cbn [negb]; [exact IH | f_equal; exact IH].
Qed.

(** The loop removes the compaction databases one after the other and
    stops at the first that cannot be removed. *)
Lemma removeCompactionDatabases_run env tmpdir names : forall gone d0 w,
  datadir w = without gone d0 ->
  exists done rest err,
    filter isCompactionDatabase names = done ++ rest /\
    removeCompactionDatabases env tmpdir names w
      = (Ok err,
         with_datadir (without (gone ++ done) d0)
           (extend (map (removal tmpdir) (done ++ firstn 1 rest)) w)) /\
    (if err then rest <> [] else rest = []).
Proof.
  induction names as [|name names IH]; intros gone d0 w Hd.
  - exists [], [], false. cbn. rewrite app_nil_r, <- Hd.
    repeat split. unfold ret. f_equal. rewrite extend_nil. destruct w; reflexivity.
  - cbn [removeCompactionDatabases filter].
    fold (isCompactionDatabase name).
    destruct (isCompactionDatabase name) eqn:C.
    + run. fold (removal tmpdir name).
      destruct (fails env (trace w) (removal tmpdir name)) eqn:E.
      * exists [], (name :: filter isCompactionDatabase names), true.
        cbn [app firstn map]. rewrite app_nil_r.
        repeat split; [|discriminate].
        f_equal. rewrite <- Hd. rewrite record_extend.
        destruct w; reflexivity.
      * cbv beta iota.
        match goal with
        | |- context [removeCompactionDatabases env tmpdir names ?w1] =>
            destruct (IH (gone ++ [name]) d0 w1) as (done & rest & err & F & R & K)
        end.
        { autorewrite with world. rewrite Hd. apply without_snoc. }
        exists (name :: done), rest, err.
        split; [cbn [app]; f_equal; exact F|].
        split; [|exact K].
        rewrite R. f_equal. rewrite <- app_assoc. cbn [app map].
        unfold with_datadir, extend, record.
        cbn [flags datadir peers_json trace].
        rewrite <- app_assoc. reflexivity.
    + destruct (IH gone d0 w Hd) as (done & rest & err & F & R & K).
      exists done, rest, err. auto.
Qed.

Lemma filter_compaction l :
  filter (fun n => negb (existsb (String.eqb n)
                                 (filter isCompactionDatabase l))) l
  = filter (fun n => negb (isCompactionDatabase n)) l.
Proof.
  apply filter_ext_in. intros n Hn. f_equal.
  destruct (isCompactionDatabase n) eqn:C.
  - apply existsb_exists. exists n. split; [|apply String.eqb_refl].
    apply filter_In. split; assumption.
  - apply not_true_is_false. intros H. apply existsb_exists in H.
    destruct H as (x & Hx & E). apply String.eqb_eq in E. subst x.
    apply filter_In in Hx. destruct Hx as [_ Hx]. congruence.
Qed.

Lemma without_nothing ext w :
  with_datadir (without [] (datadir w)) (extend ext w) = extend ext w.
Proof. rewrite without_nil. destruct w; reflexivity. Qed.

Lemma deleteOldCompactionDatabases_run env tmpdir w :
  exists err gone ext,
    deleteOldCompactionDatabases env tmpdir w
      = (Ok err,
         with_datadir (without gone (datadir w))
                      (extend (os_Open tmpdir :: ext) w)) /\
    (err = false ->
     gone = match datadir w with
            | Some l => filter isCompactionDatabase l
            | None => []
            end /\
     datadir w <> None /\
     ext = Readdirnames tmpdir :: map (removal tmpdir) gone) /\
    Forall (fun n => isCompactionDatabase n = true) gone /\
    Forall (fun c => c = Readdirnames tmpdir \/
                     exists name, c = removal tmpdir name /\
                                  isCompactionDatabase name = true) ext.
Proof.
  unfold deleteOldCompactionDatabases. run. rewrite datadir_record.
  destruct (datadir w) as [entries|] eqn:D.
  - destruct (fails env (trace w) (os_Open tmpdir)).
    + exists true, [], []. rewrite <- D, without_nothing.
      repeat split; try discriminate; constructor.
    + cbv beta iota. autorewrite with world.
      destruct (fails env (trace w ++ [os_Open tmpdir]) (Readdirnames tmpdir)).
      * exists true, [], [Readdirnames tmpdir]. rewrite <- D, without_nothing.
        split; [worlds; reflexivity|].
        repeat split; try discriminate; repeat constructor.
      * match goal with
        | |- context [removeCompactionDatabases env tmpdir entries ?w1] =>
            destruct (removeCompactionDatabases_run env tmpdir entries
                        [] (datadir w) w1)
              as (done & rest & err & F & R & K)
        end.
        { autorewrite with world. rewrite without_nil. reflexivity. }
        exists err, done,
          (Readdirnames tmpdir :: map (removal tmpdir) (done ++ firstn 1 rest)).
        assert (G : Forall (fun n => isCompactionDatabase n = true)
                           (done ++ rest)).
        { rewrite <- F. apply Forall_forall. intros n Hn.
          apply filter_In in Hn. apply Hn. }
        apply Forall_app in G. destruct G as [G1 G2].
        split; [|split; [|split]].
        -- rewrite R, <- D. f_equal. cbn [app].
           unfold with_datadir, extend, record.
           cbn [flags datadir peers_json trace].
           rewrite <- !app_assoc. reflexivity.
        -- intros ->. subst rest. rewrite app_nil_r in F.
           cbn [firstn]. rewrite app_nil_r.
           repeat split; [symmetry; exact F | discriminate].
        -- exact G1.
        -- apply Forall_cons; [left; reflexivity|].
           apply Forall_forall. intros c Hc. right.
           apply in_map_iff in Hc. destruct Hc as (n & <- & Hn).
           exists n. split; [reflexivity|].
           apply in_app_or in Hn. destruct Hn as [Hn|Hn].
           ++ rewrite Forall_forall in G1. auto.
           ++ rewrite Forall_forall in G2. apply G2.
              destruct rest as [|x rest]; [destruct Hn|].
              destruct Hn as [<-|[]]. left. reflexivity.
  - exists true, [], []. rewrite <- D, without_nothing.
    destruct (fails env (trace w) (os_Open tmpdir));
      repeat split; try discriminate; constructor.
Qed.

(** X4: when [deleteOldCompactionDatabases] returns no error, the
    directory exists, and afterwards it holds the entries it held
    before except those whose name starts with
    permanent-compaction.sqlite3; the function has opened and listed the
    directory and removed these entries one by one, in the order of the
    listing, and nothing else. *)
Theorem deleteOldCompactionDatabases_nil
    (env : Env) (tmpdir : string) (w : World) :
  fst (deleteOldCompactionDatabases env tmpdir w) = Ok false ->
  let w' := snd (deleteOldCompactionDatabases env tmpdir w) in
  exists entries,
    datadir w = Some entries /\
    datadir w' =
      Some (filter (fun n => negb (isCompactionDatabase n)) entries) /\
    trace w' =
      trace w ++ [os_Open tmpdir; Readdirnames tmpdir]
              ++ map (removal tmpdir) (filter isCompactionDatabase entries) /\
    flags w' = flags w /\ peers_json w' = peers_json w.
Proof.
  destruct (deleteOldCompactionDatabases_run env tmpdir w)
    as (err & gone & ext & R & S & _).
  rewrite R. cbn [fst snd]. intros E. injection E as ->.
  destruct (S eq_refl) as (G & D & X). subst ext.
  destruct (datadir w) as [entries|] eqn:Hd; [|contradiction].
  exists entries. subst gone. autorewrite with world.
  repeat split. cbn [without option_map]. rewrite filter_compaction.
  reflexivity.
Qed.

(** X5: [deleteOldCompactionDatabases] always returns to its caller.
    Whatever fails, the entries that are gone afterwards all have a
    name that starts with permanent-compaction.sqlite3, and the only
    calls are opening and listing the directory and removing such
    entries in it; flags and peer list are not touched. *)
Theorem deleteOldCompactionDatabases_keeps
    (env : Env) (tmpdir : string) (w : World) :
  let r := deleteOldCompactionDatabases env tmpdir w in
  (exists err, fst r = Ok err) /\
  (exists gone,
     datadir (snd r) = without gone (datadir w) /\
     Forall (fun n => isCompactionDatabase n = true) gone) /\
  (exists ext,
     trace (snd r) = trace w ++ os_Open tmpdir :: ext /\
     Forall (fun c => c = Readdirnames tmpdir \/
                      exists name, c = removal tmpdir name /\
                                   isCompactionDatabase name = true) ext) /\
  flags (snd r) = flags w /\ peers_json (snd r) = peers_json w.
Proof.
  destruct (deleteOldCompactionDatabases_run env tmpdir w)
    as (err & gone & ext & R & _ & G & C).
  cbv zeta. rewrite R. cbn [fst snd]. autorewrite with world.
  repeat split; eauto.
Qed.

Lemma deleteOldCompactionDatabases_nil_witness :
  datadir (snd (deleteOldCompactionDatabases env0 "/var/lib/robustirc"
                  world_compaction))
  = Some ["raftlog"; "irclog"].
Proof.
  destruct (deleteOldCompactionDatabases_nil env0 "/var/lib/robustirc"
              world_compaction eq_refl) as (entries & E & D & _).
  injection E as <-. exact D.
Defined.

Lemma filter_gone (P : string -> bool) l :
  filter (fun n => negb (existsb (String.eqb n) (filter P l))) l
  = filter (fun n => negb (P n)) l.
Proof.
  apply filter_ext_in. intros n Hn. f_equal.
  destruct (P n) eqn:C.
  - apply existsb_exists. exists n. split; [|apply String.eqb_refl].
    apply filter_In. split; assumption.
  - apply not_true_is_false. intros H. apply existsb_exists in H.
    destruct H as (x & Hx & E). apply String.eqb_eq in E. subst x.
    apply filter_In in Hx. destruct Hx as [_ Hx]. congruence.
Qed.

Lemma without_without g1 g2 d :
  without g2 (without g1 d) = without (g1 ++ g2) d.
Proof.
  destruct d as [l|]; [|reflexivity]. cbn [without option_map]. f_equal.
  induction l as [|x l IH]; cbn [filter]; [reflexivity|].
  rewrite existsb_app.
  destruct (existsb (String.eqb x) g1); cbn [negb orb filter]; [exact IH|].
  destruct (existsb (String.eqb x) g2); cbn [negb]; [exact IH|].
  f_equal. exact IH.
Qed.

(** X6: the start-up goes on after the clean-up of old databases exactly
    when [outputstream.DeleteOldDatabases] returned no error, whatever
    [deleteOldCompactionDatabases] returned; otherwise the process exits
    with code 1 and [deleteOldCompactionDatabases] is not called.  When
    it goes on, every entry that is gone from the data directory is an
    old output stream database or a compaction database. *)
Theorem deleteOldDatabases_continues (env : Env) (w : World) :
  let c := outputstream_DeleteOldDatabases (raftDir (flags w)) in
  let r := deleteOldDatabases env w in
  (fails env (trace w) c = true ->
   r = (Exit 1,
        extend [c; log_Print "Could not delete old outputstream databases"]
               w)) /\
  (fails env (trace w) c = false ->
   fst r = Ok tt /\
   exists gone,
     datadir (snd r) = without gone (datadir w) /\
     Forall (fun n => isOldDatabase env n = true \/
                      isCompactionDatabase n = true) gone).
Proof.
  intros c r.
  set (w1 := with_datadir
               match datadir w with
               | Some l => Some (filter (fun n => negb (isOldDatabase env n)) l)
               | None => None
               end (record c w)).
  assert (Eq : r = if fails env (trace w) c
                   then log_Fatal "Could not delete old outputstream databases"
                                  (record c w)
                   else bind (deleteOldCompactionDatabases env (raftDir (flags w)))
                             (fun err => when err
                                (emit (log_Print "Could not delete old compaction databases (ignoring)")))
                             w1).
  { subst r w1 c. unfold deleteOldDatabases. run.
    destruct (fails env (trace w) _); reflexivity. }
  rewrite Eq. clear Eq r.
  split; intros E; rewrite E.
  - run. worlds. reflexivity.
  - destruct (deleteOldCompactionDatabases_run env (raftDir (flags w)) w1)
      as (err & gone & ext & R & _ & G & _).
    unfold bind. rewrite R. subst w1.
    autorewrite with world.
    split; [destruct err; reflexivity|].
    exists (match datadir w with
            | Some l => filter (isOldDatabase env) l
            | None => []
            end ++ gone).
    split.
    + replace (datadir (snd _)) with
        (without gone
           match datadir w with
           | Some l => Some (filter (fun n => negb (isOldDatabase env n)) l)
           | None => None
           end) by (destruct err; reflexivity).
      rewrite <- without_without. f_equal.
      destruct (datadir w) as [l|]; [|reflexivity].
      cbn [without option_map]. rewrite filter_gone. reflexivity.
    + apply Forall_app. split.
      * destruct (datadir w) as [l|]; [|constructor].
        apply Forall_forall. intros n Hn. apply filter_In in Hn. left. apply Hn.
      * eapply Forall_impl; [|exact G]. intros n Hn. right. exact Hn.
Qed.

(** * The peer list of a join, the end of the main loop *)

Lemma peers_json_with_flags f w : peers_json (with_flags f w) = peers_json w.
Proof. reflexivity. Qed.
Lemma peers_json_with_peers_json p w : peers_json (with_peers_json p w) = p.
Proof. reflexivity. Qed.

#[local] Hint Rewrite peers_json_with_flags peers_json_with_peers_json : world.

Lemma none_snoc A t c : none A t -> A c = false -> none A (t ++ [c]).
Proof.
  unfold none. intros H Hc. apply Forall_app.
  split; [exact H | apply Forall_cons; [exact Hc | apply Forall_nil]].
Qed.

Lemma none_app A t ext : none A t -> none A ext -> none A (t ++ ext).
Proof. unfold none. intros H1 H2. apply Forall_app. split; assumption. Qed.

Ltac none_goal :=
  rewrite <- ?app_assoc; cbn [app];
  first [ assumption
        | apply none_app;
          [assumption
          | unfold none; repeat (apply Forall_cons; [reflexivity|]);
            apply Forall_nil] ].

Ltac flat_in H :=
  autorewrite with world in H;
  repeat rewrite <- app_assoc in H; cbn [app] in H.

Ltac unwritten_goal :=
  unfold unwritten; eexists; split; [worlds; reflexivity | none_goal].

Lemma joinMaster_rel env w0 fuel : forall addr ext,
  none isSetPeers ext ->
  joined env w0 (fst (joinMaster env fuel addr (extend ext w0)))
                (snd (joinMaster env fuel addr (extend ext w0))).
Proof.
  induction fuel as [|fuel IH]; intros addr ext Hn.
  - cbn. unwritten_goal.
  - cbn [joinMaster]. run.
    destruct (fails env (trace (extend ext w0)) (json_Marshal _)) eqn:E1;
      cbv beta iota; [cbn [fst snd joined]; split; [reflexivity|unwritten_goal]|].
    destruct (fails env _ (http_NewRequest _ _)) eqn:E2;
      cbv beta iota; [cbn [fst snd joined]; split; [reflexivity|unwritten_goal]|].
    destruct (fails env _ (client_Do _)) eqn:E3;
      cbv beta iota; [cbn [fst snd joined]; split; [reflexivity|unwritten_goal]|].
    destruct (StatusCode _ >? 399) eqn:E4;
      cbv beta iota; [cbn [fst snd joined]; split; [reflexivity|unwritten_goal]|].
    destruct (StatusCode _ >? 299) eqn:E5; cbv beta iota.
    + destruct (is_empty _) eqn:E6;
        cbv beta iota; [cbn [fst snd joined]; split; [reflexivity|unwritten_goal]|].
      destruct (fails env _ (url_Parse _)) eqn:E7;
        cbv beta iota; [cbn [fst snd joined]; split; [reflexivity|unwritten_goal]|].
      worlds. apply IH. none_goal.
    + destruct (fails env _ peerStore_Peers) eqn:E8;
        cbv beta iota; [cbn [fst snd joined]; split; [reflexivity|unwritten_goal]|].
      cbn [fst snd joined].
      exists addr, (ext ++ [json_Marshal (peerAddr (flags (extend ext w0)));
                            http_NewRequest "POST" (join_url addr)]).
      cbv zeta.
      flat_in E3. flat_in E4. flat_in E5. flat_in E8.
      autorewrite with world. worlds.
      rewrite <- ?app_assoc. cbn [app].
      split; [none_goal|].
      split; [exact E3|].
      split; [rewrite Z.gtb_ltb in E5; apply Z.ltb_ge in E5; exact E5|].
      split; [exact E8|].
      split; [reflexivity|].
      destruct (fails env _ (peerStore_SetPeers _)); same_world.
Qed.

(** X7: [joinMaster] writes peers.json at most once, as the last thing
    it does.  When it returns a list, a request to [host] was answered
    with a status of at most 299, the list is what the peer store held
    when it was read after that answer, with [host] added by
    [AddUniquePeer], and the call of [SetPeers] with that list is the
    last call and the only write: unless it failed, peers.json holds
    the list and is in the data directory.  However else it ends, it
    is an exit with code 1, or the end of the fuel, and the world is
    the one it started in but for the calls made, none of them a
    write of peers.json. *)
Theorem joinMaster_writes_last
    (env : Env) (fuel : nat) (addr : string) (w : World) :
  let r := joinMaster env fuel addr w in
  match fst r with
  | Ok p =>
      exists host pre,
        let asked := trace w ++ pre in
        let w1 := extend (pre ++ [client_Do (join_url host);
                                  log_Print "Adding master as peer"]) w in
        let w2 := extend [peerStore_Peers] w1 in
        none isSetPeers pre /\
        fails env asked (client_Do (join_url host)) = false /\
        StatusCode (response env asked (join_url host)) <= 299 /\
        fails env (trace w1) peerStore_Peers = false /\
        p = AddUniquePeer (stored env w1) host /\
        snd r = (if fails env (trace w2) (peerStore_SetPeers p)
                 then extend [peerStore_SetPeers p] w2
                 else with_datadir (add_entry "peers.json" (datadir w))
                        (with_peers_json p
                           (extend [peerStore_SetPeers p] w2)))
  | Exit c => c = 1 /\ unwritten w (snd r)
  | OutOfFuel => unwritten w (snd r)
  end.
Proof.
  cbv zeta.
  pose proof (joinMaster_rel env w fuel addr [] (Forall_nil _)) as J.
  rewrite extend_nil in J. exact J.
Qed.

Lemma len_pos {A} (l : list A) x : In x l -> (len l >? 0) = true.
Proof.
  intros H. destruct l as [|y l]; [destruct H|].
  unfold len. cbn [length]. apply Z.gtb_lt. lia.
Qed.

(** X8: without -join, lines 520-531 call nothing.  With -join, the
    first call is the time-safeguard check against the master, with
    the node's peer address and the cluster password; and when the
    block goes on, its last five calls are the join request to [host]
    that was answered with a status of at most 299, the log line, the
    read of the peer store, the write of peers.json and
    [node.SetPeers], the last two with the list that was read with
    [host] added by [AddUniquePeer], which holds [host]; nothing else
    was written to peers.json. *)
Theorem join_hands_peers_to_raft (env : Env) (fuel : nat) (w : World) :
  let f := flags w in
  let r := joinNetwork env fuel w in
  let check := timesafeguard_SynchronizedWithMasterAndNetwork
                 (peerAddr f) (join f) (networkPassword f) in
  (join f = "" -> r = (Ok tt, w)) /\
  (join f <> "" ->
   (exists rest, trace (snd r) = trace w ++ check :: rest) /\
   (fst r = Ok tt ->
    fails env (trace w) check = false /\
    exists pre host p,
      let asked := trace w ++ check :: pre in
      let w1 := extend (check :: pre ++
                          [client_Do (join_url host);
                           log_Print "Adding master as peer"]) w in
      trace (snd r)
        = trace w1 ++ [peerStore_Peers; peerStore_SetPeers p;
                       node_SetPeers p] /\
      none isSetPeers pre /\
      fails env asked (client_Do (join_url host)) = false /\
      StatusCode (response env asked (join_url host)) <= 299 /\
      p = AddUniquePeer (stored env w1) host /\ In host p)).
Proof.
  intros f r check. subst r. unfold joinNetwork.
  rewrite (bind_Ok getFlags _ w (flags w) w eq_refl). fold f.
  split.
  - intros E. rewrite E. reflexivity.
  - intros N. apply is_empty_false in N. rewrite N. cbn [negb].
    fold check. unfold must. run.
    destruct (fails env (trace w) check) eqn:C.
    + cbn [fst snd]. split; [|discriminate].
      autorewrite with world. rewrite <- app_assoc. cbn [app].
      eexists. reflexivity.
    + cbv beta iota.
      pose proof (joinMaster_rel env (record check w) fuel (join f) []
                    (Forall_nil _)) as J.
      rewrite extend_nil in J.
      destruct (joinMaster env fuel (join f) (record check w))
        as [[p|c|] w1]; cbn [fst snd joined] in *.
      * destruct J as (host & pre & Np & Ed & Es & _ & Ep & Ew).
        assert (Hin : In host p) by (rewrite Ep; apply AddUniquePeer_In).
        rewrite (len_pos p host Hin). cbn [fst snd].
        rewrite extend_record in Ep.
        autorewrite with world in Ed, Es.
        rewrite <- app_assoc in Ed, Es. cbn [app] in Ed, Es.
        assert (T : trace w1
                    = trace w ++ check :: pre ++
                        [client_Do (join_url host);
                         log_Print "Adding master as peer";
                         peerStore_Peers; peerStore_SetPeers p]).
        { clear - Ew. subst w1.
          destruct (fails env _ (peerStore_SetPeers p));
            autorewrite with world; repeat rewrite <- app_assoc;
            cbn [app]; reflexivity. }
        autorewrite with world. rewrite T, <- !app_assoc. cbn [app].
        split; [eexists; reflexivity|]. intros _.
        split; [reflexivity|].
        exists pre, host, p. cbv zeta.
        autorewrite with world. rewrite <- ?app_assoc. cbn [app].
        rewrite <- ?app_assoc. cbn [app].
        repeat split; try assumption.
      * split; [|discriminate].
        destruct J as (_ & ext & Ew & _). rewrite Ew.
        autorewrite with world. rewrite <- !app_assoc. cbn [app].
        eexists. reflexivity.
      * split; [|discriminate].
        destruct J as (ext & Ew & _). rewrite Ew.
        autorewrite with world. rewrite <- !app_assoc. cbn [app].
        eexists. reflexivity.
Qed.

Lemma selectCase_outcome env c w :
  (exists w', selectCase env c w = (Ok tt, w')) \/
  (raftState env (trace w) = Shutdown /\
   selectCase env c w = (Exit 1, extend [node_State; log_Print removed] w)).
Proof.
  destruct c; cbn [selectCase].
  - run. destruct (raftState env (trace w)) eqn:S; cbn [RaftState_eqb];
      try (left; eexists; reflexivity).
    right. split; [reflexivity|]. worlds. reflexivity.
  - left. run.
    destruct (negb (RaftState_eqb _ Leader)); [eexists; reflexivity|].
    match goal with
    | |- context [applyMessages env ?ms ?w1] =>
        destruct (applyMessages_proposes env ms w1) as (ext & E & _)
    end.
    rewrite E. eexists. reflexivity.
Qed.

Lemma loop_outcome env sched : forall w,
  (exists w', loop env sched w = (Ok tt, w')) \/
  (exists pre w',
     loop env sched w = (Exit 1, w') /\
     trace w' = pre ++ [node_State; log_Print removed] /\
     raftState env pre = Shutdown).
Proof.
  induction sched as [|c rest IH]; intros w; cbn [loop].
  - left. eexists. reflexivity.
  - unfold bind.
    destruct (selectCase_outcome env c w) as [(w1 & E)|(S & E)]; rewrite E.
    + apply IH.
    + right. exists (trace w). eexists. split; [reflexivity|].
      split; [reflexivity | exact S].
Qed.

(** X9: the main loop ends in one way only: an exit with code 1 whose
    last two calls are [node.State()], which answered Shutdown, and the
    log line of the removal.  It goes on through every failed proposal,
    and through every schedule of ticks on a node whose state is never
    Shutdown. *)
Theorem mainLoop_ends_on_shutdown_only
    (env : Env) (sched : list Chan) (w : World) :
  let r := mainLoop env sched w in
  (forall c, fst r = Exit c ->
     c = 1 /\
     exists pre,
       trace (snd r) = pre ++ [node_State; log_Print removed] /\
       raftState env pre = Shutdown) /\
  fst r <> OutOfFuel /\
  ((forall h, raftState env h <> Shutdown) -> fst r = Ok tt).
Proof.
  intros r. subst r. unfold mainLoop. run.
  match goal with
  | |- context [loop env sched ?w1] =>
      destruct (loop_outcome env sched w1)
        as [(w' & E)|(pre & w' & E & T & S)]
  end; rewrite E; cbn [fst snd].
  - repeat split; try discriminate.
  - split; [|split; [discriminate|]].
    + intros c Hc. injection Hc as <-. split; [reflexivity|].
      exists pre. split; assumption.
    + intros H. destruct (H pre S).
Qed.

(** * The modes of a run *)

Lemma preserves_getFlags X F (I : World -> Prop) (Pf : Flags -> Prop)
    {B} (k : Flags -> Proc B) :
  (forall w, I w -> Pf (flags w)) ->
  (forall f, Pf f -> preserves X F I (k f)) ->
  preserves X F I (bind getFlags k).
Proof.
  intros H1 H2 w HI. unfold bind, getFlags.
  exact (H2 (flags w) (H1 w HI) w HI).
Qed.

(** Bring what is known of the conditions into the form of equations
    between strings and booleans. *)
Ltac conditions :=
  repeat match goal with
         | H : _ /\ _ |- _ => destruct H
         | H : _ && _ = true |- _ => apply andb_true_iff in H
         | H : negb _ = true |- _ => apply negb_true_iff in H
         | H : negb _ = false |- _ => apply negb_false_iff in H
         | H : is_empty _ = true |- _ => apply is_empty_true in H
         | H : is_empty _ = false |- _ => apply is_empty_false in H
         end.

Ltac in_trace :=
  solve [repeat (apply in_or_app;
                 first [solve [right; left; reflexivity] | left])].

Ltac permitted_goal :=
  unfold permitted; cbv zeta;
  cbn [afterFlags isCanary afterCanary isJoining isJoinCall arguments];
  repeat match goal with
         | |- _ /\ _ => split
         | |- _ -> _ => intro
         end;
  unfold raftConfig;
  try discriminate; try assumption; try reflexivity;
  try congruence;
  try solve [left; congruence]; try solve [right; congruence];
  try solve [eexists; split;
             [subst; reflexivity | unfold isCompactionDatabase; assumption]].

(** peers.json stays as it is under calls that do not write it. *)
Ltac kept_goal :=
  match goal with
  | K : _ \/ _ /\ In _ _ |- _ \/ _ =>
      destruct K as [K|[K K']];
      [left; exact K
      |right; split; [exact K | repeat (apply in_or_app; left); exact K']]
  end.

Ltac modes_goal :=
  cbn [fst snd post];
  unfold set_log_dir, set_networkPassword, set_peerAddr in *;
  autorewrite with world in *;
  cbn [raftDir listen version singleNode join dumpCanaryState
       dumpHeapProfile canaryCompactionStart network peerAddr tlsCertPath
       tlsKeyPath networkPassword log_dir DisableTimesafeguard] in *;
  conditions;
  repeat match goal with
         | |- _ /\ _ => split
         | |- Forall _ (_ ++ [_]) => apply Forall_snoc
         end;
  try assumption; try reflexivity; try congruence;
  try solve [permitted_goal];
  try solve [intros; congruence];
  try solve [left; reflexivity];
  try solve [kept_goal];
  try solve [right; split; [reflexivity | left; congruence]];
  try solve [right; split; [reflexivity|]; right;
             match goal with
             | E : dumpCanaryState _ = dumpCanaryState _ |- _ => rewrite E
             end; in_trace].

Ltac modes_block :=
  unfold invariant, preserves, triple, st_begin, st_run, st_start, st_check,
    st_init, st_serving, ends, kept, none, static, same_flags in *;
  intros w H; run; branches_eqn; modes_goal.

(** As [by_structure], keeping the conditions of the branches. *)
Ltac by_structure_eqn leaf :=
  unfold invariant in *;
  repeat first
    [ solve [leaf]
    | solve [auto]
    | apply preserves_bind; [|intros ?]
    | match goal with
      | |- preserves _ _ _ (if ?b then _ else _) => destruct b eqn:?
      | |- preserves _ _ _ (match ?o with Some _ => _ | None => _ end) =>
          destruct o eqn:?
      end
    | progress cbv zeta
    | progress unfold when ].

Section ModesOfMain.

Variable env : Env.
Variable w0 : World.

Local Abbreviation X := (ends env w0).
Local Abbreviation F := (st_serving env w0).

Lemma parseFlags_modes :
  triple X F (st_begin env w0) (parseFlags env) (fun _ => st_start env w0).
Proof. unfold parseFlags. modes_block. Qed.

Lemma versionFlag_modes :
  triple X F (st_start env w0) versionFlag (fun _ => st_run env w0).
Proof. unfold versionFlag. modes_block. Qed.

Lemma deleteState_modes :
  preserves X F (st_run env w0) (deleteState env).
Proof.
  unfold deleteState. modes_block.
  all: right; split; [reflexivity|];
    match goal with
    | E : raftDir (flags w0) = raftDir (flags _) |- _ => rewrite E
    end; in_trace.
Qed.

Lemma checkFlags_modes :
  triple X F (st_run env w0) (checkFlags env) (fun _ => st_check env w0).
Proof.
  unfold checkFlags. modes_block.
  all: unfold address;
    match goal with
    | E : peerAddr (flags _) = peerAddr (flags w0) |- _ => rewrite <- E
    end;
    match goal with
    | E : peerAddr _ = "" |- _ => rewrite E; cbn; congruence
    | E : peerAddr _ <> "" |- _ =>
        apply is_empty_false in E; rewrite E; reflexivity
    end.
Qed.

Lemma newServer_modes : preserves X F (st_check env w0) (newServer env).
Proof. unfold newServer. modes_block. Qed.

Lemma checkPeers_modes :
  triple X F (st_check env w0) (checkPeers env) (fun _ => st_init env w0).
Proof.
  unfold checkPeers, triple. intros w H.
  assert (S : stored env w = peers_json w).
  { unfold stored. rewrite raftRunning_none; [reflexivity | apply H]. }
  revert w H S.
  unfold st_check, st_init, ends, kept, none, static, same_flags.
  intros w H S; run.
  destruct (is_empty (join (flags w)) && negb (singleNode (flags w))) eqn:C;
    cbv beta iota; [rewrite S|modes_goal].
  destruct H as (H & [K|[K _]] & _).
  - branches_eqn; modes_goal.
  - rewrite K. branches_eqn; modes_goal.
Qed.

Lemma setupRaft_modes : preserves X F (st_init env w0) (setupRaft env).
Proof. unfold setupRaft. modes_block. Qed.

Lemma dumpCanary_modes :
  triple X F (st_init env w0) (dumpCanary env) (fun _ => st_serving env w0).
Proof. unfold dumpCanary. modes_block. Qed.

Lemma serve_modes : preserves X F (st_serving env w0) (serve env).
Proof. unfold serve. modes_block. Qed.

Lemma removeCompactionDatabases_modes tmpdir names :
  tmpdir = raftDir (flags w0) ->
  preserves X F (st_run env w0) (removeCompactionDatabases env tmpdir names).
Proof.
  intros Hdir.
  induction names as [|name rest IH]; cbn [removeCompactionDatabases];
    by_structure_eqn modes_block.
Qed.

Lemma deleteOldDatabases_modes :
  preserves X F (st_run env w0) (deleteOldDatabases env).
Proof.
  unfold deleteOldDatabases.
  apply preserves_getFlags with (Pf := fun f => raftDir f = raftDir (flags w0)).
  - intros w H. symmetry. apply H.
  - intros f Hf.
    pose proof (removeCompactionDatabases_modes (raftDir f)) as R.
    unfold deleteOldCompactionDatabases.
    by_structure_eqn modes_block.
Qed.

Lemma joinMaster_modes fuel :
  join (flags w0) <> "" ->
  forall addr, preserves X F (st_serving env w0) (joinMaster env fuel addr).
Proof.
  intros Hjoin.
  induction fuel as [|fuel IH]; intros addr; cbn [joinMaster];
    [modes_block|].
  apply preserves_getFlags with (Pf := fun f => peerAddr f = address w0).
  - intros w H. apply H.
  - intros f Hf. by_structure_eqn modes_block.
Qed.

Lemma joinNetwork_modes fuel :
  preserves X F (st_serving env w0) (joinNetwork env fuel).
Proof.
  unfold joinNetwork.
  apply preserves_getFlags
    with (Pf := fun f => peerAddr f = address w0 /\ join f = join (flags w0)).
  - intros w H. split; [apply H | symmetry; apply H].
  - intros f [Hf Hj].
    destruct (is_empty (join f)) eqn:E; cbn [negb].
    + by_structure_eqn modes_block.
    + assert (Hjoin : join (flags w0) <> "").
      { rewrite <- Hj. apply is_empty_false. exact E. }
      pose proof (joinMaster_modes fuel Hjoin) as R.
      by_structure_eqn modes_block.
Qed.

Lemma applyMessages_modes msgs :
  preserves X F (st_serving env w0) (applyMessages env msgs).
Proof.
  induction msgs as [|m rest IH]; cbn [applyMessages];
    by_structure_eqn modes_block.
Qed.

Lemma loop_modes sched :
  preserves X F (st_serving env w0) (loop env sched).
Proof.
  pose proof applyMessages_modes as R.
  induction sched as [|c rest IH]; cbn [loop]; [modes_block|].
  apply preserves_bind; [|intros ?; exact IH].
  destruct c; cbn [selectCase]; by_structure_eqn modes_block.
Qed.

Lemma mainLoop_modes sched :
  preserves X F (st_serving env w0) (mainLoop env sched).
Proof.
  pose proof (loop_modes sched) as R.
  unfold mainLoop. by_structure_eqn modes_block.
Qed.

Lemma main_stages fuel sched :
  triple X F (st_begin env w0) (main env fuel sched)
         (fun _ => st_serving env w0).
Proof.
  unfold main, initialization. cbn [app seq].
  apply triple_bind with (R := fun _ => st_start env w0);
    [apply parseFlags_modes | intros _].
  apply triple_bind with (R := fun _ => st_run env w0);
    [apply versionFlag_modes | intros _].
  apply triple_bind with (R := fun _ => st_run env w0);
    [apply deleteState_modes | intros _].
  apply triple_bind with (R := fun _ => st_run env w0);
    [apply deleteOldDatabases_modes | intros _].
  apply triple_bind with (R := fun _ => st_check env w0);
    [apply checkFlags_modes | intros _].
  apply triple_bind with (R := fun _ => st_check env w0);
    [apply newServer_modes | intros _].
  apply triple_bind with (R := fun _ => st_init env w0);
    [apply checkPeers_modes | intros _].
  apply triple_bind with (R := fun _ => st_init env w0);
    [apply setupRaft_modes | intros _].
  apply triple_bind with (R := fun _ => st_serving env w0);
    [apply dumpCanary_modes | intros _].
  apply triple_bind with (R := fun _ => st_serving env w0);
    [apply serve_modes | intros _].
  apply triple_bind with (R := fun _ => st_serving env w0);
    [apply joinNetwork_modes | intros _].
  apply triple_bind with (R := fun _ => st_serving env w0);
    [apply mainLoop_modes | intros _].
  intros w H. exact H.
Qed.

End ModesOfMain.

(** Every call of a run that starts with an empty trace is permitted,
    and the run ends as its mode says. *)
Lemma main_modes env fuel sched w0 :
  trace w0 = [] ->
  let r := main env fuel sched w0 in
  Forall (permitted env w0) (trace (snd r)) /\
  match fst r with
  | Exit c =>
      c = 1 \/
      c = 0 /\ (version (flags w0) = true \/
                In (canary (dumpCanaryState (flags w0))) (trace (snd r)))
  | _ => version (flags w0) = false /\ network (flags w0) <> "" /\
         dumpCanaryState (flags w0) = ""
  end.
Proof.
  intros Ht r.
  assert (S : st_begin env w0 w0).
  { unfold st_begin, kept. rewrite Ht.
    repeat split; try constructor. reflexivity. }
  pose proof (main_stages env w0 fuel sched w0 S) as H. fold r in H.
  destruct r as [[[]|c|] w]; cbn [fst snd post] in *.
  - destruct H as (_ & Hp & _ & Hv & Hn & Hd). auto.
  - exact H.
  - destruct H as (_ & Hp & _ & Hv & Hn & Hd). auto.
Qed.

(** X10: with -version the process logs the version line and exits
    with code 0: the deletestate sentinel is not looked at, the data
    directory and peers.json are as before, and nothing else is
    called. *)
Theorem version_prints_only
    (env : Env) (fuel : nat) (sched : list Chan) (w0 : World) :
  version (flags w0) = true ->
  let r := main env fuel sched w0 in
  fst r = Exit 0 /\
  datadir (snd r) = datadir w0 /\
  peers_json (snd r) = peers_json w0 /\
  trace (snd r) =
    trace w0 ++
    (if is_empty (log_dir (flags w0))
     then [flag_Set "log_dir" (raftDir (flags w0))] else [])
    ++ [glog_CopyStandardLogTo "INFO";
        log_Print (String.append "RobustIRC " (Version env))].
Proof.
  intros Hv r.
  destruct (parseFlags_world env w0) as (Sf & Hd & Htr).
  assert (Hver : version (flags (snd (parseFlags env w0))) = true).
  { destruct Sf as (_ & _ & V & _). congruence. }
  assert (Hrun : r = (Exit 0, snd (parseFlags env w0))).
  { unfold r, main. cbn [app seq].
    rewrite (bind_Ok _ _ _ _ _ (parseFlags_continues env w0)).
    unfold versionFlag. unfold bind at 1 2. unfold getFlags at 1.
    cbv beta iota. rewrite Hver. reflexivity. }
  rewrite Hrun. cbn [fst snd].
  repeat split; try assumption.
  unfold parseFlags. run. destruct (is_empty _); reflexivity.
Qed.

Lemma version_prints_only_witness :
  fst (main env0 1 [] world_version) = Exit 0 /\
  datadir (snd (main env0 1 [] world_version))
    = Some ["deletestate"; "raftlog"].
Proof.
  destruct (version_prints_only env0 1 [] world_version eq_refl)
    as (E & D & _).
  split; [exact E | exact D].
Defined.

(** The exit codes of [main], from line 312 on. *)
Lemma main_codes
    (env : Env) (fuel : nat) (sched : list Chan) (w0 : World) :
  trace w0 = [] ->
  let r := main env fuel sched w0 in
  let f0 := flags w0 in
  match fst r with
  | Exit c =>
      c = 1 \/
      c = 0 /\
      (version f0 = true \/
       In (canary (dumpCanaryState f0)) (trace (snd r)) /\
       dumpCanaryState f0 <> "" /\ network f0 <> "" /\
       password env w0 <> "")
  | _ => version f0 = false /\ dumpCanaryState f0 = ""
  end.
Proof.
  intros Ht r f0.
  destruct (main_modes env fuel sched w0 Ht) as (P & M).
  destruct (main_calls env fuel sched w0 Ht) as (_ & Pw).
  fold r in P, M, Pw. rewrite Forall_forall in P.
  destruct (fst r) as [[]|c|]; try tauto.
  destruct M as [->|[-> [V|C]]]; [left; reflexivity | |];
    right; (split; [reflexivity|]); [left; exact V|].
  destruct (version f0) eqn:V; [left; reflexivity | right].
  destruct (P _ C) as (A & B & _). cbn in A, B.
  split; [exact C|]. split; [apply B; reflexivity|].
  split; [apply A; reflexivity|].
  intros E. specialize (Pw E V). discriminate.
Qed.

(** X11: the process exits with code 0, 1 or 2 only.  It exits with 2
    exactly when [flag.Parse] rejects the command line, and with 0 on
    -h, both after the usage message and before anything else is
    called.  On a command line that parses to the flags [f] it exits
    with 0 only under -version, or after the canary dump, which needs
    -dump_canary_state, a network name and a cluster password, and
    with 1 otherwise; and a run that goes on into the main loop has
    neither -version nor -dump_canary_state. *)
Theorem process_exit_codes
    (env : Env) (fuel : nat) (sched : list Chan) (cl : CommandLine)
    (w0 : World) :
  trace w0 = [] ->
  let r := process env fuel sched cl w0 in
  match cl with
  | Rejected => r = (Exit 2, extend [flag_Usage] w0)
  | Help => r = (Exit 0, extend [flag_Usage] w0)
  | Parsed f =>
      match fst r with
      | Exit c =>
          c = 1 \/
          c = 0 /\
          (version f = true \/
           In (canary (dumpCanaryState f)) (trace (snd r)) /\
           dumpCanaryState f <> "" /\ network f <> "" /\
           password env (with_flags f w0) <> "")
      | _ => version f = false /\ dumpCanaryState f = ""
      end
  end.
Proof.
  intros Ht r. subst r. unfold process.
  destruct cl as [| |f]; cbn [flag_Parse].
  - run. cbn [fst snd]. worlds. reflexivity.
  - run. cbn [fst snd]. worlds. reflexivity.
  - unfold bind at 1, setFlags. cbv beta iota.
    exact (main_codes env fuel sched (with_flags f w0) Ht).
Qed.

(** X12: a run without -join makes no join request, no time-safeguard
    check against a master, and never writes peers.json or sets the
    peers of the Raft node itself. *)
Theorem no_join_no_requests
    (env : Env) (fuel : nat) (sched : list Chan) (w0 : World) :
  trace w0 = [] -> join (flags w0) = "" ->
  let r := main env fuel sched w0 in
  none isJoining (trace (snd r)).
Proof.
  intros Ht Hj r.
  destruct (main_modes env fuel sched w0 Ht) as (P & _).
  fold r in P.
  unfold none. eapply Forall_impl; [|exact P].
  intros c (_ & _ & _ & J & _).
  destruct (isJoining c); [|reflexivity].
  destruct (J eq_refl). exact Hj.
Qed.

(** X13: with -dump_canary_state the process never listens, serves,
    joins or enters the main loop, and the run is over after the canary
    block: it ends with an exit. *)
Theorem canary_mode_never_serves
    (env : Env) (fuel : nat) (sched : list Chan) (w0 : World) :
  trace w0 = [] -> dumpCanaryState (flags w0) <> "" ->
  let r := main env fuel sched w0 in
  none afterCanary (trace (snd r)) /\ exists c, fst r = Exit c.
Proof.
  intros Ht Hc r.
  destruct (main_modes env fuel sched w0 Ht) as (P & M).
  fold r in P, M. split.
  - unfold none. eapply Forall_impl; [|exact P].
    intros c (_ & _ & A & _).
    destruct (afterCanary c); [|reflexivity].
    destruct (Hc (A eq_refl)).
  - destruct (fst r) as [[]|c|]; [tauto | eauto | tauto].
Qed.

(** X14: what a run removes itself: with [os.Remove] only entries of
    the data directory whose name starts with
    permanent-compaction.sqlite3, and with [os.RemoveAll] only the data
    directory, and only when the deletestate sentinel was there. *)
Theorem main_removes_only
    (env : Env) (fuel : nat) (sched : list Chan) (w0 : World) (p : string) :
  trace w0 = [] ->
  let t := trace (snd (main env fuel sched w0)) in
  (In (os_Remove p) t ->
   exists name, p = Join (raftDir (flags w0)) name /\
                isCompactionDatabase name = true) /\
  (In (os_RemoveAll p) t ->
   p = raftDir (flags w0) /\ sentinel_present w0 = true).
Proof.
  intros Ht t.
  destruct (main_modes env fuel sched w0 Ht) as (P & _).
  destruct (main_calls env fuel sched w0 Ht) as (A & _).
  fold t in P, A. rewrite Forall_forall in P, A.
  split; intros Hin.
  - destruct (P _ Hin) as (_ & _ & _ & _ & G). exact G.
  - destruct (A _ Hin) as [S E]. split; assumption.
Qed.

(** X15: every call that takes the node's own peer address gets
    -peer_addr, or -listen when -peer_addr is empty; the listener and
    the server get -listen. *)
Theorem peer_address_fallback
    (env : Env) (fuel : nat) (sched : list Chan) (w0 : World)
    (c : Call) (a : string) :
  trace w0 = [] ->
  In c (trace (snd (main env fuel sched w0))) ->
  (address_of c = Some a ->
   a = if is_empty (peerAddr (flags w0)) then listen (flags w0)
       else peerAddr (flags w0)) /\
  (c = net_Listen a \/ c = go_srv_Serve a -> a = listen (flags w0)).
Proof.
  intros Ht Hin.
  destruct (main_modes env fuel sched w0 Ht) as (P & _).
  rewrite Forall_forall in P.
  destruct (P _ Hin) as (_ & _ & _ & _ & G).
  split.
  - intros E. fold (address w0).
    destruct c; cbn [address_of] in E; try discriminate;
      injection E as <-; cbn [arguments] in G; tauto.
  - intros [-> | ->]; exact G.
Qed.

(** X16: without -network_name a run that is not a -version run exits
    with code 1 before anything is created: no call beyond the set-up
    of flags and logs, the clean-up of the data directory and the
    look-up of the password. *)
Theorem network_name_required
    (env : Env) (fuel : nat) (sched : list Chan) (w0 : World) :
  trace w0 = [] -> network (flags w0) = "" -> version (flags w0) = false ->
  let r := main env fuel sched w0 in
  fst r = Exit 1 /\ none afterFlags (trace (snd r)).
Proof.
  intros Ht Hn Hv r.
  destruct (main_modes env fuel sched w0 Ht) as (P & M).
  fold r in P, M.
  assert (N : none afterFlags (trace (snd r))).
  { unfold none. eapply Forall_impl; [|exact P].
    intros c (A & _).
    destruct (afterFlags c); [|reflexivity].
    destruct (A eq_refl) as [_ A']. destruct (A' Hn). }
  split; [|exact N].
  destruct (fst r) as [[]|c|]; try tauto.
  destruct M as [->|[_ [V|C]]]; [reflexivity | congruence |].
  unfold none in N. rewrite Forall_forall in N.
  specialize (N _ C). discriminate.
Qed.

(** X17: the time-safeguard check against the network is made only by
    a node started with neither -join nor -singlenode, and against the
    peers of peers.json as it was at the start; the check against a
    master only under -join, and against that master. *)
Theorem timesafeguard_by_mode
    (env : Env) (fuel : nat) (sched : list Chan) (w0 : World)
    (a pw : string) :
  trace w0 = [] ->
  let t := trace (snd (main env fuel sched w0)) in
  (forall peers,
     In (timesafeguard_SynchronizedWithNetwork a peers pw) t ->
     join (flags w0) = "" /\ singleNode (flags w0) = false /\
     peers = peers_json w0) /\
  (forall master,
     In (timesafeguard_SynchronizedWithMasterAndNetwork a master pw) t ->
     master = join (flags w0) /\ master <> "").
Proof.
  intros Ht t.
  destruct (main_modes env fuel sched w0 Ht) as (P & _).
  fold t in P. rewrite Forall_forall in P.
  split.
  - intros peers Hin.
    destruct (P _ Hin) as (_ & _ & _ & _ & G). cbn in G. tauto.
  - intros master Hin.
    destruct (P _ Hin) as (_ & _ & _ & J & G). cbn in J, G.
    destruct G as [_ ->]. split; [reflexivity | apply J; reflexivity].
Qed.

(** ** What has to come first *)

Lemma passed_snoc env A t c : passed env A t -> passed env A (t ++ [c]).
Proof.
  intros (pre & x & rest & -> & Hx & Hf).
  exists pre, x, (rest ++ [c]). rewrite <- app_assoc. auto.
Qed.

Lemma served_snoc t c : served t -> served (t ++ [c]).
Proof. intros (a & H). exists a. apply in_or_app. left. exact H. Qed.

Section Tracking.

Variable Q : list Call -> Prop.
Variable B : Call -> bool.
Hypothesis mono : forall t c, Q t -> Q (t ++ [c]).

Lemma none_only_after t : none B t -> only_after Q B t.
Proof.
  intros H pre c rest -> Hc. unfold none in H.
  apply Forall_app in H. destruct H as [_ H].
  inversion H; subst. congruence.
Qed.

Lemma only_after_snoc t c :
  only_after Q B t -> B c = false \/ Q t -> only_after Q B (t ++ [c]).
Proof.
  intros H Hc pre c' rest E Hc'.
  induction rest as [|x rest _] using rev_ind.
  - apply app_inj_tail in E. destruct E as [-> ->].
    destruct Hc as [Hc|Hc]; [congruence | exact Hc].
  - rewrite app_comm_cons, app_assoc in E. apply app_inj_tail in E.
    destruct E as [E _]. exact (H pre c' rest E Hc').
Qed.

Lemma tracked_snoc t c :
  only_after Q B t /\ Q t -> only_after Q B (t ++ [c]) /\ Q (t ++ [c]).
Proof.
  intros [H1 H2]. split.
  - apply only_after_snoc; auto.
  - apply mono. exact H2.
Qed.

Lemma following_snoc t c :
  only_after Q B t /\ Q t -> only_after Q B (t ++ [c]).
Proof. intros H. apply tracked_snoc. exact H. Qed.

End Tracking.

(** Whatever a block calls once [Q] holds. *)
Ltac tracking_block mono :=
  unfold invariant, preserves, triple, tracking, following;
  intros w H; run; branches; cbn [fst snd post]; autorewrite with world;
  repeat first [ exact H
               | exact (proj1 H)
               | apply (tracked_snoc _ _ mono)
               | apply (following_snoc _ _ mono) ].

(** A block that makes no call in [B]. *)
Ltac quiet_block :=
  unfold invariant, preserves, triple, before, following;
  intros w H; run; branches; cbn [fst snd post];
  autorewrite with world;
  try apply none_only_after;
  unfold none in *;
  repeat (apply Forall_snoc; [|reflexivity]);
  exact H.

(** The server is started before the node turns to its master. *)
Section JoinAfterServe.

Variable env : Env.

Local Abbreviation Q := served.
Local Abbreviation B := isJoining.
Local Abbreviation X := (fun _ : Z => following Q B).
Local Abbreviation F := (following Q B).

Lemma removeCompactionDatabases_before_serve tmpdir names :
  preserves X F (before B) (removeCompactionDatabases env tmpdir names).
Proof.
  induction names as [|name rest IH]; cbn [removeCompactionDatabases];
    by_structure quiet_block.
Qed.

Lemma deleteOldDatabases_before_serve :
  preserves X F (before B) (deleteOldDatabases env).
Proof.
  pose proof removeCompactionDatabases_before_serve as R.
  unfold deleteOldDatabases, deleteOldCompactionDatabases.
  by_structure quiet_block.
Qed.

Lemma joinMaster_served fuel : forall addr,
  preserves X F (tracking Q B) (joinMaster env fuel addr).
Proof.
  induction fuel as [|fuel IH]; intros addr; cbn [joinMaster];
    by_structure ltac:(tracking_block served_snoc).
Qed.

Lemma applyMessages_served msgs :
  preserves X F (tracking Q B) (applyMessages env msgs).
Proof.
  induction msgs as [|m rest IH]; cbn [applyMessages];
    by_structure ltac:(tracking_block served_snoc).
Qed.

Lemma loop_served sched :
  preserves X F (tracking Q B) (loop env sched).
Proof.
  pose proof applyMessages_served as R.
  induction sched as [|c rest IH]; cbn [loop];
    [tracking_block served_snoc|].
  apply preserves_bind; [|intros ?; exact IH].
  destruct c; cbn [selectCase]; by_structure ltac:(tracking_block served_snoc).
Qed.

Lemma serve_serves :
  triple X F (before B) (serve env) (fun _ => tracking Q B).
Proof.
  unfold serve, triple, before, tracking, following.
  intros w H; run; branches; cbn [fst snd post]; autorewrite with world;
    try split;
    try (apply none_only_after; unfold none in *;
         repeat (apply Forall_snoc; [|reflexivity]); exact H).
  eexists. in_trace.
Qed.

Lemma main_serves_first fuel sched :
  triple X F (before B) (main env fuel sched) (fun _ => tracking Q B).
Proof.
  pose proof deleteOldDatabases_before_serve as R1.
  pose proof (joinMaster_served fuel) as R2.
  pose proof (loop_served sched) as R3.
  unfold main, initialization.
  change ([parseFlags env; versionFlag; deleteState env] ++
          [deleteOldDatabases env; checkFlags env; newServer env;
           checkPeers env; setupRaft env; dumpCanary env; serve env;
           joinNetwork env fuel; mainLoop env sched])
    with ([parseFlags env; versionFlag; deleteState env;
           deleteOldDatabases env; checkFlags env; newServer env;
           checkPeers env; setupRaft env; dumpCanary env] ++
          [serve env; joinNetwork env fuel; mainLoop env sched]).
  apply triple_seq_app with (Q := before B).
  - apply preserves_seq.
    repeat (apply Forall_cons;
            [unfold parseFlags, versionFlag, deleteState, checkFlags,
               newServer, checkPeers, setupRaft, dumpCanary;
             by_structure quiet_block|]).
    apply Forall_nil.
  - cbn [seq].
    apply triple_bind with (R := fun _ => tracking Q B);
      [apply serve_serves | intros _].
    apply (preserves_seq X F (tracking Q B)
             [joinNetwork env fuel; mainLoop env sched]).
    repeat (apply Forall_cons;
            [unfold joinNetwork, mainLoop;
             by_structure ltac:(tracking_block served_snoc)|]).
    apply Forall_nil.
Qed.

End JoinAfterServe.

(** No request to the master before the time-safeguard check against
    it has passed. *)
Section JoinAfterCheck.

Variable env : Env.

Local Abbreviation Q := (passed env isMasterCheck).
Local Abbreviation B := isJoinCall.
Local Abbreviation X := (fun _ : Z => following Q B).
Local Abbreviation F := (following Q B).

Lemma removeCompactionDatabases_before_check tmpdir names :
  preserves X F (before B) (removeCompactionDatabases env tmpdir names).
Proof.
  induction names as [|name rest IH]; cbn [removeCompactionDatabases];
    by_structure quiet_block.
Qed.

Lemma deleteOldDatabases_before_check :
  preserves X F (before B) (deleteOldDatabases env).
Proof.
  pose proof removeCompactionDatabases_before_check as R.
  unfold deleteOldDatabases, deleteOldCompactionDatabases.
  by_structure quiet_block.
Qed.

Lemma joinMaster_checked fuel : forall addr,
  preserves X F (tracking Q B) (joinMaster env fuel addr).
Proof.
  induction fuel as [|fuel IH]; intros addr; cbn [joinMaster];
    by_structure ltac:(tracking_block (passed_snoc env isMasterCheck)).
Qed.

(** A block that makes no call in [B], after blocks that did. *)
Ltac following_block :=
  unfold invariant, preserves, triple, following;
  intros w H; run; branches; cbn [fst snd post];
  autorewrite with world;
  repeat (apply only_after_snoc; [|left; reflexivity]);
  exact H.

Lemma applyMessages_checked msgs :
  preserves X F (following Q B) (applyMessages env msgs).
Proof.
  induction msgs as [|m rest IH]; cbn [applyMessages];
    by_structure following_block.
Qed.

Lemma loop_checked sched :
  preserves X F (following Q B) (loop env sched).
Proof.
  pose proof applyMessages_checked as R.
  induction sched as [|c rest IH]; cbn [loop]; [following_block|].
  apply preserves_bind; [|intros ?; exact IH].
  destruct c; cbn [selectCase]; by_structure following_block.
Qed.

Lemma joinNetwork_checks fuel :
  triple X F (before B) (joinNetwork env fuel) (fun _ => following Q B).
Proof.
  pose proof (joinMaster_checked fuel) as R.
  unfold joinNetwork.
  apply triple_bind with (R := fun _ => before B); [quiet_block|intros f].
  destruct (negb (is_empty (join f))).
  - apply triple_bind with (R := fun _ => tracking Q B).
    + apply triple_bind with (R := fun _ => tracking Q B); [|intros _; apply R].
      unfold must, triple, before, tracking, following.
      intros w H; run; branches_eqn; cbn [fst snd post];
        autorewrite with world.
      * apply none_only_after. unfold none in *.
        repeat (apply Forall_snoc; [|reflexivity]). exact H.
      * split.
        -- apply none_only_after. unfold none in *.
           repeat (apply Forall_snoc; [|reflexivity]). exact H.
        -- eexists (trace w), _, []. repeat split. assumption.
    + intros p. tracking_block (passed_snoc env isMasterCheck).
  - intros w H. cbn. apply none_only_after. exact H.
Qed.

Lemma main_checks_first fuel sched :
  triple X F (before B) (main env fuel sched) (fun _ => following Q B).
Proof.
  pose proof deleteOldDatabases_before_check as R1.
  pose proof (loop_checked sched) as R3.
  unfold main, initialization.
  change ([parseFlags env; versionFlag; deleteState env] ++
          [deleteOldDatabases env; checkFlags env; newServer env;
           checkPeers env; setupRaft env; dumpCanary env; serve env;
           joinNetwork env fuel; mainLoop env sched])
    with ([parseFlags env; versionFlag; deleteState env;
           deleteOldDatabases env; checkFlags env; newServer env;
           checkPeers env; setupRaft env; dumpCanary env; serve env] ++
          [joinNetwork env fuel; mainLoop env sched]).
  apply triple_seq_app with (Q := before B).
  - apply preserves_seq.
    repeat (apply Forall_cons;
            [unfold parseFlags, versionFlag, deleteState, checkFlags,
               newServer, checkPeers, setupRaft, dumpCanary, serve;
             by_structure quiet_block|]).
    apply Forall_nil.
  - cbn [seq].
    apply triple_bind with (R := fun _ => following Q B);
      [apply joinNetwork_checks | intros _].
    apply preserves_bind; [|intros _; following_block].
    unfold mainLoop. by_structure following_block.
Qed.

End JoinAfterCheck.

(** X18: every call of a join request, from the marshalling of the
    request to [node.SetPeers], comes after the server was started on
    the listener for -listen, and after a time-safeguard check against
    the master that returned no error. *)
Theorem join_after_listener_and_check
    (env : Env) (fuel : nat) (sched : list Chan) (w0 : World)
    (pre : list Call) (c : Call) (rest : list Call) :
  trace w0 = [] ->
  trace (snd (main env fuel sched w0)) = pre ++ c :: rest ->
  isJoinCall c = true ->
  In (go_srv_Serve (listen (flags w0))) pre /\
  passed env isMasterCheck pre.
Proof.
  intros Ht Htr Hc.
  assert (S : before isJoining w0 /\ before isJoinCall w0).
  { unfold before. rewrite Ht. split; constructor. }
  destruct S as [S1 S2].
  pose proof (main_serves_first env fuel sched w0 S1) as H1.
  pose proof (main_checks_first env fuel sched w0 S2) as H2.
  destruct (main_modes env fuel sched w0 Ht) as (P & _).
  rewrite Forall_forall in P.
  assert (Hj : isJoining c = true) by (destruct c; try discriminate; reflexivity).
  split.
  - assert (G : served pre).
    { destruct (fst (main env fuel sched w0)); cbn [post] in H1;
        try destruct H1 as [H1 _]; exact (H1 pre c rest Htr Hj). }
    destruct G as (a & Ha).
    assert (Hin : In (go_srv_Serve a) (trace (snd (main env fuel sched w0)))).
    { rewrite Htr. apply in_or_app. left. exact Ha. }
    destruct (P _ Hin) as (_ & _ & _ & _ & G). cbn in G. subst a. exact Ha.
  - destruct (fst (main env fuel sched w0)); cbn [post] in H2;
      exact (H2 pre c rest Htr Hc).
Qed.

(** ** The main loop is guarded *)

Lemma triple_both X1 F1 X2 F2 (P1 P2 : World -> Prop) {A} (m : Proc A)
    (R1 R2 : A -> World -> Prop) :
  triple X1 F1 P1 m R1 ->
  triple X2 F2 (fun w => P1 w /\ P2 w) m R2 ->
  triple (fun c w => X1 c w /\ X2 c w) (fun w => F1 w /\ F2 w)
         (fun w => P1 w /\ P2 w) m (fun a w => R1 a w /\ R2 a w).
Proof.
  intros H1 H2 w [Hp1 Hp2].
  specialize (H1 w Hp1). specialize (H2 w (conj Hp1 Hp2)).
  destruct (fst (m w)); cbn [post] in *; split; assumption.
Qed.

Lemma guarded_snoc env w0 t c : guarded env w0 t -> guarded env w0 (t ++ [c]).
Proof.
  intros [H|[(H1 & H2 & H3)|H]]; [left; exact H | right; left |].
  - repeat split; try assumption.
    destruct H3 as [H3|H3]; [left; exact H3 | right].
    apply in_or_app. left. exact H3.
  - right. right. apply passed_snoc. exact H.
Qed.

(** A block that makes no call in [B] and keeps what was checked. *)
Ltac checked_block :=
  unfold invariant, preserves, triple, checked, before, following;
  intros w [H1 H2]; run; branches; cbn [fst snd post];
  autorewrite with world;
  try split;
  try (apply none_only_after);
  try (unfold none in *; repeat (apply Forall_snoc; [|reflexivity]);
       exact H1);
  try (intros E; repeat apply guarded_snoc; exact (H2 E)).

Section LoopAfterCheck.

Variable env : Env.
Variable w0 : World.

Local Abbreviation Q := (guarded env w0).
Local Abbreviation B := isTick.
Local Abbreviation X := (fun _ : Z => following Q B).
Local Abbreviation F := (following Q B).

Lemma removeCompactionDatabases_before_loop tmpdir names :
  preserves X F (before B) (removeCompactionDatabases env tmpdir names).
Proof.
  induction names as [|name rest IH]; cbn [removeCompactionDatabases];
    by_structure quiet_block.
Qed.

Lemma deleteOldDatabases_before_loop :
  preserves X F (before B) (deleteOldDatabases env).
Proof.
  pose proof removeCompactionDatabases_before_loop as R.
  unfold deleteOldDatabases, deleteOldCompactionDatabases.
  by_structure quiet_block.
Qed.

Lemma joinMaster_guarded fuel : forall addr,
  preserves X F (tracking Q B) (joinMaster env fuel addr).
Proof.
  induction fuel as [|fuel IH]; intros addr; cbn [joinMaster];
    by_structure ltac:(tracking_block (guarded_snoc env w0)).
Qed.

Lemma applyMessages_guarded msgs :
  preserves X F (tracking Q B) (applyMessages env msgs).
Proof.
  induction msgs as [|m rest IH]; cbn [applyMessages];
    by_structure ltac:(tracking_block (guarded_snoc env w0)).
Qed.

Lemma loop_guarded sched :
  preserves X F (tracking Q B) (loop env sched).
Proof.
  pose proof applyMessages_guarded as R.
  induction sched as [|c rest IH]; cbn [loop];
    [tracking_block (guarded_snoc env w0)|].
  apply preserves_bind; [|intros ?; exact IH].
  destruct c; cbn [selectCase];
    by_structure ltac:(tracking_block (guarded_snoc env w0)).
Qed.

Lemma mainLoop_guarded sched :
  preserves X F (tracking Q B) (mainLoop env sched).
Proof.
  pose proof (loop_guarded sched) as R.
  unfold mainLoop. by_structure ltac:(tracking_block (guarded_snoc env w0)).
Qed.

Lemma checkPeers_guards :
  triple X F (fun w => st_check env w0 w /\ before B w) (checkPeers env)
         (fun _ => checked env w0).
Proof.
  unfold checkPeers, triple. intros w [H1 H2].
  assert (S : stored env w = peers_json w).
  { unfold stored. rewrite raftRunning_none; [reflexivity | apply H1]. }
  revert w H1 H2 S.
  unfold st_check, st_init, kept, static, same_flags, checked, before,
    following.
  intros w H1 H2 S; run.
  destruct (is_empty (join (flags w)) && negb (singleNode (flags w))) eqn:C;
    cbv beta iota; [rewrite S|].
  - branches_eqn; cbn [fst snd post];
      autorewrite with world in *; conditions;
      try split;
      try (apply none_only_after);
      try (unfold none in *; repeat (apply Forall_snoc; [|reflexivity]);
           exact H2).
    + intros E. right. left. split; [exact E|]. split; [congruence|].
      match goal with
      | L : (len _ =? 0) = true |- _ => apply len_zero in L
      end.
      match goal with
      | K : _ \/ _ /\ In _ _ |- _ =>
          destruct K as [K|[_ K]];
          [left; congruence | right; apply in_or_app; left; exact K]
      end.
    + intros E. right. right.
      eexists (trace w ++ [peerStore_Peers]), _, [].
      repeat split. assumption.
  - cbn [fst snd post]. conditions. split; [exact H2|].
    intros E. left.
    apply andb_false_iff in C; destruct C as [K|K].
    + apply is_empty_false in K. congruence.
    + apply negb_false_iff in K. congruence.
Qed.

Lemma join_guards fuel f :
  triple X F (before B)
    (p <- (must env (timesafeguard_SynchronizedWithMasterAndNetwork
                       (peerAddr f) (join f) (networkPassword f))
                "timesafeguard" ;;
           joinMaster env fuel (join f)) ;;
     when (len p >? 0) (emit (node_SetPeers p)))
    (fun _ => tracking Q B).
Proof.
  pose proof (joinMaster_guarded fuel) as R.
  apply triple_bind with (R := fun _ => tracking Q B).
  - apply triple_bind with (R := fun _ => tracking Q B); [|intros _; apply R].
    unfold must, triple, before, tracking, following.
    intros w H; run; branches_eqn; cbn [fst snd post];
      autorewrite with world.
    + apply none_only_after. unfold none in *.
      repeat (apply Forall_snoc; [|reflexivity]). exact H.
    + split.
      * apply none_only_after. unfold none in *.
        repeat (apply Forall_snoc; [|reflexivity]). exact H.
      * right. right. eexists (trace w), _, []. repeat split. assumption.
  - intros p. tracking_block (guarded_snoc env w0).
Qed.

Lemma joinNetwork_guards fuel :
  triple X F (fun w => st_serving env w0 w /\ checked env w0 w)
         (joinNetwork env fuel) (fun _ => tracking Q B).
Proof.
  intros w [Hs [Hb Hg]]. unfold joinNetwork.
  rewrite (bind_Ok getFlags _ w (flags w) w eq_refl).
  assert (Hj : join (flags w0) = join (flags w)) by apply Hs.
  destruct (is_empty (join (flags w))) eqn:E; cbn [negb].
  - apply is_empty_true in E. cbn. split.
    + apply none_only_after. exact Hb.
    + apply Hg. congruence.
  - exact (join_guards fuel (flags w) w Hb).
Qed.

Lemma main_guarded fuel sched :
  triple (fun c w => ends env w0 c w /\ following Q B w)
         (fun w => st_serving env w0 w /\ following Q B w)
         (fun w => st_begin env w0 w /\ before B w)
         (main env fuel sched)
         (fun _ w => st_serving env w0 w /\ tracking Q B w).
Proof.
  pose proof deleteOldDatabases_before_loop as R1.
  unfold main, initialization. cbn [app seq].
  apply triple_bind with (R := fun _ w => st_start env w0 w /\ before B w).
  { apply triple_both; [apply parseFlags_modes|].
    apply triple_pre with (P' := before B); [tauto|].
    unfold parseFlags. by_structure quiet_block. }
  intros _.
  apply triple_bind with (R := fun _ w => st_run env w0 w /\ before B w).
  { apply triple_both; [apply versionFlag_modes|].
    apply triple_pre with (P' := before B); [tauto|].
    unfold versionFlag. by_structure quiet_block. }
  intros _.
  apply triple_bind with (R := fun _ w => st_run env w0 w /\ before B w).
  { apply triple_both; [apply deleteState_modes|].
    apply triple_pre with (P' := before B); [tauto|].
    unfold deleteState. by_structure quiet_block. }
  intros _.
  apply triple_bind with (R := fun _ w => st_run env w0 w /\ before B w).
  { apply triple_both; [apply deleteOldDatabases_modes|].
    apply triple_pre with (P' := before B); [tauto|]. exact R1. }
  intros _.
  apply triple_bind with (R := fun _ w => st_check env w0 w /\ before B w).
  { apply triple_both; [apply checkFlags_modes|].
    apply triple_pre with (P' := before B); [tauto|].
    unfold checkFlags. by_structure quiet_block. }
  intros _.
  apply triple_bind with (R := fun _ w => st_check env w0 w /\ before B w).
  { apply triple_both; [apply newServer_modes|].
    apply triple_pre with (P' := before B); [tauto|].
    unfold newServer. by_structure quiet_block. }
  intros _.
  apply triple_bind
    with (R := fun _ w => st_init env w0 w /\ checked env w0 w).
  { apply triple_both; [apply checkPeers_modes | apply checkPeers_guards]. }
  intros _.
  apply triple_bind
    with (R := fun _ w => st_init env w0 w /\ checked env w0 w).
  { apply triple_both; [apply setupRaft_modes|].
    apply triple_pre with (P' := checked env w0); [tauto|].
    unfold setupRaft. checked_block. }
  intros _.
  apply triple_bind
    with (R := fun _ w => st_serving env w0 w /\ checked env w0 w).
  { apply triple_both; [apply dumpCanary_modes|].
    apply triple_pre with (P' := checked env w0); [tauto|].
    unfold dumpCanary. checked_block. }
  intros _.
  apply triple_bind
    with (R := fun _ w => st_serving env w0 w /\ checked env w0 w).
  { apply triple_both; [apply serve_modes|].
    apply triple_pre with (P' := checked env w0); [tauto|].
    unfold serve. checked_block. }
  intros _.
  apply triple_bind
    with (R := fun _ w => st_serving env w0 w /\ tracking Q B w).
  { apply triple_both; [apply joinNetwork_modes | apply joinNetwork_guards]. }
  intros _.
  apply triple_bind
    with (R := fun _ w => st_serving env w0 w /\ tracking Q B w).
  { apply triple_both; [apply mainLoop_modes|].
    apply triple_pre with (P' := tracking Q B); [tauto|].
    apply mainLoop_guarded. }
  intros _ w H. cbn. exact H.
Qed.

End LoopAfterCheck.

(** X19: a process enters the main loop only as the single node of a
    network, or without -join, with the time safeguard disabled and
    without stored peers (peers.json was empty at the start, or the
    data directory was wiped before), or after a time-safeguard check
    that returned no error. *)
Theorem loop_after_timesafeguard
    (env : Env) (fuel : nat) (sched : list Chan) (w0 : World)
    (pre : list Call) (d : Duration) (rest : list Call) :
  trace w0 = [] ->
  trace (snd (main env fuel sched w0)) = pre ++ time_Tick d :: rest ->
  singleNode (flags w0) = true \/
  (join (flags w0) = "" /\ DisableTimesafeguard (flags w0) = true /\
   (peers_json w0 = [] \/ In (os_RemoveAll (raftDir (flags w0))) pre)) \/
  passed env isTimesafeguard pre.
Proof.
  intros Ht Htr.
  assert (S : st_begin env w0 w0 /\ before isTick w0).
  { unfold st_begin, kept, before. rewrite Ht.
    repeat split; try constructor. reflexivity. }
  pose proof (main_guarded env w0 fuel sched w0 S) as H.
  assert (G : following (guarded env w0) isTick
                        (snd (main env fuel sched w0))).
  { destruct (fst (main env fuel sched w0)); cbn [post] in H;
      destruct H as [_ H]; first [exact H | exact (proj1 H)]. }
  exact (G pre (time_Tick d) rest Htr eq_refl).
Qed.

(** * gentmpl.go: canBackquote *)

Section UTF8.

Import utf8.

Lemma val_range b : 0 <= val b < 256.
Proof.
  unfold val. pose proof (N_ascii_bounded b). lia.
Qed.

Lemma first_cases v :
  0 <= v < 256 ->
  (v < 128 /\ first v = as_) \/ (128 <= v < 194 /\ first v = xx) \/
  (194 <= v < 224 /\ first v = s1) \/ (v = 224 /\ first v = s2) \/
  (225 <= v < 237 /\ first v = s3) \/ (v = 237 /\ first v = s4) \/
  (238 <= v < 240 /\ first v = s3) \/ (v = 240 /\ first v = s5) \/
  (241 <= v < 244 /\ first v = s6) \/ (v = 244 /\ first v = s7) \/
  (245 <= v /\ first v = xx).
Proof.
  intros H. unfold first.
  repeat match goal with
         | |- context [?a <? ?b] => destruct (Z.ltb_spec a b)
         | |- context [?a =? ?b] => destruct (Z.eqb_spec a b)
         end; lia.
Qed.

(** Split the tests of the goal and drop the impossible branches. *)
Ltac tests :=
  repeat match goal with
         | |- context [?a <? ?b] => destruct (Z.ltb_spec a b); try lia
         | |- context [?a <=? ?b] => destruct (Z.leb_spec a b); try lia
         | |- context [?a >=? ?b] =>
             rewrite (Z.geb_leb a b); destruct (Z.leb_spec b a); try lia
         | |- context [?a =? ?b] => destruct (Z.eqb_spec a b); try lia
         end;
  cbn [orb andb negb fst snd].

Lemma decode_ascii b0 rest :
  val b0 < 128 -> DecodeRuneInString (b0 :: rest) = (val b0, 1).
Proof.
  intros H. pose proof (val_range b0) as R.
  destruct (first_cases _ R) as [[_ F]|C]; [|lia].
  unfold DecodeRuneInString, byteAt. cbn [length nth]. cbv zeta.
  rewrite F.
  replace (Z.of_nat (S (length rest)) <? 1) with false
    by (symmetry; apply Z.ltb_ge; lia).
  change (as_ >=? as_) with true. cbv iota.
  change (Z.shiftr (int32 (Z.shiftl as_ 31)) 31) with 0.
  change (Z.lnot 0) with (-1).
  rewrite Z.land_m1_r, Z.land_0_r, Z.lor_0_r. reflexivity.
Qed.

Lemma decode_bad_lead b0 rest :
  128 <= val b0 < 194 \/ 245 <= val b0 ->
  DecodeRuneInString (b0 :: rest) = (RuneError, 1).
Proof.
  intros H. pose proof (val_range b0) as R.
  assert (F : first (val b0) = xx).
  { destruct (first_cases _ R) as [C|[C|[C|[C|[C|[C|[C|[C|[C|[C|C]]]]]]]]]];
      destruct C as [C F]; try exact F; lia. }
  unfold DecodeRuneInString, byteAt. cbn [length nth]. cbv zeta.
  rewrite F.
  replace (Z.of_nat (S (length rest)) <? 1) with false
    by (symmetry; apply Z.ltb_ge; lia).
  change (xx >=? as_) with true. cbv iota.
  change (Z.shiftr (int32 (Z.shiftl xx 31)) 31) with (-1).
  change (Z.lnot (-1)) with 0.
  rewrite Z.land_m1_r, Z.land_0_r, Z.lor_0_l. reflexivity.
Qed.

Lemma decode_lead b0 rest x :
  first (val b0) = x -> x < as_ ->
  DecodeRuneInString (b0 :: rest) =
  decode_tail (Z.land x 7) (fst (acceptRanges (Z.shiftr x 4)))
              (snd (acceptRanges (Z.shiftr x 4))) (b0 :: rest).
Proof.
  intros F Hx. unfold DecodeRuneInString, decode_tail, byteAt. cbv zeta.
  cbn [length nth]. rewrite F.
  replace (Z.of_nat (S (length rest)) <? 1) with false
    by (symmetry; apply Z.ltb_ge; lia).
  replace (x >=? as_) with false
    by (symmetry; rewrite Z.geb_leb; apply Z.leb_gt; exact Hx).
  reflexivity.
Qed.

(** Look the lead byte up in [first] and go to [decode_tail]. *)
Ltac lead b0 :=
  let R := fresh "R" in
  let C := fresh "C" in
  let F := fresh "F" in
  pose proof (val_range b0) as R;
  destruct (first_cases _ R)
    as [C|[C|[C|[C|[C|[C|[C|[C|[C|[C|C]]]]]]]]]];
  destruct C as [C F]; try lia.

Ltac tail F :=
  rewrite (decode_lead _ _ _ F) by (vm_compute; reflexivity);
  unfold decode_tail, byteAt; cbv zeta; cbn [length nth];
  match goal with
  | |- context [acceptRanges ?i] =>
      let r := eval vm_compute in (acceptRanges i) in
      change (acceptRanges i) with r
  end;
  match goal with
  | |- context [Z.land ?x 7] =>
      let r := eval vm_compute in (Z.land x 7) in
      change (Z.land x 7) with r
  end;
  cbn [fst snd]; unfold locb, hicb.

Lemma decode_two b0 b1 rest :
  194 <= val b0 <= 223 -> cont (val b1) ->
  DecodeRuneInString (b0 :: b1 :: rest) = (rune2 (val b0) (val b1), 2).
Proof.
  unfold cont. intros H0 H1. lead b0; tail F; tests; reflexivity.
Qed.

Lemma decode_three b0 b1 b2 rest :
  three_ok (val b0) (val b1) -> cont (val b2) ->
  DecodeRuneInString (b0 :: b1 :: b2 :: rest)
  = (rune3 (val b0) (val b1) (val b2), 3).
Proof.
  unfold three_ok, cont. intros H0 H2. lead b0; tail F; tests; reflexivity.
Qed.

Lemma decode_four b0 b1 b2 b3 rest :
  four_ok (val b0) (val b1) -> cont (val b2) -> cont (val b3) ->
  DecodeRuneInString (b0 :: b1 :: b2 :: b3 :: rest)
  = (rune4 (val b0) (val b1) (val b2) (val b3), 4).
Proof.
  unfold four_ok, cont. intros H0 H2 H3.
  lead b0; tail F; tests; reflexivity.
Qed.

Lemma Decode_cases b0 rest :
  decode_shape (b0 :: rest) (DecodeRuneInString (b0 :: rest)).
Proof.
  pose proof (val_range b0) as R0.
  destruct (Z.ltb_spec (val b0) 128) as [A|A].
  { rewrite decode_ascii by exact A. constructor. exact A. }
  destruct (Z.ltb_spec (val b0) 194) as [B|B].
  { rewrite decode_bad_lead by lia. constructor. }
  destruct (Z.leb_spec 245 (val b0)) as [D|D].
  { rewrite decode_bad_lead by lia. constructor. }
  destruct rest as [|b1 [|b2 [|b3 rest]]];
    lead b0; tail F; tests;
    first [ apply shape_error
          | apply shape_two; unfold cont; lia
          | apply shape_three; unfold three_ok, cont; lia
          | apply shape_four; unfold four_ok, cont; lia ].
Qed.

Lemma lor_add a lo n :
  0 <= n -> 0 <= lo < 2 ^ n -> a mod 2 ^ n = 0 -> Z.lor a lo = a + lo.
Proof.
  intros Hn Hlo Ha.
  assert (L : Z.land a lo = 0).
  { apply Z.bits_inj'. intros m Hm. rewrite Z.land_spec, Z.bits_0.
    destruct (Z.lt_ge_cases m n) as [Lt|Ge].
    - replace (Z.testbit a m) with (Z.testbit (a mod 2 ^ n) m)
        by (apply Z.mod_pow2_bits_low; lia).
      rewrite Ha, Z.bits_0. reflexivity.
    - replace lo with (lo mod 2 ^ n) by (apply Z.mod_small; lia).
      rewrite Z.mod_pow2_bits_high by lia. apply andb_false_r. }
  rewrite <- Z.lxor_lor by exact L. symmetry. apply Z.add_nocarry_lxor.
  exact L.
Qed.

Lemma land_mask v k m :
  m = Z.ones k -> 0 <= k -> Z.land v m = v mod 2 ^ k.
Proof. intros -> Hk. apply Z.land_ones. exact Hk. Qed.

Lemma rune2_value v0 v1 :
  rune2 v0 v1 = (v0 mod 32) * 64 + v1 mod 64.
Proof.
  unfold rune2, mask2, maskx.
  rewrite (land_mask v0 5 31), (land_mask v1 6 63) by (reflexivity || lia).
  rewrite Z.shiftl_mul_pow2 by lia.
  change (2 ^ 5) with 32. change (2 ^ 6) with 64.
  apply (lor_add _ _ 6); [lia | change (2 ^ 6) with 64 | change (2 ^ 6) with 64].
  - apply Z.mod_pos_bound. lia.
  - apply Z.mod_mul. lia.
Qed.

Lemma rune3_value v0 v1 v2 :
  rune3 v0 v1 v2 = (v0 mod 16) * 4096 + (v1 mod 64) * 64 + v2 mod 64.
Proof.
  unfold rune3, mask3, maskx.
  rewrite (land_mask v0 4 15), (land_mask v1 6 63), (land_mask v2 6 63)
    by (reflexivity || lia).
  rewrite !Z.shiftl_mul_pow2 by lia.
  change (2 ^ 4) with 16. change (2 ^ 6) with 64. change (2 ^ 12) with 4096.
  pose proof (Z.mod_pos_bound v1 64 ltac:(lia)).
  pose proof (Z.mod_pos_bound v2 64 ltac:(lia)).
  rewrite (lor_add (v0 mod 16 * 4096) (v1 mod 64 * 64) 12);
    change (2 ^ 12) with 4096; [|lia|lia|apply Z.mod_mul; lia].
  apply (lor_add _ _ 6); change (2 ^ 6) with 64; [lia|lia|].
  replace (v0 mod 16 * 4096 + v1 mod 64 * 64)
    with ((v0 mod 16 * 64 + v1 mod 64) * 64) by lia.
  apply Z.mod_mul. lia.
Qed.

Lemma rune4_value v0 v1 v2 v3 :
  rune4 v0 v1 v2 v3
  = (v0 mod 8) * 262144 + (v1 mod 64) * 4096 + (v2 mod 64) * 64 + v3 mod 64.
Proof.
  unfold rune4, mask4, maskx.
  rewrite (land_mask v0 3 7), (land_mask v1 6 63), (land_mask v2 6 63),
    (land_mask v3 6 63) by (reflexivity || lia).
  rewrite !Z.shiftl_mul_pow2 by lia.
  change (2 ^ 3) with 8. change (2 ^ 6) with 64. change (2 ^ 12) with 4096.
  change (2 ^ 18) with 262144.
  pose proof (Z.mod_pos_bound v1 64 ltac:(lia)).
  pose proof (Z.mod_pos_bound v2 64 ltac:(lia)).
  pose proof (Z.mod_pos_bound v3 64 ltac:(lia)).
  rewrite (lor_add (v0 mod 8 * 262144) (v1 mod 64 * 4096) 18);
    change (2 ^ 18) with 262144; [|lia|lia|apply Z.mod_mul; lia].
  rewrite (lor_add (v0 mod 8 * 262144 + v1 mod 64 * 4096) (v2 mod 64 * 64) 12);
    change (2 ^ 12) with 4096; [|lia|lia|].
  - apply (lor_add _ _ 6); change (2 ^ 6) with 64; [lia|lia|].
    replace (v0 mod 8 * 262144 + v1 mod 64 * 4096 + v2 mod 64 * 64)
      with ((v0 mod 8 * 4096 + v1 mod 64 * 64 + v2 mod 64) * 64) by lia.
    apply Z.mod_mul. lia.
  - replace (v0 mod 8 * 262144 + v1 mod 64 * 4096)
      with ((v0 mod 8 * 64 + v1 mod 64) * 4096) by lia.
    apply Z.mod_mul. lia.
Qed.

Lemma rune2_not_bom v0 v1 : rune2 v0 v1 <> 65279.
Proof.
  rewrite rune2_value.
  pose proof (Z.mod_pos_bound v0 32 ltac:(lia)).
  pose proof (Z.mod_pos_bound v1 64 ltac:(lia)). lia.
Qed.

Lemma rune3_bom v0 v1 v2 :
  three_ok v0 v1 -> cont v2 ->
  (rune3 v0 v1 v2 = 65279 <-> v0 = 239 /\ v1 = 187 /\ v2 = 191).
Proof.
  unfold three_ok, cont. intros H01 H2. rewrite rune3_value.
  split.
  - intros E. Z.div_mod_to_equations. lia.
  - intros (-> & -> & ->). reflexivity.
Qed.

Lemma rune4_not_bom v0 v1 v2 v3 :
  four_ok v0 v1 -> rune4 v0 v1 v2 v3 <> 65279.
Proof.
  unfold four_ok, cont. intros H01. rewrite rune4_value.
  Z.div_mod_to_equations. lia.
Qed.

Lemma loop_sound fuel : forall s,
  canBackquote_loop fuel s = Some true -> backquotable s.
Proof.
  induction fuel as [|fuel IH]; intros [|b0 rest] H; try apply bq_nil;
    cbn [canBackquote_loop] in H; try discriminate.
  pose proof (Decode_cases b0 rest) as D.
  destruct (DecodeRuneInString (b0 :: rest)) as [r wid].
  inversion D; subst; clear D.
  - change (1 >? 1) with false in H. cbv iota in H.
    unfold RuneError in H.
    pose proof (val_range b0).
    destruct (Z.eqb_spec (val b0) 65533); [lia|].
    destruct (Z.ltb_spec (val b0) 32);
      destruct (Z.eqb_spec (val b0) 9);
      destruct (Z.eqb_spec (val b0) 10);
      destruct (Z.eqb_spec (val b0) 96);
      destruct (Z.eqb_spec (val b0) 127);
      cbn [negb andb orb] in H; try discriminate;
      try lia;
      (apply bq_plain; [unfold plain; lia | apply IH; exact H]).
  - change (1 >? 1) with false in H. cbv iota in H.
    rewrite Z.eqb_refl in H. discriminate.
  - change (2 >? 1) with true in H. cbv iota in H.
    match type of H with
    | context [?r =? 65279] => destruct (Z.eqb_spec r 65279) as [E|E]
    end; [discriminate|].
    apply bq_two; auto.
  - change (3 >? 1) with true in H. cbv iota in H.
    match type of H with
    | context [?r =? 65279] => destruct (Z.eqb_spec r 65279) as [E|E]
    end; [discriminate|].
    apply bq_three; auto.
    intros B. apply E. apply rune3_bom; assumption.
  - change (4 >? 1) with true in H. cbv iota in H.
    match type of H with
    | context [?r =? 65279] => destruct (Z.eqb_spec r 65279) as [E|E]
    end; [discriminate|].
    apply bq_four; auto.
Qed.

Lemma loop_complete s :
  backquotable s ->
  forall fuel, (length s <= fuel)%nat -> canBackquote_loop fuel s = Some true.
Proof.
  induction 1 as [|b0 s P _ IH|b0 b1 s H0 H1 _ IH|b0 b1 b2 s H0 H2 N _ IH
                  |b0 b1 b2 b3 s H0 H2 H3 _ IH];
    intros [|fuel] L; cbn [length] in L; try lia; try reflexivity;
    cbn [canBackquote_loop].
  - destruct P as (P1 & P2 & P3 & P4).
    rewrite decode_ascii by exact P1.
    change (1 >? 1) with false. cbv iota. unfold RuneError.
    pose proof (val_range b0).
    destruct (Z.eqb_spec (val b0) 65533); [lia|].
    destruct (Z.ltb_spec (val b0) 32);
      destruct (Z.eqb_spec (val b0) 9);
      destruct (Z.eqb_spec (val b0) 10);
      destruct (Z.eqb_spec (val b0) 96);
      destruct (Z.eqb_spec (val b0) 127);
      cbn [negb andb orb]; try lia; apply IH; cbn; lia.
  - rewrite decode_two by assumption.
    change (2 >? 1) with true. cbv iota.
    destruct (Z.eqb_spec (rune2 (val b0) (val b1)) 65279) as [E|E].
    + exfalso. exact (rune2_not_bom _ _ E).
    + apply IH. cbn. lia.
  - rewrite decode_three by assumption.
    change (3 >? 1) with true. cbv iota.
    destruct (Z.eqb_spec (rune3 (val b0) (val b1) (val b2)) 65279) as [E|E].
    + exfalso. apply N. apply rune3_bom in E; assumption.
    + apply IH. cbn. lia.
  - rewrite decode_four by assumption.
    change (4 >? 1) with true. cbv iota.
    destruct (Z.eqb_spec (rune4 (val b0) (val b1) (val b2) (val b3)) 65279)
      as [E|E].
    + exfalso. exact (rune4_not_bom _ _ _ _ H0 E).
    + apply IH. cbn. lia.
Qed.

(** With [length s] rounds the loop has come to its end, and more
    rounds do not change what it returns. *)
Lemma loop_fuel fuel : forall fuel' s,
  (length s <= fuel)%nat -> (length s <= fuel')%nat ->
  canBackquote_loop fuel s <> None /\
  canBackquote_loop fuel s = canBackquote_loop fuel' s.
Proof.
  induction fuel as [|fuel IH]; intros fuel' [|b0 rest] L L';
    cbn [length] in *; try lia;
    try (destruct fuel'; cbn; (split; [discriminate | reflexivity])).
  destruct fuel' as [|fuel']; [lia|].
  cbn [canBackquote_loop].
  pose proof (Decode_cases b0 rest) as D.
  destruct (DecodeRuneInString (b0 :: rest)) as [r wid].
  assert (G : forall n, (1 <= n)%nat ->
            canBackquote_loop fuel (skipn n (b0 :: rest)) <> None /\
            canBackquote_loop fuel (skipn n (b0 :: rest))
            = canBackquote_loop fuel' (skipn n (b0 :: rest))).
  { intros n Hn. apply IH; rewrite length_skipn; cbn [length]; lia. }
  inversion D; subst; clear D;
    repeat match goal with
           | |- context [if ?c then _ else _] => destruct c
           end;
    try (split; [discriminate | reflexivity]);
    apply G; cbn; lia.
Qed.

End UTF8.

Lemma canBackquote_sound s : canBackquote s = true -> backquotable s.
Proof.
  unfold canBackquote. intros H. apply (loop_sound (length s)).
  destruct (canBackquote_loop (length s) s) as [[|]|]; congruence.
Qed.

Lemma canBackquote_complete s : backquotable s -> canBackquote s = true.
Proof.
  unfold canBackquote. intros H.
  rewrite (loop_complete s H (length s)) by lia. reflexivity.
Qed.

(** X1: [canBackquote] returns true exactly on the strings that are a
    sequence of well-formed UTF-8 encodings in which every rune of one
    byte is printable ASCII other than the backquote and DEL, or a tab
    or a newline, and no rune is the byte order mark U+FEFF; on every
    other string, and so on every string that is not valid UTF-8, it
    returns false. *)
Theorem canBackquote_backquotable (s : list ascii) :
  canBackquote s = true <-> backquotable s.
Proof.
  unfold canBackquote. split.
  - intros H. apply (loop_sound (length s)).
    destruct (canBackquote_loop (length s) s) as [[|]|]; congruence.
  - intros H. rewrite (loop_complete s H (length s)) by lia. reflexivity.
Qed.

Lemma backquotable_bytes s :
  backquotable s ->
  Forall (fun b => val b <> 96 /\ val b <> 127 /\
                   (val b < 32 -> val b = 9 \/ val b = 10)) s.
Proof.
  induction 1; unfold three_ok, four_ok, cont, plain in *;
    repeat (apply Forall_cons; [lia|]); try assumption; apply Forall_nil.
Qed.

Lemma backquotable_no_bom s :
  backquotable s -> forall pre post, s <> pre ++ BOM ++ post.
Proof.
  unfold BOM.
  induction 1 as [|b0 s P _ IH|b0 b1 s H0 H1 _ IH|b0 b1 b2 s H0 H2 N _ IH
                  |b0 b1 b2 b3 s H0 H2 H3 _ IH];
    intros pre post E.
  - destruct pre; discriminate.
  - destruct pre as [|x pre]; cbn [app] in E; injection E as E0 E.
    + subst b0. destruct P as [P _]. vm_compute in P. discriminate.
    + exact (IH _ _ E).
  - unfold cont in *.
    destruct pre as [|x [|y pre]]; cbn [app] in E; injection E as E0 E1 E.
    + subst b0. vm_compute in H0. destruct H0 as [_ H0]. apply H0. reflexivity.
    + subst b1. vm_compute in H1. destruct H1 as [_ H1]. apply H1. reflexivity.
    + exact (IH _ _ E).
  - unfold cont in *.
    destruct pre as [|x [|y [|z pre]]]; cbn [app] in E;
      injection E as E0 E1 E2 E.
    + subst. apply N. repeat split.
    + subst b1. unfold three_ok, cont in H0. 
      assert (V : val (ascii_of_nat 239) = 239) by reflexivity. lia.
    + subst b2. assert (V : val (ascii_of_nat 239) = 239) by reflexivity. lia.
    + exact (IH _ _ E).
  - unfold four_ok, cont in *.
    assert (V : val (ascii_of_nat 239) = 239) by reflexivity.
    destruct pre as [|x [|y [|z [|u pre]]]]; cbn [app] in E;
      injection E; intros; subst; try lia.
    eapply IH. reflexivity.
Qed.

(** X2: a string for which [canBackquote] returns true holds no
    backquote, no DEL, no control character other than tab and
    newline (so no carriage return and no NUL), and nowhere the three
    bytes of the byte order mark. *)
Theorem canBackquote_never_holds (s : list ascii) :
  canBackquote s = true ->
  Forall (fun b => val b <> 96 /\ val b <> 127 /\
                   (val b < 32 -> val b = 9 \/ val b = 10)) s /\
  forall pre post, s <> pre ++ BOM ++ post.
Proof.
  intros H. apply canBackquote_sound in H. split.
  - apply backquotable_bytes. exact H.
  - apply backquotable_no_bom. exact H.
Qed.

Lemma backquotable_app a b :
  backquotable a -> (backquotable (a ++ b) <-> backquotable b).
Proof.
  unfold plain.
  induction 1 as [|b0 s P _ IH|b0 b1 s H0 H1 _ IH|b0 b1 b2 s H0 H2 N _ IH
                  |b0 b1 b2 b3 s H0 H2 H3 _ IH]; cbn [app].
  - tauto.
  - split.
    + intros H. apply IH.
      inversion H; subst; try assumption;
        unfold three_ok, four_ok, plain in *; lia.
    + intros H. apply bq_plain; [exact P | apply IH; exact H].
  - split.
    + intros H. apply IH.
      inversion H; subst; try assumption;
        unfold three_ok, four_ok, plain in *; lia.
    + intros H. apply bq_two; [exact H0 | exact H1 | apply IH; exact H].
  - split.
    + intros H. apply IH.
      inversion H; subst; try assumption;
        unfold three_ok, four_ok, plain in *; lia.
    + intros H. apply bq_three; try assumption. apply IH; exact H.
  - split.
    + intros H. apply IH.
      inversion H; subst; try assumption;
        unfold three_ok, four_ok, plain in *; lia.
    + intros H. apply bq_four; try assumption. apply IH; exact H.
Qed.

(** X3: [canBackquote] reads its argument rune by rune from the left:
    after a part for which it returns true, the rest alone decides. *)
Theorem canBackquote_app (a b : list ascii) :
  canBackquote a = true -> canBackquote (a ++ b) = canBackquote b.
Proof.
  intros H. apply canBackquote_sound in H.
  destruct (backquotable_app a b H) as [E1 E2].
  destruct (canBackquote b) eqn:Eb.
  - apply canBackquote_complete, E2, canBackquote_sound, Eb.
  - destruct (canBackquote (a ++ b)) eqn:Eab; [|reflexivity].
    apply canBackquote_sound, E1, canBackquote_complete in Eab. congruence.
Qed.

(** * More runs on the test vectors *)

Lemma canBackquote_never_holds_witness :
  Forall (fun b => val b <> 96 /\ val b <> 127 /\
                   (val b < 32 -> val b = 9 \/ val b = 10))
         (bytes "<h1>{{ .Network }}</h1>").
Proof.
  exact (proj1 (canBackquote_never_holds (bytes "<h1>{{ .Network }}</h1>")
                  ltac:(vm_compute; reflexivity))).
Defined.

Lemma canBackquote_app_witness :
  canBackquote (bytes "<p>" ++ bytes "a`b") = canBackquote (bytes "a`b").
Proof.
  apply canBackquote_app. vm_compute. reflexivity.
Defined.

Lemma process_exit_codes_witness :
  process env0 1 [] Rejected world0 = (Exit 2, extend [flag_Usage] world0) /\
  In (canary "canary.json")
     (trace (snd (process env0 1 [] (Parsed flags_canary) world_canary))).
Proof.
  split.
  - exact (process_exit_codes env0 1 [] Rejected world0 eq_refl).
  - pose proof (process_exit_codes env0 1 [] (Parsed flags_canary)
                  world_canary eq_refl) as H.
    cbv zeta beta iota in H.
    assert (E : fst (process env0 1 [] (Parsed flags_canary) world_canary)
                = Exit 0)
      by (vm_compute; reflexivity).
    rewrite E in H.
    destruct H as [H|[_ [H|[H _]]]]; [discriminate | discriminate | exact H].
Defined.

Lemma no_join_no_requests_witness :
  none isJoining
       (trace (snd (main env0 1 [secondTicker; expireSessionsTimer]
                         world_peers))).
Proof.
  exact (no_join_no_requests env0 1 [secondTicker; expireSessionsTimer]
           world_peers eq_refl eq_refl).
Defined.

Lemma canary_mode_never_serves_witness :
  none afterCanary (trace (snd (main env0 1 [] world_canary))).
Proof.
  exact (proj1 (canary_mode_never_serves env0 1 [] world_canary eq_refl
                  ltac:(discriminate))).
Defined.

Lemma main_removes_only_witness :
  exists name,
    "/var/lib/robustirc/permanent-compaction.sqlite3-wal"
      = Join (raftDir (flags world_compaction)) name /\
    isCompactionDatabase name = true.
Proof.
  apply (main_removes_only env0 1 [] world_compaction
           "/var/lib/robustirc/permanent-compaction.sqlite3-wal" eq_refl).
  vm_compute. tauto.
Defined.

Lemma peer_address_fallback_witness :
  ":443" = (if is_empty (peerAddr (flags world_join))
            then listen (flags world_join)
            else peerAddr (flags world_join)).
Proof.
  refine (proj1 (peer_address_fallback env0 1 [] world_join
                   (json_Marshal ":443") ":443" eq_refl _) eq_refl).
  vm_compute. tauto.
Defined.

Lemma network_name_required_witness :
  fst (main env0 1 [] world_noname) = Exit 1.
Proof.
  exact (proj1 (network_name_required env0 1 [] world_noname
                  eq_refl eq_refl eq_refl)).
Defined.

Lemma timesafeguard_by_mode_witness :
  join (flags world_peers) = "" /\ singleNode (flags world_peers) = false /\
  ["n1:60667"; "n2:60667"; "n3:60667"] = peers_json world_peers.
Proof.
  apply (proj1 (timesafeguard_by_mode env0 1 [] world_peers
                  "n1:60667" "secret" eq_refl)).
  vm_compute. tauto.
Defined.

Lemma join_after_listener_and_check_witness :
  In (go_srv_Serve ":443")
     (firstn 27 (trace (snd (main env0 1 [] world_join)))) /\
  passed env0 isMasterCheck
         (firstn 27 (trace (snd (main env0 1 [] world_join)))).
Proof.
  apply (join_after_listener_and_check env0 1 [] world_join
           (firstn 27 (trace (snd (main env0 1 [] world_join))))
           (json_Marshal ":443")
           (skipn 28 (trace (snd (main env0 1 [] world_join))))
           eq_refl).
  - vm_compute. reflexivity.
  - reflexivity.
Defined.

Lemma loop_after_timesafeguard_witness :
  singleNode (flags world_peers) = true \/
  (join (flags world_peers) = "" /\
   DisableTimesafeguard (flags world_peers) = true /\
   (peers_json world_peers = [] \/
    In (os_RemoveAll (raftDir (flags world_peers)))
       (firstn 28 (trace (snd (main env0 1 [] world_peers)))))) \/
  passed env0 isTimesafeguard
         (firstn 28 (trace (snd (main env0 1 [] world_peers)))).
Proof.
  apply (loop_after_timesafeguard env0 1 [] world_peers
           (firstn 28 (trace (snd (main env0 1 [] world_peers))))
           (1 * Second)
           (skipn 29 (trace (snd (main env0 1 [] world_peers))))
           eq_refl).
  vm_compute. reflexivity.
Defined.

Lemma deleteOldDatabases_continues_witness :
  fst (deleteOldDatabases env0 world_compaction) = Ok tt.
Proof.
  exact (proj1 (proj2 (deleteOldDatabases_continues env0 world_compaction)
                  eq_refl)).
Defined.

Lemma join_hands_peers_to_raft_witness :
  fails env0 (trace world_join)
    (timesafeguard_SynchronizedWithMasterAndNetwork
       (peerAddr flags_join) (join flags_join) (networkPassword flags_join))
  = false.
Proof.
  exact (proj1 (proj2 (proj2 (join_hands_peers_to_raft env0 1 world_join)
                         ltac:(discriminate))
                  ltac:(vm_compute; reflexivity))).
Defined.

Lemma mainLoop_ends_on_shutdown_only_witness :
  (exists pre,
     trace (snd (mainLoop env_shutdown [expireSessionsTimer; secondTicker]
                          world0))
       = pre ++ [node_State; log_Print removed] /\
     raftState env_shutdown pre = Shutdown) /\
  fst (mainLoop env0 [secondTicker; expireSessionsTimer] world0) = Ok tt.
Proof.
  split.
  - exact (proj2 (proj1 (mainLoop_ends_on_shutdown_only env_shutdown
                           [expireSessionsTimer; secondTicker] world0)
                    1 ltac:(vm_compute; reflexivity))).
  - apply (proj2 (proj2 (mainLoop_ends_on_shutdown_only env0
                           [secondTicker; expireSessionsTimer] world0))).
    intros h. discriminate.
Defined.
